(** * wytch.view: a shallow embedding of the view/widget framework

    The Python module [wytch/view.py] is embedded class by class.  Value
    widgets and radio groups live in a small object store (objects are named
    by their index, which stands for Python object identity); the view tree
    used by layout and focus is an inductive tree whose nodes carry an
    identity.  Integers are [Z], lists updated by index use stdpp's lookup
    and insert with the Python out-of-range behaviour written out, and
    exceptions are values of [result]. *)

From Stdlib Require Import ZArith List Bool String Lia.
From stdpp Require Import base option list.

Local Open Scope Z_scope.

(** ** Exceptions and results *)

(** The exceptions the module can raise by itself: [NotImplementedError] is
    raised by the [focused] setter, [IndexError] by list indexing,
    [ValueError] by [list.remove], [AttributeError] by reading an attribute
    that was never assigned (or an attribute of [None]), [AssertionError] by
    [Grid.recalc], [ZeroDivisionError] by [Console.recalc] on a canvas of
    width 0. *)
Inductive exn : Type :=
  | NotImplementedError
  | IndexError
  | ValueError
  | AttributeError
  | AssertionError
  | ZeroDivisionError.

(** The outcome of a call: a normal return, or an exception described by
    [E].  [Stuck] is not a Python outcome: it marks a run of the model that
    ran out of fuel or followed an object name that the store does not
    hold. *)
Inductive result (E A : Type) : Type :=
  | Ok (a : A)
  | Raise (e : E)
  | Stuck.
Arguments Ok {E A} a.
Arguments Raise {E A} e.
Arguments Stuck {E A}.

#[global] Instance result_ret {E} : MRet (result E) := fun A a => Ok a.
#[global] Instance result_bind {E} : MBind (result E) := fun A B f m =>
  match m with
  | Ok a => f a
  | Raise e => Raise e
  | Stuck => Stuck
  end.

(** A computation that returns a value or raises. *)
Abbreviation res := (result exn).

(** [for c in l: body(c)] over a state that the body may change or abort. *)
Fixpoint for_each {E A S : Type} (l : list A) (body : A -> S -> result E S)
    (s : S) : result E S :=
  match l with
  | [] => Ok s
  | c :: l' => s' ← body c s; for_each l' body s'
  end.

(** ** Python values held by a [ValueWidget] *)

Inductive pyval : Type :=
  | VNone
  | VBool (b : bool)
  | VInt (z : Z)
  | VStr (s : string).

(** Python's [==] on these values; [True == 1] and [False == 0] hold. *)
Definition py_eq (a b : pyval) : bool :=
  match a, b with
  | VNone, VNone => true
  | VBool x, VBool y => Bool.eqb x y
  | VBool x, VInt z | VInt z, VBool x => (z =? (if x then 1 else 0))
  | VInt x, VInt y => (x =? y)
  | VStr x, VStr y => String.eqb x y
  | _, _ => false
  end.

(** Truth value of a Python value ([if v:]). *)
Definition truthy (a : pyval) : bool :=
  match a with
  | VNone => false
  | VBool b => b
  | VInt z => negb (z =? 0)
  | VStr s => negb (String.eqb s EmptyString)
  end.

(** ** ValueWidget, Radio and Radio.Group *)

Module Value.

(** [ValueWidget] stands for the class itself and its subclasses other than
    [Radio] (TextInput, Decade, Checkbox); only [Radio] registers the
    [_onchange] handler. *)
Inductive wclass : Type := ValueWidget | Radio.

Record widget : Type := mkWidget {
  cls : wclass;
  _value : pyval;
  _group : option nat     (* Radio._group: a name in [groups], or None *)
}.

(** What leaves the module: events handed to [fire] and calls of [update]. *)
Inductive emitted : Type :=
  | WidgetValueEvent (source : nat) (new old : pyval)
  | GroupValueEvent (source : nat) (new old : option nat)
  | Update (w : nat).

(** The object store.  [groups !! g] is the list a [Radio.Group] is (the
    class inherits from [list]); [trace] is newest first. *)
Record world : Type := mkWorld {
  widgets : list widget;
  groups : list (list nat);
  trace : list emitted
}.

Definition emit (e : emitted) (st : world) : world :=
  mkWorld (widgets st) (groups st) (e :: trace st).

Definition store (w : nat) (o : widget) (st : world) : world :=
  mkWorld (<[w := o]> (widgets st)) (groups st) (trace st).

Definition value_of (st : world) (w : nat) : pyval :=
  match widgets st !! w with
  | Some o => _value o
  | None => VNone
  end.

(** [Radio.Group.selected]: the first member whose value is true. *)
Fixpoint selected (members : list nat) (st : world) : option nat :=
  match members with
  | [] => None
  | m :: rest => if truthy (value_of st m) then Some m else selected rest st
  end.

(** Modelled from the spec: [EventSource.fire] of the [event] module, which
    is not among the sources.  The event is handed to the registered
    handlers; the only handler the classes of [view.py] register for the
    ["value"] category is [Radio._onchange], filtered by [new = True], which
    runs [self.group.select(self)] when [self.group] is true (a group is a
    list, so an empty group is false).  Handlers bound by the application are
    opaque: the event is recorded in the trace. *)
Definition fire_value (select : nat -> nat -> world -> res world)
    (w : nat) (o : widget) (new old : pyval) (st : world) : res world :=
  let st1 := emit (WidgetValueEvent w new old) st in
  match cls o with
  | ValueWidget => Ok st1
  | Radio =>
      if py_eq new (VBool true) then
        match _group o with
        | None => Ok st1
        | Some g =>
            match groups st1 !! g with
            | None => Stuck
            | Some [] => Ok st1
            | Some (_ :: _) => select g w st1
            end
        end
      else Ok st1
  end.

(** [ValueWidget.value] setter, open in the group operation its event may
    reach. *)
Definition set_value_with (select : nat -> nat -> world -> res world)
    (w : nat) (v : pyval) (st : world) : res world :=
  match widgets st !! w with
  | None => Stuck
  | Some o =>
      if py_eq (_value o) v then Ok st
      else
        let old := _value o in
        let st1 := store w (mkWidget (cls o) v (_group o)) st in
        st2 ← fire_value select w o v old st1;
        Ok (emit (Update w) st2)
  end.

(** One step of the loop of [Radio.Group.select]. *)
Definition select_step (select : nat -> nat -> world -> res world)
    (radio : nat) (c : nat) (st : world) : res world :=
  if negb (c =? radio)%nat then set_value_with select c (VBool false) st
  else if negb (truthy (value_of st c)) then
         set_value_with select c (VBool true) st
  else Ok st.

(** [Radio.Group.select]. *)
Fixpoint select (fuel : nat) (g radio : nat) (st : world) : res world :=
  match fuel with
  | O => Stuck
  | S k =>
      match groups st !! g with
      | None => Stuck
      | Some members =>
          let old := selected members st in
          st' ← for_each members (select_step (select k) radio) st;
          let new := selected members st' in
          if decide (new = old) then Ok st'
          else Ok (emit (GroupValueEvent g new old) st')
      end
  end.

Definition set_value (fuel : nat) : nat -> pyval -> world -> res world :=
  set_value_with (select fuel).

(** Group events in a trace. *)
Definition is_group_event (g : nat) (e : emitted) : bool :=
  match e with
  | GroupValueEvent g' _ _ => (g' =? g)%nat
  | _ => false
  end.

(** What a run of [select] on the radio [r] may do to the store: the groups
    and the population stay, a value stays or turns False (for another
    widget) or True (for [r]), and no group hears of it. *)
Record settled (r : nat) (st st' : world) : Prop := {
  settled_groups : groups st' = groups st;
  settled_length : length (widgets st') = length (widgets st);
  settled_attrs : forall m o', widgets st' !! m = Some o' ->
      exists o, widgets st !! m = Some o /\ cls o' = cls o /\ _group o' = _group o;
  settled_value : forall m,
      value_of st' m = value_of st m
      \/ (m <> r /\ value_of st' m = VBool false)
      \/ (m = r /\ value_of st' m = VBool true);
  settled_trace : exists evs, trace st' = evs ++ trace st
      /\ Forall (fun e => forall g, is_group_event g e = false) evs
}.

End Value.

(** ** Canvases *)

(** Modelled from the spec: the [canvas] module is not among the sources.  A
    canvas is written as the constructor call that made it: [Canvas w h] for
    a surface of the host, [SubCanvas parent x y w h] for the call
    [canvas.SubCanvas(parent, x, y, w, h)].  The spec has a sub-canvas
    "positioned" and "size-clamped": its extent is the requested one cut to
    what the parent has left from the offset on, and never negative. *)
Inductive canvas : Type :=
  | Canvas (w h : Z)
  | SubCanvas (parent : canvas) (x y w h : Z).

Definition clamp (asked avail : Z) : Z := Z.max 0 (Z.min asked avail).

Fixpoint width (c : canvas) : Z :=
  match c with
  | Canvas w _ => w
  | SubCanvas p x _ w _ => clamp w (width p - x)
  end.

Fixpoint height (c : canvas) : Z :=
  match c with
  | Canvas _ h => h
  | SubCanvas p _ y _ h => clamp h (height p - y)
  end.

(** ** Python arithmetic and sequences *)

(** [round(a / b)] for integers [a] and [b > 0]: the nearest integer, a tie
    going to the even neighbour.  (The float quotient is exact enough for
    this as long as the operands stay below 2^52.) *)
Definition py_round_div (a b : Z) : Z :=
  let q := a / b in
  let r := a mod b in
  if 2 * r <? b then q
  else if b <? 2 * r then q + 1
  else if Z.even q then q else q + 1.

(** [max(...)] of a non-empty sequence of integers. *)
Definition py_max (l : list Z) : Z :=
  match l with
  | [] => 0
  | x :: r => fold_left Z.max r x
  end.

(** [sum(...)]. *)
Definition py_sum (l : list Z) : Z := fold_left Z.add l 0.

(** Python's index rule for [l[i]]: [-len <= i < len], negative indices
    counting from the end. *)
Definition py_index (len : nat) (i : Z) : option nat :=
  if (0 <=? i) && (i <? Z.of_nat len) then Some (Z.to_nat i)
  else if (- Z.of_nat len <=? i) && (i <? 0) then Some (Z.to_nat (Z.of_nat len + i))
  else None.

(** [l[i]], raising IndexError out of range. *)
Definition py_get {A : Type} (l : list A) (i : Z) : res A :=
  match py_index (length l) i with
  | Some n => match l !! n with Some a => Ok a | None => Raise IndexError end
  | None => Raise IndexError
  end.

(** [l[i] = a]. *)
Definition py_set {A : Type} (l : list A) (i : Z) (a : A) : res (list A) :=
  match py_index (length l) i with
  | Some n => Ok (<[n := a]> l)
  | None => Raise IndexError
  end.

(** A bound of a slice [l[start:stop]], brought into [0..len]. *)
Definition slice_bound (len : nat) (i : Z) : nat :=
  if i <? 0 then Z.to_nat (Z.max 0 (Z.of_nat len + i))
  else Z.to_nat (Z.min i (Z.of_nat len)).

(** [l[start:stop]]. *)
Definition py_slice {A : Type} (l : list A) (start stop : Z) : list A :=
  let a := slice_bound (length l) start in
  let b := slice_bound (length l) stop in
  take (b - a)%nat (drop a l).

(** ** The lines of a Console *)

(** A line of the console, character by character. *)
Definition line : Type := list Ascii.ascii.

(** [range(start, stop, step)] for a step other than 0, which is the only
    way the console calls it. *)
Fixpoint range_from (fuel : nat) (x stop step : Z) : list Z :=
  match fuel with
  | O => []
  | S k =>
      if (if step >? 0 then x <? stop else x >? stop)
      then x :: range_from k (x + step) stop step
      else []
  end.

Definition py_range (start stop step : Z) : list Z :=
  range_from (Z.to_nat (Z.abs (stop - start))) start stop step.

(** The body of the loop of [_update_splitlines] for one line on a canvas of
    width [w]: the rest of the division of the line by the width first,
    then the full chunks from the end of the line to its start. *)
Definition split_line (w : Z) (l : line) (_splitlines : list line)
    : res (list line) :=
  if w =? 0 then Raise ZeroDivisionError
  else
    let rem := Z.of_nat (length l) mod w in
    Ok (fold_left (fun out x => out ++ [py_slice l (x - w) x])
          (py_range (Z.of_nat (length l) - rem) 0 (- w))
          (_splitlines ++ [py_slice l (- rem) (Z.of_nat (length l))])).

(** [Console._update_splitlines] with [cv] for [self.canvas], which is read
    once for every line: without a canvas the first line raises
    AttributeError, and no line none. *)
Definition _update_splitlines (cv : option canvas) (_lines : list line)
    : res (list line) :=
  for_each _lines
    (fun l out =>
       match cv with
       | None => Raise AttributeError
       | Some c => split_line (width c) l out
       end) [].

(** ** The view tree *)

(** [Grid.Cell]; [child] names the view by its identity. *)
Record cell : Type := mkCell {
  child : nat;
  colspan : Z;
  rowspan : Z
}.

(** The attributes [Grid] adds to a container.  [_cws] and [_rhs] do not
    exist before the first [precalc]. *)
Record grid_data : Type := mkGrid {
  gwidth : Z;
  gheight : Z;
  grid : list (list (option cell));
  _cws : option (list Z);
  _rhs : option (list Z);
  _size : Z * Z
}.

(** The class of a view, with the attributes the class adds.  A leaf carries
    the value of its [size] property: [View (0, 0)] is the base class,
    [View] with another size stands for HLine and Spacer, [Widget] for Widget
    and the widgets derived from it that take [recalc] from [View] (Label,
    Button, TextInput, Decade, Checkbox and Radio), whose focus callbacks
    call [update].  [Console] is the one widget with a [recalc] of its own;
    it carries [minheight], the lines pushed to it, newest first, and
    [_splitlines]. *)
Inductive vclass : Type :=
  | View (size : Z * Z)
  | Widget (size : Z * Z)
  | ContainerView
  | Align (halign valign : Z)
  | Box (title : option string)
  | Vertical
  | Horizontal
  | Grid (g : grid_data)
  | Console (minheight : Z) (_lines _splitlines : list line).

(** A view object.  [vid] is its identity ([c != cf] compares identities);
    the parent of a view is the node that has it among its [children]. *)
#[warnings="-register-all"]
Inductive view : Type := mkView {
  vid : nat;
  vcls : vclass;
  zindex : Z;
  _focused : bool;
  _focusable : bool;
  _vstretch : bool;
  _hstretch : bool;
  display : bool;
  _dirty : bool;
  _canvas : option canvas;
  _shouldclear : bool;
  children : list view
}.

Definition HOR_LEFT : Z := 1.
Definition HOR_MID : Z := 2.
Definition HOR_RIGHT : Z := 3.
Definition VER_TOP : Z := 1.
Definition VER_MID : Z := 2.
Definition VER_BOT : Z := 3.

Definition with_children (cs : list view) (v : view) : view :=
  mkView (vid v) (vcls v) (zindex v) (_focused v) (_focusable v) (_vstretch v)
    (_hstretch v) (display v) (_dirty v) (_canvas v) (_shouldclear v) cs.

Definition with_canvas (cv : option canvas) (v : view) : view :=
  mkView (vid v) (vcls v) (zindex v) (_focused v) (_focusable v) (_vstretch v)
    (_hstretch v) (display v) (_dirty v) cv (_shouldclear v) (children v).

Definition with_cls (k : vclass) (v : view) : view :=
  mkView (vid v) k (zindex v) (_focused v) (_focusable v) (_vstretch v)
    (_hstretch v) (display v) (_dirty v) (_canvas v) (_shouldclear v) (children v).

Definition with_focused (f : bool) (v : view) : view :=
  mkView (vid v) (vcls v) (zindex v) f (_focusable v) (_vstretch v)
    (_hstretch v) (display v) (_dirty v) (_canvas v) (_shouldclear v) (children v).

Definition with_shouldclear (b : bool) (v : view) : view :=
  mkView (vid v) (vcls v) (zindex v) (_focused v) (_focusable v) (_vstretch v)
    (_hstretch v) (display v) (_dirty v) (_canvas v) b (children v).

Definition is_container (v : view) : bool :=
  match vcls v with
  | View _ | Widget _ | Console _ _ _ => false
  | _ => true
  end.

(** *** Derived properties *)

(** The [size] property. *)
Fixpoint size (v : view) : Z * Z :=
  let ws := map (fun c => fst (size c)) (children v) in
  let hs := map (fun c => snd (size c)) (children v) in
  match vcls v with
  | View s | Widget s => s
  | Console minheight _ _ => (1, minheight)
  | ContainerView | Align _ _ =>
      match children v with
      | [] => (0, 0)
      | _ => (py_max ws, py_max hs)
      end
  | Box title =>
      let '(w, h) := match children v with
                     | [] => (0, 0)
                     | _ => (py_max ws, py_max hs)
                     end in
      let w := w + 4 in
      let h := h + 2 in
      match title with
      | Some t => if (0 <? Z.of_nat (String.length t))%Z
                  then (Z.max w (Z.of_nat (String.length t) + 4), h)
                  else (w, h)
      | None => (w, h)
      end
  | Vertical =>
      match children v with
      | [] => (0, 0)
      | _ => (py_max ws, py_sum hs)
      end
  | Horizontal =>
      match children v with
      | [] => (0, 0)
      | _ => (py_sum ws, py_max hs)
      end
  | Grid g => _size g
  end.

(** The [vstretch] and [hstretch] properties. *)
Fixpoint vstretch (v : view) : bool :=
  if is_container v then existsb vstretch (children v) else _vstretch v.

Fixpoint hstretch (v : view) : bool :=
  if is_container v then existsb hstretch (children v) else _hstretch v.

(** The [focusable] property. *)
Fixpoint focusable (v : view) : bool :=
  if is_container v then existsb focusable (children v) else _focusable v.

(** The [dirty] property. *)
Fixpoint dirty (v : view) : bool :=
  if is_container v then _dirty v || existsb dirty (children v) else _dirty v.

(** The [dirty] setter.  A leaf calls [update] when the flag is set; the
    second component lists the views that did, in call order. *)
Fixpoint set_dirty (d : bool) (v : view) : view * list nat :=
  let rs := map (set_dirty d) (children v) in
  if is_container v then
    (mkView (vid v) (vcls v) (zindex v) (_focused v) (_focusable v)
       (_vstretch v) (_hstretch v) (display v) d (_canvas v) (_shouldclear v)
       (map fst rs),
     concat (map snd rs))
  else
    (mkView (vid v) (vcls v) (zindex v) (_focused v) (_focusable v)
       (_vstretch v) (_hstretch v) (display v) d (_canvas v) (_shouldclear v)
       (children v),
     if d then [vid v] else []).

(** The results of a sequence of calls, up to the first that raises. *)
Fixpoint collect {A : Type} (l : list (res A)) : res (list A) :=
  match l with
  | [] => Ok []
  | r :: l' => a ← r; rest ← collect l'; Ok (a :: rest)
  end.

(** *** Grid.precalc *)

(** [zip] of the unpacked rows: the columns of a table, as long as every row
    has one. *)
Fixpoint py_zip {A : Type} (n : nat) (rows : list (list A)) : list (list A) :=
  match n with
  | O => []
  | S k =>
      match mapM head rows with
      | Some hs => hs :: py_zip k (map tail rows)
      | None => []
      end
  end.

Definition columns {A : Type} (rows : list (list A)) : list (list A) :=
  match rows with
  | [] => []
  | r :: _ => py_zip (length r) rows
  end.

(** [tr[n] += d]. *)
Definition add_at (tr : list Z) (n : nat) (d : Z) : res (list Z) :=
  match tr !! n with
  | Some x => Ok (<[n := x + d]> tr)
  | None => Raise IndexError
  end.

(** [for oc in range(span): tot += tr[i + oc]]. *)
Definition tracks_total (tr : list Z) (i : nat) (span : Z) : res Z :=
  for_each (seq 0 (Z.to_nat span))
    (fun oc tot => match tr !! (i + oc)%nat with
                   | Some x => Ok (tot + x)
                   | None => Raise IndexError
                   end) 0.

(** [for oc in range(span): tr[i + oc] += spl; over -= spl]. *)
Definition grow_evenly (i : nat) (span spl : Z) (st : list Z * Z)
  : res (list Z * Z) :=
  for_each (seq 0 (Z.to_nat span))
    (fun oc '(tr, over) => tr' ← add_at tr (i + oc)%nat spl; Ok (tr', over - spl))
    st.

(** [for oc in range(span - 1, 0, -1): if over <= 0: break; tr[i + oc] += 1;
    over -= 1], the [ocs] being the values [oc] still to come. *)
Fixpoint grow_rest (ocs : list nat) (i : nat) (tr : list Z) (over : Z)
  : res (list Z) :=
  match ocs with
  | [] => Ok tr
  | oc :: ocs' =>
      if over <=? 0 then Ok tr
      else tr' ← add_at tr (i + oc)%nat 1; grow_rest ocs' i tr' (over - 1)
  end.

(** The body run for a cell of span [span] placed at track [i] whose child
    asks for [need]. *)
Definition grow_tracks (tr : list Z) (i : nat) (span need : Z)
  : res (list Z) :=
  tot ← tracks_total tr i span;
  if tot <? need then
    let over := need - tot in
    let spl := over / span in
    st ← grow_evenly i span spl (tr, over);
    grow_rest (rev (seq 1 (Z.to_nat span - 1))) i (fst st) (snd st)
  else Ok tr.

(** The size a cell's child reports, the child being one of the grid's
    children. *)
Definition child_size (cs : list view) (id : nat) : res (Z * Z) :=
  match find (fun c => (vid c =? id)%nat) cs with
  | Some c => Ok (size c)
  | None => Stuck
  end.

(** One of the two passes of [Grid.precalc]: [n] tracks, the table read
    track by track as [lines], a cell spanning [span_of] tracks and asking
    for [need_of]. *)
Definition size_tracks (n : Z) (lines : list (list (option cell)))
    (span_of : cell -> Z) (need_of : cell -> res Z) : res (list Z) :=
  for_each (map (fun k => Z.of_nat k) (seq 1 (Z.to_nat n)))
    (fun span tr =>
       for_each (imap (fun i line => (i, line)) lines)
         (fun '(i, line) tr =>
            for_each line
              (fun ch tr =>
                 match ch with
                 | None => Ok tr
                 | Some ch =>
                     if negb (span_of ch =? span) then Ok tr
                     else need ← need_of ch; grow_tracks tr i span need
                 end) tr) tr)
    (replicate (Z.to_nat n) 0).

Definition Grid_precalc (v : view) (g : grid_data) : res view :=
  cws ← size_tracks (gwidth g) (columns (grid g)) colspan
         (fun ch => sz ← child_size (children v) (child ch); Ok (fst sz));
  rhs ← size_tracks (gheight g) (grid g) rowspan
         (fun ch => sz ← child_size (children v) (child ch); Ok (snd sz));
  Ok (with_cls (Grid (mkGrid (gwidth g) (gheight g) (grid g) (Some cws)
                        (Some rhs) (py_sum cws, py_sum rhs))) v).

(** [precalc]. *)
Fixpoint precalc (v : view) : res view :=
  let rs := map precalc (children v) in
  match vcls v with
  | View _ | Widget _ | Console _ _ _ => Ok v
  | Grid g => Grid_precalc v g
  | _ => if dirty v then cs ← collect rs; Ok (with_children cs v) else Ok v
  end.

(** *** recalc and the canvas setter *)

(** A child together with its canvas setter: [snd k cv] is the child after
    [c.canvas = cv]. *)
Definition kid : Type := view * (option canvas -> res view).

(** [children.sort(key = lambda x: x.zindex)]: a stable sort. *)
Fixpoint insert_by_zindex (k : kid) (l : list kid) : list kid :=
  match l with
  | [] => [k]
  | k' :: l' =>
      if zindex (fst k) <=? zindex (fst k') then k :: k' :: l'
      else k' :: insert_by_zindex k l'
  end.

Definition sort_by_zindex (l : list kid) : list kid :=
  fold_right insert_by_zindex [] l.

(** [for c in self.children: c.canvas = cv]. *)
Definition assign_all (cv : option canvas) (kids : list kid)
  : res (list view) :=
  collect (map (fun k => snd k cv) kids).

(** [ContainerView.recalc]. *)
Definition ContainerView_recalc (cv : option canvas) (v : view)
    (kids : list kid) : res view :=
  if dirty v then
    cs ← assign_all cv (sort_by_zindex kids);
    Ok (fst (set_dirty false (with_shouldclear true (with_children cs v))))
  else Ok v.

(** [int(a / 2 - b / 2)]. *)
Definition int_half_diff (a b : Z) : Z := Z.quot (a - b) 2.

(** [Align.recalc]. *)
Definition Align_recalc (halign valign : Z) (cv : option canvas) (v : view)
    (kids : list kid) : res view :=
  match cv with
  | None => Raise AttributeError
  | Some c =>
      let sz := size v in
      let x := if halign =? HOR_LEFT then 0
               else if halign =? HOR_MID then int_half_diff (width c) (fst sz)
               else width c - fst sz in
      let y := if valign =? VER_TOP then 0
               else if valign =? VER_MID then int_half_diff (height c) (snd sz)
               else height c - snd sz in
      let subc := SubCanvas c x y (fst sz) (snd sz) in
      cs ← assign_all (Some subc) kids;
      Ok (with_children cs v)
  end.

(** [Box.recalc]. *)
Definition Box_recalc (cv : option canvas) (v : view) (kids : list kid)
  : res view :=
  match cv with
  | None => Raise AttributeError
  | Some c =>
      let subc := SubCanvas c 2 1 (width c - 4) (height c - 2) in
      cs ← assign_all (Some subc) kids;
      Ok (with_children cs v)
  end.

(** The number of true flags, [sum(c.vstretch for c in self.children)]. *)
Definition count_true (l : list bool) : Z :=
  py_sum (map (fun b : bool => if b then 1 else 0) l).

(** The loop shared by [Vertical.recalc] and [Horizontal.recalc].  [extent]
    is the child's minimum size on the stacking axis, [stretch] its stretch
    flag on that axis, [sub pos ext] the sub-canvas placed at offset [pos]
    with extent [ext]; [rem] is [remh] (or [remw]) and [pos] is [h] (or
    [w]). *)
Fixpoint stack_loop (extent : view -> Z) (stretch : view -> bool)
    (sub : Z -> Z -> canvas) (perc : Z) (kids : list kid) (rem pos : Z)
  : res (list view) :=
  match kids with
  | [] => Ok []
  | (c, assign) :: kids' =>
      let ch := extent c in
      if ch =? 0 then
        rest ← stack_loop extent stretch sub perc kids' rem pos;
        Ok (c :: rest)
      else
        let grant := if rem >? perc then perc else rem in
        let rem' := if stretch c then rem - grant else rem in
        let ch' := if stretch c then grant + extent c else ch in
        c' ← assign (Some (sub pos ch'));
        rest ← stack_loop extent stretch sub perc kids' rem' (pos + ch');
        Ok (c' :: rest)
  end.

(** The share [perc] of every stretching child. *)
Definition share (rem anyc : Z) : Z :=
  if anyc =? 0 then 0 else py_round_div rem anyc.

(** [Vertical.recalc]. *)
Definition Vertical_recalc (cv : option canvas) (v : view) (kids : list kid)
  : res view :=
  let anyc := count_true (map vstretch (children v)) in
  match cv with
  | None => Raise AttributeError
  | Some c =>
      let remh := height c - py_sum (map (fun x => snd (size x)) (children v)) in
      let perc := share remh anyc in
      cs ← stack_loop (fun x => snd (size x)) vstretch
             (fun h ch => SubCanvas c 0 h (width c) ch) perc kids remh 0;
      Ok (with_children cs v)
  end.

(** [Horizontal.recalc]. *)
Definition Horizontal_recalc (cv : option canvas) (v : view) (kids : list kid)
  : res view :=
  let anyc := count_true (map hstretch (children v)) in
  match cv with
  | None => Raise AttributeError
  | Some c =>
      let remw := width c - py_sum (map (fun x => fst (size x)) (children v)) in
      let perc := share remw anyc in
      cs ← stack_loop (fun x => fst (size x)) hstretch
             (fun w cw => SubCanvas c w 0 cw (height c)) perc kids remw 0;
      Ok (with_children cs v)
  end.

(** *** Grid.recalc *)

(** The children of a grid while the sub-canvases are handed out: a child
    whose setter is already spent has been given its canvas. *)
Definition pending : Type := view * option (option canvas -> res view).

(** [c.child.canvas = cv] for the child named [id].  Every child sits in at
    most one cell of the tree model: a second assignment is [Stuck]. *)
Fixpoint assign_child (id : nat) (cv : option canvas) (ks : list pending)
  : res (list pending) :=
  match ks with
  | [] => Stuck
  | (c, f) :: ks' =>
      if (vid c =? id)%nat then
        match f with
        | Some f => c' ← f cv; Ok ((c', None) :: ks')
        | None => Stuck
        end
      else ks'' ← assign_child id cv ks'; Ok ((c, f) :: ks'')
  end.

(** An attribute that [precalc] creates. *)
Definition attr {A : Type} (o : option A) : res A :=
  match o with
  | Some a => Ok a
  | None => Raise AttributeError
  end.

(** The body of the inner loop of [Grid.recalc], for the cell [c] at column
    [ci] of row [ri]; the state is the children and [atx]. *)
Definition Grid_recalc_cell (cv : option canvas) (g : grid_data)
    (cs : list view) (ri : nat) (aty : Z) (ci : nat) (c : option cell)
    (st : list pending * Z) : res (list pending * Z) :=
  let '(ks, atx) := st in
  ks' ← match c with
        | None => Ok ks
        | Some c =>
            cws ← attr (_cws g);
            let w := py_sum (py_slice cws (Z.of_nat ci) (Z.of_nat ci + colspan c)) in
            rhs ← attr (_rhs g);
            let h := py_sum (py_slice rhs (Z.of_nat ri) (Z.of_nat ri + rowspan c)) in
            sz ← child_size cs (child c);
            if (fst sz <=? w) && (snd sz <=? h) then
              match cv with
              | None => Raise AttributeError
              | Some p => assign_child (child c) (Some (SubCanvas p atx aty w h)) ks
              end
            else Raise AssertionError
        end;
  cws ← attr (_cws g);
  match cws !! ci with
  | Some x => Ok (ks', atx + x)
  | None => Raise IndexError
  end.

(** The body of the outer loop, for row [ri]; the state is the children and
    [aty]. *)
Definition Grid_recalc_row (cv : option canvas) (g : grid_data)
    (cs : list view) (ri : nat) (row : list (option cell))
    (st : list pending * Z) : res (list pending * Z) :=
  let '(ks, aty) := st in
  st' ← for_each (imap (fun ci c => (ci, c)) row)
          (fun '(ci, c) => Grid_recalc_cell cv g cs ri aty ci c) (ks, 0);
  rhs ← attr (_rhs g);
  match rhs !! ri with
  | Some x => Ok (fst st', aty + x)
  | None => Raise IndexError
  end.

(** [Grid.recalc]. *)
Definition Grid_recalc (g : grid_data) (cv : option canvas) (v : view)
    (kids : list kid) : res view :=
  st ← for_each (imap (fun ri row => (ri, row)) (grid g))
         (fun '(ri, row) => Grid_recalc_row cv g (children v) ri row)
         (map (fun k : kid => (fst k, Some (snd k))) kids, 0);
  Ok (with_children (map fst (fst st)) v).

(** The [canvas] setter: [self._canvas = cv; self.recalc()], the method
    being that of the view's class. *)
Fixpoint assign_canvas (cv : option canvas) (v : view) {struct v}
  : res view :=
  let kids := map (fun c => (c, fun cv' => assign_canvas cv' c)) (children v) in
  let v1 := with_canvas cv v in
  match vcls v with
  | View _ | Widget _ => Ok v1
  | Console minheight ls _ =>
      sp ← _update_splitlines cv ls;
      Ok (with_cls (Console minheight ls sp) v1)
  | ContainerView => ContainerView_recalc cv v1 kids
  | Align ha va => Align_recalc ha va cv v1 kids
  | Box _ => Box_recalc cv v1 kids
  | Vertical => Vertical_recalc cv v1 kids
  | Horizontal => Horizontal_recalc cv v1 kids
  | Grid g => Grid_recalc g cv v1 kids
  end.

(** [recalc], on the canvas the view has. *)
Definition recalc (v : view) : res view := assign_canvas (_canvas v) v.

(** ** Focus and tree mutation *)

(** The callbacks of the focus protocol and the calls of [update], as a view
    makes them. *)
Inductive call : Type :=
  | OnFocus (v : nat)
  | OnUnfocus (v : nat)
  | OnChildFocused (parent c : nat)
  | CallUpdate (v : nat).

(** A tree of views seen from its root, and the calls made so far (newest
    first). *)
Record scene : Type := mkScene {
  root : view;
  calls : list call
}.

(** A stateful operation: it returns the new state, or raises and leaves the
    state it had reached. *)
Abbreviation op := (result (exn * scene) scene).

Definition called (c : call) (s : scene) : scene :=
  mkScene (root s) (c :: calls s).

(** The view named [id] in the tree below [v]. *)
Fixpoint find_view (id : nat) (v : view) : option view :=
  if (vid v =? id)%nat then Some v
  else (fix among (cs : list view) : option view :=
          match cs with
          | [] => None
          | c :: cs' =>
              match find_view id c with
              | Some x => Some x
              | None => among cs'
              end
          end) (children v).

(** [self.parent] of the view named [id]. *)
Fixpoint parent_of (id : nat) (v : view) : option nat :=
  if existsb (fun c => (vid c =? id)%nat) (children v) then Some (vid v)
  else (fix among (cs : list view) : option nat :=
          match cs with
          | [] => None
          | c :: cs' =>
              match parent_of id c with
              | Some p => Some p
              | None => among cs'
              end
          end) (children v).

(** An assignment to attributes of the view named [id]. *)
Fixpoint modify (id : nat) (f : view -> view) (v : view) : view :=
  if (vid v =? id)%nat then f v
  else with_children (map (modify id f) (children v)) v.

Definition modify_scene (id : nat) (f : view -> view) (s : scene) : scene :=
  mkScene (modify id f (root s)) (calls s).

(** [Grid.onfocus] looks for the first cell, row by row, whose child is
    focusable and displayed. *)
Definition Grid_focus_target (g : grid_data) (rt : view) : res (option nat) :=
  for_each
    (flat_map (fun y => map (fun x => (Z.of_nat x, Z.of_nat y))
                          (seq 0 (Z.to_nat (gwidth g))))
              (seq 0 (Z.to_nat (gheight g))))
    (fun '(x, y) found =>
       match found with
       | Some _ => Ok found
       | None =>
           row ← py_get (grid g) y;
           c ← py_get row x;
           match c with
           | None => Ok None
           | Some c =>
               match find_view (child c) rt with
               | None => Stuck
               | Some ch =>
                   if focusable ch && display ch then Ok (Some (child c))
                   else Ok None
               end
           end
       end) None.

Definition lift {A : Type} (s : scene) (r : res A) : result (exn * scene) A :=
  match r with
  | Ok a => Ok a
  | Raise e => Raise (e, s)
  | Stuck => Stuck
  end.

(** The [focused] setter and the callbacks it reaches, each by the method of
    the view's class. *)
Fixpoint set_focused (fuel : nat) (id : nat) (f : bool) (s : scene) : op :=
  match fuel with
  | O => Stuck
  | S k =>
      match find_view id (root s) with
      | None => Stuck
      | Some v =>
          if Bool.eqb (_focused v) f then Ok s
          else if f && negb (focusable v) then Raise (NotImplementedError, s)
          else
            let s1 := modify_scene id (with_focused f) s in
            if f then
              s2 ← onfocus k id s1;
              match parent_of id (root s2) with
              | Some p => onchildfocused k p id s2
              | None => Ok s2
              end
            else onunfocus k id s1
      end
  end

with onfocus (fuel : nat) (id : nat) (s : scene) : op :=
  match fuel with
  | O => Stuck
  | S k =>
      match find_view id (root s) with
      | None => Stuck
      | Some v =>
          let s1 := called (OnFocus id) s in
          match vcls v with
          | View _ => Ok s1
          | Widget _ | Console _ _ _ => Ok (called (CallUpdate id) s1)
          | Grid g =>
              if existsb _focused (children v) then Ok s1
              else
                t ← lift s1 (Grid_focus_target g (root s1));
                match t with
                | Some c => set_focused k c true s1
                | None => Ok s1
                end
          | _ =>
              for_each (map vid (children v))
                (fun c s' =>
                   match find_view c (root s') with
                   | None => Stuck
                   | Some cv =>
                       if focusable cv && display cv
                       then set_focused k c true s'
                       else Ok s'
                   end) s1
          end
      end
  end

with onunfocus (fuel : nat) (id : nat) (s : scene) : op :=
  match fuel with
  | O => Stuck
  | S k =>
      match find_view id (root s) with
      | None => Stuck
      | Some v =>
          let s1 := called (OnUnfocus id) s in
          match vcls v with
          | View _ => Ok s1
          | Widget _ | Console _ _ _ => Ok (called (CallUpdate id) s1)
          | _ =>
              for_each (map vid (children v))
                (fun c s' => set_focused k c false s') s1
          end
      end
  end

with onchildfocused (fuel : nat) (id cf : nat) (s : scene) : op :=
  match fuel with
  | O => Stuck
  | S k =>
      match find_view id (root s) with
      | None => Stuck
      | Some v =>
          let s1 := called (OnChildFocused id cf) s in
          if is_container v then
            s2 ← for_each (map vid (children v))
                   (fun c s' =>
                      match find_view c (root s') with
                      | None => Stuck
                      | Some cv =>
                          if _focused cv && negb (c =? cf)%nat
                          then set_focused k c false s'
                          else Ok s'
                      end) s1;
            let s3 := modify_scene id (with_focused true) s2 in
            match parent_of id (root s3) with
            | Some p => onchildfocused k p id s3
            | None => Ok s3
            end
          else Ok s1
      end
  end.

(** [self.dirty = True] in a container method: the setter runs on the view
    named [id] and the [update] calls of its leaves are recorded. *)
Definition mark_dirty (id : nat) (s : scene) : scene :=
  match find_view id (root s) with
  | None => s
  | Some v =>
      let r := set_dirty true v in
      mkScene (modify id (fun _ => fst r) (root s))
              (rev (map CallUpdate (snd r)) ++ calls s)
  end.

(** [ContainerView.add_child]; [c] is a view that is not in the tree yet. *)
Definition add_child (id : nat) (c : view) (s : scene) : op :=
  match find_view id (root s) with
  | None => Stuck
  | Some v =>
      if is_container v then
        let s1 := modify_scene id (fun v => with_children (children v ++ [c]) v) s in
        Ok (mark_dirty id s1)
      else Raise (AttributeError, s)
  end.

(** [self.children.remove(c)]: the first occurrence goes. *)
Fixpoint list_remove (c : nat) (cs : list view) : option (list view) :=
  match cs with
  | [] => None
  | x :: cs' =>
      if (vid x =? c)%nat then Some cs'
      else cs'' ← list_remove c cs'; Some (x :: cs'')
  end.

(** [ContainerView.remove_child] of one of the children of [id].  The
    source clears [c.parent] before anything else; here the parent of a view
    is read off the tree, so that is covered when [c] leaves the list of
    children.  When [c] is not in the list, [list.remove] raises ValueError
    with [c.parent] already cleared while [c] is still listed by the
    container that held it, a state a tree cannot show: the model stops
    there and says nothing about that call. *)
Definition remove_child (fuel : nat) (id c : nat) (s : scene) : op :=
  match find_view c (root s) with
  | None => Stuck
  | Some cv =>
      let f := _focused cv in
      s1 ← set_focused fuel c false s;
      match find_view id (root s1) with
      | None => Stuck
      | Some v =>
          match list_remove c (children v) with
          | None => Stuck
          | Some cs =>
              let s2 := modify_scene id (with_children cs) s1 in
              s3 ← (if f then onfocus fuel id s2 else Ok s2);
              Ok (mark_dirty id s3)
          end
      end
  end.

(** [Grid.set]. *)
Definition Grid_set (fuel : nat) (id : nat) (x y : Z) (c : view)
    (colspan rowspan : Z) (s : scene) : op :=
  match find_view id (root s) with
  | None => Stuck
  | Some v =>
      match vcls v with
      | Grid g =>
          row ← lift s (py_get (grid g) y);
          old ← lift s (py_get row x);
          s1 ← match old with
               | Some o => remove_child fuel id (child o) s
               | None => Ok s
               end;
          row' ← lift s1 (py_set row x (Some (mkCell (vid c) colspan rowspan)));
          rows' ← lift s1 (py_set (grid g) y row');
          let g' := mkGrid (gwidth g) (gheight g) rows' (_cws g) (_rhs g)
                      (_size g) in
          add_child id c (modify_scene id (with_cls (Grid g')) s1)
      | _ => Raise (AttributeError, s)
      end
  end.

(** [Grid(width, height)], a fresh grid with identity [id]; the attributes
    are those [View.__init__] and [ContainerView.__init__] assign. *)
Definition new_Grid (id : nat) (w h : Z) : view :=
  mkView id
    (Grid (mkGrid w h (replicate (Z.to_nat h) (replicate (Z.to_nat w) None))
             None None (0, 0)))
    0 false true true true true true None true [].

(** [Spacer(width, height, hstretch, vstretch)] with identity [id]. *)
Definition Spacer (id : nat) (w h : Z) (hs vs : bool) : view :=
  mkView id (View (w, h)) 0 false false vs hs true true None false [].

(** A fresh [ContainerView], [Vertical] or [Horizontal] holding [cs]. *)
Definition new_container (id : nat) (k : vclass) (cs : list view) : view :=
  mkView id k 0 false true true true true true None true cs.

(** ** Scenes used to settle the claims *)

(** A focusable, displayed button-like widget. *)
Definition button (id : nat) : view :=
  mkView id (Widget (10, 1)) 0 false true false true true true None false [].

(** A [ContainerView] with two such widgets. *)
Definition two_buttons : scene :=
  mkScene (new_container 0 ContainerView [button 1; button 2]) [].

(** A [ContainerView] with a spacer (not focusable) and a widget. *)
Definition spacer_and_button : scene :=
  mkScene (new_container 0 ContainerView
             [Spacer 1 1 1 false false; button 2]) [].

(** An empty [Grid(2, 2)]. *)
Definition empty_grid : scene := mkScene (new_Grid 0 2 2) [].

(** A [Grid(2, 1)] with a widget in each of its two cells. *)
Definition two_buttons_grid : scene :=
  mkScene
    (mkView 0
       (Grid (mkGrid 2 1 [[Some (mkCell 1 1 1); Some (mkCell 2 1 1)]] None None
                (0, 0)))
       0 false true true true true true None true [button 1; button 2]) [].

(** A group of three radios, the second one selected. *)
Definition three_radios : Value.world :=
  Value.mkWorld [Value.mkWidget Value.Radio (VBool false) (Some 0%nat);
           Value.mkWidget Value.Radio (VBool true) (Some 0%nat);
           Value.mkWidget Value.Radio (VBool false) (Some 0%nat)]
          [[0; 1; 2]%nat] [].

(** The table of a grid has the shape [Grid.__init__] gives it. *)
Definition grid_shape (g : grid_data) : Prop :=
  length (grid g) = Z.to_nat (gheight g)
  /\ Forall (fun row => length row = Z.to_nat (gwidth g)) (grid g).

(** The split of a shortfall as the spec words it, to be compared with
    [grow_tracks]: a cell placed at track [i] and spanning [span] tracks
    that is [over] short gives every spanned track the floor of
    [over / span], and one more unit to each of the last [over mod span]
    spanned tracks. *)
Definition spanned_gain (i : nat) (span over : Z) (j : nat) : Z :=
  if (Z.of_nat i <=? Z.of_nat j) && (Z.of_nat j <? Z.of_nat i + span) then
    over / span
    + (if Z.of_nat i + span - over mod span <=? Z.of_nat j then 1 else 0)
  else 0.

(** [Grid(2, 2)] holding one cell at (0, 0) with [colspan = 2], whose child
    asks for a width of 10. *)
Definition spanning_grid : view :=
  mkView 0
    (Grid (mkGrid 2 2 [[Some (mkCell 7 2 1); None]; [None; None]] None None
             (0, 0)))
    0 false true true true true true None true [Spacer 7 10 1 false false].

(** ** Measures used to state the layout claims *)

(** The extent a canvas was asked to have on either axis: the argument of
    the constructor call, before the canvas module clamps it. *)
Definition asked_width (c : canvas) : Z :=
  match c with
  | Canvas w _ => w
  | SubCanvas _ _ _ w _ => w
  end.

Definition asked_height (c : canvas) : Z :=
  match c with
  | Canvas _ h => h
  | SubCanvas _ _ _ _ h => h
  end.

(** The children the loop of [Vertical.recalc] or [Horizontal.recalc] lets
    stretch: the flag is set and the minimum extent is not 0. *)
Definition stretches (extent : view -> Z) (stretch : view -> bool) (c : view)
  : bool :=
  stretch c && negb (extent c =? 0).

(** The extra extent granted to the child [c], which is [c'] after the
    layout pass: what its canvas was asked to span beyond the minimum
    extent. *)
Definition granted (extent : view -> Z) (stretch : view -> bool)
    (asked : canvas -> Z) (c c' : view) : Z :=
  if stretches extent stretch c then
    match _canvas c' with
    | Some k => asked k - extent c
    | None => 0
    end
  else 0.

Fixpoint total_granted (extent : view -> Z) (stretch : view -> bool)
    (asked : canvas -> Z) (cs cs' : list view) : Z :=
  match cs, cs' with
  | c :: r, c' :: r' =>
      granted extent stretch asked c c' + total_granted extent stretch asked r r'
  | _, _ => 0
  end.

(** The remaining budget [remh] and [remw] of a stack on a canvas. *)
Definition remaining_height (cv : canvas) (v : view) : Z :=
  height cv - py_sum (map (fun x => snd (size x)) (children v)).

Definition remaining_width (cv : canvas) (v : view) : Z :=
  width cv - py_sum (map (fun x => fst (size x)) (children v)).

(** A [Vertical] on a canvas of height 4 with three stretching children of
    minimum height 1 each. *)
Definition three_stretchers : view :=
  mkView 0 Vertical 0 false true true true true true (Some (Canvas 80 4)) true
    [Spacer 1 1 1 false true; Spacer 2 1 1 false true; Spacer 3 1 1 false true].

(** The same children side by side in a [Horizontal] on a canvas of width
    4, stretching horizontally. *)
Definition three_stretchers_h : view :=
  mkView 0 Horizontal 0 false true true true true true (Some (Canvas 4 24)) true
    [Spacer 1 1 1 true false; Spacer 2 1 1 true false; Spacer 3 1 1 true false].

(** Scenario A: a [Vertical] on a canvas of height 10 with children of
    minimum heights 2, 0 and 3, the middle one stretching. *)
Definition scenario_A : view :=
  mkView 0 Vertical 0 false true true true true true (Some (Canvas 80 10)) true
    [Spacer 1 1 2 false false; Spacer 2 1 0 false true; Spacer 3 1 3 false false].

(** A dirty [ContainerView] on a canvas with a stack and a widget. *)
Definition dirty_container : view :=
  mkView 0 ContainerView 0 false true true true true true
    (Some (Canvas 80 24)) true
    [mkView 4 Vertical 1 false true true true true true None true
       [Spacer 5 1 1 false true; button 6];
     button 7].

(** What one pass distributes, for a budget [R], [N] children with the
    stretch flag and [M] of them with a minimum extent other than 0: the
    grants add up to the smaller of [R] and [M] shares, which is never more
    than [R] and is [R] as soon as [M] shares cover it. *)
Definition distributes (R N M total : Z) : Prop :=
  total = Z.min R (M * share R N)
  /\ total <= R
  /\ (R <= M * share R N -> total = R).

(** A [Vertical] on a canvas of height 5 with two stretching children of
    minimum height 1, and the same after its layout pass. *)
Definition two_stretchers : view :=
  mkView 0 Vertical 0 false true true true true true (Some (Canvas 80 5)) true
    [Spacer 1 1 1 false true; Spacer 2 1 1 false true].

Definition two_stretchers_laid_out : view :=
  with_children
    [with_canvas (Some (SubCanvas (Canvas 80 5) 0 0 80 3)) (Spacer 1 1 1 false true);
     with_canvas (Some (SubCanvas (Canvas 80 5) 0 3 80 2)) (Spacer 2 1 1 false true)]
    two_stretchers.

(** Neither a Grid nor a Console that holds a line in the tree below (and
    including) [v].  [Grid.recalc] can raise on a canvas (an allocation
    missing or too small, a failed assertion) and [Console.recalc] divides
    by the width of its canvas once for every line it holds; the other
    [recalc]s return once they have a canvas. *)
Fixpoint plain (v : view) : bool :=
  match vcls v with
  | Grid _ => false
  | Console _ ls _ => match ls with [] => true | _ :: _ => false end
  | _ => forallb plain (children v)
  end.

(** The layout variants: the containers with a [recalc] of their own. *)
Definition is_layout (v : view) : bool :=
  match vcls v with
  | Align _ _ | Box _ | Vertical | Horizontal | Grid _ => true
  | _ => false
  end.

(** The classes that take [recalc] from [View], where it does nothing. *)
Definition inherits_recalc (v : view) : bool :=
  match vcls v with
  | View _ | Widget _ => true
  | _ => false
  end.

(** The setter of every child hands back the child with the canvas it was
    given. *)
Definition setters_ok (kids : list kid) : Prop :=
  Forall (fun k : kid => forall cv c', snd k cv = Ok c' -> _canvas c' = cv) kids.

(** The setter of every child returns when it is given a canvas. *)
Definition setters_return (kids : list kid) : Prop :=
  Forall (fun k : kid => forall cv, exists c', snd k (Some cv) = Ok c') kids.

(** ** Measures used to state further properties of the grid *)

(** The total of the [n] tracks from track [i] on (a track that does not
    exist counts 0). *)
Fixpoint seg_sum (tr : list Z) (i n : nat) : Z :=
  match n with
  | O => 0
  | S k => default 0 (tr !! i) + seg_sum tr (S i) k
  end.

(** The total of [g] over the [n] indices from [i] on. *)
Fixpoint gsum (g : nat -> Z) (i n : nat) : Z :=
  match n with
  | O => 0
  | S k => g i + gsum g (S i) k
  end.

(** Track by track, [tr'] allots at least what [tr] allots. *)
Definition grown (tr tr' : list Z) : Prop := Forall2 Z.le tr tr'.

(** A cell that the pass over [n] tracks handles (its span is one of
    [1 .. n]) ends within the table when it starts at track [i]. *)
Definition placed (n : Z) (span : Z) (i : nat) : Prop :=
  1 <= span <= n -> Z.of_nat i + span <= n.

(** The allocation [tr] covers the cell: the tracks it spans from track [i]
    on add up to at least [need]. *)
Definition covers (tr : list Z) (i : nat) (span need : Z) : Prop :=
  exists tot, tracks_total tr i span = Ok tot /\ need <= tot.

(** What the spec says of one cell, on a whole allocation: when the [span]
    tracks from track [i] on add up to less than [need], every track gains
    what [spanned_gain] says of the shortfall; otherwise the allocation
    stays as it is. *)
Definition spec_split (tr : list Z) (i : nat) (span need : Z) : list Z :=
  let tot := seg_sum tr i (Z.to_nat span) in
  if tot <? need
  then imap (fun j x => x + spanned_gain i span (need - tot) j) tr
  else tr.

(** The minimum width of the child of a cell ([0] when the grid has no such
    child). *)
Definition cell_width (v : view) (ch : cell) : Z :=
  match child_size (children v) (child ch) with
  | Ok sz => fst sz
  | _ => 0
  end.

(** The column widths as the spec words the sizing, to be compared with
    [precalc]: all widths start at 0; then for each span count from 1
    upward, for every placed cell whose colspan equals that count - the
    cell at [grid[y][x]], column by column and down each column - the
    shortfall of the cell is split over the columns it spans. *)
Definition spec_column_widths (w : Z) (rows : list (list (option cell)))
    (need : cell -> Z) : list Z :=
  fold_left
    (fun tr span =>
       fold_left
         (fun tr x =>
            fold_left
              (fun tr row =>
                 match row !! x with
                 | Some (Some ch) =>
                     if colspan ch =? span then spec_split tr x span (need ch)
                     else tr
                 | _ => tr
                 end) rows tr)
         (seq 0 (Z.to_nat w)) tr)
    (map Z.of_nat (seq 1 (Z.to_nat w)))
    (replicate (Z.to_nat w) 0).

(** [Grid(3, 2)] with a cell at (1, 0) with [colspan = 2] whose child asks
    for a width of 7, and a cell at (2, 1) whose child asks for a width of
    2. *)
Definition offset_grid : view :=
  mkView 0
    (Grid (mkGrid 3 2 [[None; Some (mkCell 7 2 1); None];
                       [None; None; Some (mkCell 8 1 1)]] None None (0, 0)))
    0 false true true true true true None true
    [Spacer 7 7 1 false false; Spacer 8 2 1 false false].
(** The first view named [id] in the trees below the views [cs], which is
    how [find_view] goes through the children of a view. *)
Fixpoint find_among (id : nat) (cs : list view) : option view :=
  match cs with
  | [] => None
  | c :: cs' =>
      match find_view id c with
      | Some x => Some x
      | None => find_among id cs'
      end
  end.

(** The views of a tree, the root first: a view and, under a container, the
    views of its children's trees. *)
Fixpoint below (v : view) : list view :=
  v :: (if is_container v then flat_map below (children v) else []).

(** ** Measures used to state further properties of the layout *)

(** The children [cs] of a stack, which are [cs'] after the pass, lie back
    to back from offset [pos] on and end at offset [e]: a child of extent 0
    is left as it was; every other child has the sub-canvas that starts
    where the one before it ended, of at least the child's own extent, and
    of exactly that extent when the child does not stretch. *)
Fixpoint laid (sub : Z -> Z -> canvas) (extent : view -> Z)
    (stretch : view -> bool) (pos : Z) (cs cs' : list view) (e : Z) : Prop :=
  match cs, cs' with
  | [], [] => e = pos
  | c :: r, c' :: r' =>
      if extent c =? 0 then c' = c /\ laid sub extent stretch pos r r' e
      else exists ext,
             _canvas c' = Some (sub pos ext)
             /\ extent c <= ext
             /\ (stretch c = false -> ext = extent c)
             /\ laid sub extent stretch (pos + ext) r r' e
  | _, _ => False
  end.

(** The children with z-index [z], by identity and in order. *)
Definition layer (z : Z) (cs : list view) : list nat :=
  map vid (List.filter (fun c => zindex c =? z) cs).

(** An [Align(HOR_MID, VER_BOT)] on a canvas of 80 by 24 around a label of
    five characters. *)
Definition centred_label : view :=
  mkView 0 (Align HOR_MID VER_BOT) 0 false true true true true true
    (Some (Canvas 80 24)) true
    [mkView 1 (Widget (5, 1)) 0 false false false true true true None false []].

(** A list of z-indices in ascending order. *)
Fixpoint ascending (l : list Z) : Prop :=
  match l with
  | [] => True
  | x :: r => Forall (Z.le x) r /\ ascending r
  end.

(** A dirty [ContainerView] whose four children have the z-indices 1, 0, 1
    and 0. *)
Definition three_layers : view :=
  mkView 0 ContainerView 0 false true true true true true
    (Some (Canvas 80 24)) true
    [mkView 1 (Widget (5, 1)) 1 false true false true true true None false [];
     mkView 2 (Widget (5, 1)) 0 false true false true true true None false [];
     mkView 3 (Widget (5, 1)) 1 false true false true true true None false [];
     mkView 4 (Widget (5, 1)) 0 false true false true true true None false []].


(** A [Box] without title on a canvas of 20 by 5 around a label of five
    characters. *)
Definition boxed_label : view :=
  mkView 0 (Box None) 0 false true true true true true
    (Some (Canvas 20 5)) true
    [mkView 1 (Widget (5, 1)) 0 false false false true true true None false []].
(** ** Handlers of Checkbox and Radio, and the group of a Radio *)

Module Handlers.
Import Value.

(** [Radio._set], the handler of a click and of the keys space and return:
    [self.value = True]. *)
Definition Radio_set (fuel : nat) (r : nat) (st : world) : res world :=
  set_value fuel r (VBool true) st.

(** [Checkbox._change], the handler of the same events on a checkbox:
    [self.value = not self.value]. *)
Definition Checkbox_change (fuel : nat) (w : nat) (st : world) : res world :=
  match widgets st !! w with
  | None => Stuck
  | Some o => set_value fuel w (VBool (negb (truthy (_value o)))) st
  end.

(** [list.remove(x)] on a list of names: the first occurrence goes, and the
    call raises ValueError when there is none. *)
Fixpoint list_remove_name (x : nat) (l : list nat) : res (list nat) :=
  match l with
  | [] => Raise ValueError
  | y :: l' =>
      if (y =? x)%nat then Ok l'
      else l'' ← list_remove_name x l'; Ok (y :: l'')
  end.

Definition with_members (g : nat) (l : list nat) (st : world) : world :=
  mkWorld (widgets st) (<[g := l]> (groups st)) (trace st).

(** The setter of [Radio.group]; [gr] names a group or is None.  On a
    widget of another class the assignment makes a plain attribute, which
    the store does not hold. *)
Definition set_group (r : nat) (gr : option nat) (st : world) : res world :=
  match widgets st !! r with
  | None => Stuck
  | Some o =>
      match cls o with
      | ValueWidget => Ok st
      | Radio =>
          st1 ← match _group o with
                | None => Ok st
                | Some g =>
                    match groups st !! g with
                    | None => Stuck
                    | Some l =>
                        l' ← list_remove_name r l; Ok (with_members g l' st)
                    end
                end;
          let st2 := store r (mkWidget (cls o) (_value o) gr) st1 in
          match gr with
          | None => Ok st2
          | Some g =>
              match groups st2 !! g with
              | None => Stuck
              | Some l => Ok (with_members g (l ++ [r]) st2)
              end
          end
      end
  end.

(** Radios and groups agree: the members of a group are, each once, the
    radios whose [_group] is that group. *)
Definition consistent (st : world) : Prop :=
  (forall g l, groups st !! g = Some l ->
     NoDup l
     /\ forall r, r ∈ l <->
          exists o, widgets st !! r = Some o /\ _group o = Some g)
  /\ (forall r o g, widgets st !! r = Some o -> _group o = Some g ->
        is_Some (groups st !! g)).

(** The members of group [g] once the radio [r] has been given the group
    [gr]: [r] leaves the list, and joins it at the end when [gr] is [g]. *)
Definition regrouped (r : nat) (gr : option nat) (g : nat) (l : list nat)
    : list nat :=
  List.filter (fun m => negb (m =? r)%nat) l
  ++ (if decide (gr = Some g) then [r] else []).

End Handlers.

(** ** TextInput *)

Module TextInput.
Import Value.

(** What a [TextInput] holds beside its value: the name [self] under which
    the store of [Value] keeps the value, and the attributes [length],
    [_cursor] and [_offset]. *)
Record attrs : Type := mkAttrs {
  self : nat;
  length : Z;
  _cursor : Z;
  _offset : Z
}.

Definition state : Type := attrs * world.

(** [len(s)] and [s[start:stop]] on strings. *)
Definition len (s : string) : Z := Z.of_nat (String.length s).

Definition slice (s : string) (start stop : Z) : string :=
  string_of_list_ascii (py_slice (list_ascii_of_string s) start stop).

(** [self.value] where a handler takes its length or a slice of it.  With a
    value that is not a string Python raises TypeError there, which the
    model does not follow: the run is stuck. *)
Definition text (t : state) : res string :=
  match value_of (snd t) (self (fst t)) with
  | VStr s => Ok s
  | _ => Stuck
  end.

(** The setters of [cursor] and [offset]. *)
Definition set_cursor (c : Z) (t : state) : state :=
  (mkAttrs (self (fst t)) (length (fst t)) c (_offset (fst t)),
   emit (Update (self (fst t))) (snd t)).

Definition set_offset (o : Z) (t : state) : state :=
  (mkAttrs (self (fst t)) (length (fst t)) (_cursor (fst t))
     (if o >=? 0 then o else 0),
   emit (Update (self (fst t))) (snd t)).

(** [self.value = s], by the setter of [ValueWidget]. *)
Definition set_text (fuel : nat) (s : string) (t : state) : res state :=
  st ← set_value fuel (self (fst t)) (VStr s) (snd t);
  Ok (fst t, st).

Definition _onbackspace (fuel : nat) (t : state) : res state :=
  if _cursor (fst t) >? 0 then
    let t1 := set_cursor (_cursor (fst t) - 1) t in
    let t2 := set_offset (_offset (fst t1) - 1) t1 in
    s ← text t2;
    set_text fuel
      (String.append (slice s 0 (_cursor (fst t2)))
                     (slice s (_cursor (fst t2) + 1) (len s))) t2
  else Ok t.

Definition _ondelete (fuel : nat) (t : state) : res state :=
  s ← text t;
  if negb (len s =? 0) then
    set_text fuel
      (String.append (slice s 0 (_cursor (fst t)))
                     (slice s (_cursor (fst t) + 1) (len s))) t
  else Ok t.

Definition _onleft (t : state) : res state :=
  if _cursor (fst t) >? 0 then
    let t1 := set_cursor (_cursor (fst t) - 1) t in
    if _cursor (fst t1) <? _offset (fst t1)
    then Ok (set_offset (_offset (fst t1) - 1) t1)
    else Ok t1
  else Ok t.

Definition _onright (t : state) : res state :=
  s ← text t;
  if _cursor (fst t) <? len s then
    let t1 := set_cursor (_cursor (fst t) + 1) t in
    if _cursor (fst t1) >? _offset (fst t1) + length (fst t1) - 1
    then Ok (set_offset (_offset (fst t1) + 1) t1)
    else Ok t1
  else Ok t.

Definition _onhome (t : state) : res state :=
  Ok (set_offset 0 (set_cursor 0 t)).

Definition _onend (t : state) : res state :=
  s ← text t;
  let t1 := set_cursor (len s) t in
  s' ← text t1;
  Ok (set_offset (len s' - length (fst t1) + 1) t1).

(** [_onkey]; [ch] is [kc.val], which the matcher of the handler lets
    through only as a single printable character. *)
Definition _onkey (fuel : nat) (ch : Ascii.ascii) (t : state) : res state :=
  let t1 := set_cursor (_cursor (fst t) + 1) t in
  let t2 := if _cursor (fst t1) >? _offset (fst t1) + length (fst t1) - 1
            then set_offset (_offset (fst t1) + 1) t1
            else t1 in
  s ← text t2;
  set_text fuel
    (String.append (slice s 0 (_cursor (fst t2) - 1))
       (String.append (String ch EmptyString)
                      (slice s (_cursor (fst t2) - 1) (len s)))) t2.

(** The keys the handlers are registered for. *)
Inductive key : Type :=
  | Backspace | Delete | Left | Right | Home | End_ | Printable (ch : Ascii.ascii).

Definition handle (fuel : nat) (k : key) (t : state) : res state :=
  match k with
  | Backspace => _onbackspace fuel t
  | Delete => _ondelete fuel t
  | Left => _onleft t
  | Right => _onright t
  | Home => _onhome t
  | End_ => _onend t
  | Printable ch => _onkey fuel ch t
  end.

(** The input holds a string, its cursor lies within the text or just after
    it, its offset is not negative and its length is positive. *)
Definition well_formed (t : state) : Prop :=
  exists o s,
    widgets (snd t) !! self (fst t) = Some o
    /\ cls o = ValueWidget /\ _value o = VStr s
    /\ 0 <= _cursor (fst t) <= len s
    /\ 0 <= _offset (fst t)
    /\ 1 <= length (fst t).

(** The cursor is in the window [render] draws: the cells [offset] to
    [offset + length - 1]. *)
Definition cursor_visible (t : state) : Prop :=
  _offset (fst t) <= _cursor (fst t) <= _offset (fst t) + length (fst t) - 1.

(** A [TextInput(default = "hello", length = 12)] right after the
    constructor. *)
Definition hello : state :=
  (mkAttrs 0 12 5 0,
   mkWorld [mkWidget ValueWidget (VStr "hello") None] []
     [Update 0; Update 0]).

End TextInput.

(** ** Console *)

(** [Console.render]: the calls [self.canvas.text(0, y, text)] it makes, in
    the order it makes them, as pairs of [y] and [text].  The rows count
    down from the bottom one while the entries of [_splitlines] are taken
    from the first on, and [zip] stops at the shorter of the two. *)
Definition Console_render (cv : canvas) (_splitlines : list line)
    : list (Z * line) :=
  map (fun '(y, l) =>
         (y, l ++ repeat Ascii.Space (Z.to_nat (width cv - Z.of_nat (length l)))))
      (zip (py_range (height cv - 1) (-1) (-1)) _splitlines).

(** [Console(minheight)] with identity [id]: no line yet. *)
Definition new_Console (id : nat) (minheight : Z) : view :=
  mkView id (Console minheight [] []) 0 false false true true true true None
    false [].

(** A console that was given the canvas [cv] and to which [ls] was pushed
    since, the newest line first. *)
Definition console_on (cv : canvas) (id : nat) (minheight : Z)
    (ls : list line) : view :=
  with_cls (Console minheight ls []) (with_canvas (Some cv) (new_Console id minheight)).

(** ** Moving the focus among the children of a container *)

(** [ContainerView._focused_child_index]: the first child that is focused,
    with its index. *)
Fixpoint _focused_child_index_from (i : nat) (cs : list view)
    : option (nat * view) :=
  match cs with
  | [] => None
  | c :: cs' =>
      if _focused c then Some (i, c) else _focused_child_index_from (S i) cs'
  end.

Definition _focused_child_index (cs : list view) : option (nat * view) :=
  _focused_child_index_from 0 cs.

(** The test of [focus_next] on a child [x], [c] being the focused child if
    there is one: focusable, displayed and, with a focused child, on its
    z-index.  A view is a true value in [not c]: [view.py] gives its classes
    neither [__bool__] nor [__len__], and the spec has [EventSource], their
    base in the [event] module, as a registration and dispatch mechanism. *)
Definition eligible (c : option view) (x : view) : bool :=
  focusable x && display x
  && match c with
     | None => true
     | Some c => zindex x =? zindex c
     end.

(** The loop of [focus_next] from the index [i] on.  With a step of 0 the
    loop of the source does not end on a child that fails the test: the
    fuel runs out and the run is stuck. *)
Fixpoint focus_scan (fuel : nat) (cs : list view) (c : option view)
    (step i : Z) : res (option (nat * view)) :=
  match fuel with
  | O => Stuck
  | S k =>
      if (0 <=? i) && (i <? Z.of_nat (length cs)) then
        x ← py_get cs i;
        if eligible c x then Ok (Some (Z.to_nat i, x))
        else focus_scan k cs c step (i + step)
      else Ok None
  end.

(** [ContainerView.focus_next(step)]; the value returned is None, True or
    False. *)
Definition focus_next (fuel : nat) (id : nat) (step : Z) (s : scene)
    : result (exn * scene) (option bool * scene) :=
  match find_view id (root s) with
  | None => Stuck
  | Some v =>
      if is_container v then
        if (length (children v) =? 0)%nat then Ok (None, s)
        else
          let ic := _focused_child_index (children v) in
          let i := match ic with
                   | Some (i, _) => Z.of_nat i
                   | None => 0
                   end in
          t ← lift s (focus_scan (S (length (children v))) (children v)
                        (snd <$> ic) step (i + step));
          match t with
          | Some (_, x) =>
              s' ← set_focused fuel (vid x) true s; Ok (Some true, s')
          | None => Ok (Some false, s)
          end
      else Raise (AttributeError, s)
  end.

(** [ContainerView.focus_prev]. *)
Definition focus_prev (fuel : nat) (id : nat) (s : scene)
    : result (exn * scene) (option bool * scene) :=
  focus_next fuel id (-1) s.

(** A [ContainerView] of three buttons, none of them focused. *)
Definition three_buttons : scene :=
  mkScene (new_container 0 ContainerView [button 1; button 2; button 3]) [].

(** Views and widgets, which have no children. *)
Definition leaves (cs : list view) : Prop :=
  Forall (fun c => is_container c = false /\ children c = []) cs.

(** A container whose children are leaves, every view under its own
    identity. *)
Definition flat (v : view) : Prop :=
  is_container v = true
  /\ NoDup (vid v :: map vid (children v))
  /\ leaves (children v).

(** A focused [ContainerView] whose two buttons are both focused, as
    [ContainerView.onfocus] leaves them. *)
Definition all_focused : scene :=
  mkScene
    (with_focused true
       (new_container 0 ContainerView
          [with_focused true (button 1); with_focused true (button 2)])) [].


(** ** Decade *)

Module Decade.
Import Value.

(** What a [Decade] holds beside its value, which the store of [Value]
    keeps under the name [self]. *)
Record attrs : Type := mkAttrs {
  self : nat;
  digits : Z;
  decimals : Z;
  _cursor : Z;
  max : Z;
  min : Z
}.

Definition state : Type := attrs * world.

(** [self.value] where the handlers do arithmetic on it.  A bool counts as
    0 or 1, as it does in Python; any other value that is not an integer
    either raises TypeError or is a float, and the model follows neither:
    the run is stuck. *)
Definition number (t : state) : res Z :=
  match value_of (snd t) (self (fst t)) with
  | VInt z => Ok z
  | VBool b => Ok (if b then 1 else 0)
  | _ => Stuck
  end.

(** [_delta]: [10 ** (self.cursor - self.decimals)].  With a negative
    exponent the power is a float: stuck. *)
Definition _delta (a : attrs) : res Z :=
  if 0 <=? _cursor a - decimals a then Ok (10 ^ (_cursor a - decimals a))
  else Stuck.

(** The setter of [cursor]. *)
Definition set_cursor (c : Z) (t : state) : state :=
  (mkAttrs (self (fst t)) (digits (fst t)) (decimals (fst t)) c
     (max (fst t)) (min (fst t)),
   emit (Update (self (fst t))) (snd t)).

(** [self.value = z], by the setter of [ValueWidget]. *)
Definition set_number (fuel : nat) (z : Z) (t : state) : res state :=
  st ← set_value fuel (self (fst t)) (VInt z) (snd t);
  Ok (fst t, st).

Definition _onright (t : state) : res state :=
  if _cursor (fst t) >? 0 then Ok (set_cursor (_cursor (fst t) - 1) t)
  else Ok t.

Definition _onleft (t : state) : res state :=
  if _cursor (fst t) <? digits (fst t) - 1
  then Ok (set_cursor (_cursor (fst t) + 1) t)
  else Ok t.

Definition _add (fuel : nat) (t : state) : res state :=
  v ← number t;
  d ← _delta (fst t);
  if v + d <=? max (fst t) then set_number fuel (v + d) t
  else set_number fuel (max (fst t)) t.

Definition _sub (fuel : nat) (t : state) : res state :=
  v ← number t;
  d ← _delta (fst t);
  if v - d >=? min (fst t) then set_number fuel (v - d) t
  else set_number fuel (min (fst t)) t.

(** The keys the handlers are registered for. *)
Inductive key : Type := Right | Left | Plus | Minus.

Definition handle (fuel : nat) (k : key) (t : state) : res state :=
  match k with
  | Right => _onright t
  | Left => _onleft t
  | Plus => _add fuel t
  | Minus => _sub fuel t
  end.

(** The decade holds an integer between [min] and [max], its cursor is on
    one of its digits, and it has no decimals. *)
Definition in_range (t : state) : Prop :=
  exists o z,
    widgets (snd t) !! self (fst t) = Some o
    /\ cls o = ValueWidget /\ _value o = VInt z
    /\ min (fst t) <= z <= max (fst t)
    /\ 0 <= _cursor (fst t) <= digits (fst t) - 1
    /\ decimals (fst t) <= 0.

(** A [Decade(3)] right after the constructor: the value 0 between -999
    and 999, the cursor on the last digit. *)
Definition three_digits : state :=
  (mkAttrs 0 3 0 0 999 (-999),
   mkWorld [mkWidget ValueWidget (VInt 0) None] []
     [Update 0; Update 0; WidgetValueEvent 0 (VInt 0) VNone]).

End Decade.
(** * Properties *)

(** ** Loops *)

Lemma for_each_app {E A S : Type} (l1 l2 : list A)
    (body : A -> S -> result E S) (s : S) :
  for_each (l1 ++ l2) body s = (s' ← for_each l1 body s; for_each l2 body s').
Proof.
  revert s. induction l1 as [|a l1 IH]; intros s; simpl; [reflexivity|].
  destruct (body a s) as [s'| |]; simpl; auto.
Qed.

(** ** Value widgets and radio groups *)

Module ValueProps.
Import Value.

Lemma select_S k g r st :
  select (S k) g r st =
  match groups st !! g with
  | None => Stuck
  | Some members =>
      st' ← for_each members (select_step (select k) r) st;
      if decide (selected members st' = selected members st) then Ok st'
      else Ok (emit (GroupValueEvent g (selected members st')
                       (selected members st)) st')
  end.
Proof. reflexivity. Qed.

#[local] Arguments select : simpl never.

Lemma py_eq_true_truthy v : py_eq v (VBool true) = true -> truthy v = true.
Proof.
  destruct v as [|b|z|s]; simpl; try discriminate.
  - destruct b; auto.
  - intros H. apply Z.eqb_eq in H. subst. reflexivity.
Qed.

Lemma py_eq_false_falsy v : py_eq v (VBool false) = true -> truthy v = false.
Proof.
  destruct v as [|b|z|s]; simpl; try discriminate.
  - destruct b; auto.
  - intros H. apply Z.eqb_eq in H. subst. reflexivity.
Qed.

Lemma settled_refl r st : settled r st st.
Proof.
  split; auto.
  - intros m o' H. exists o'. auto.
  - exists []. split; auto.
Qed.

Lemma settled_trans r st1 st2 st3 :
  settled r st1 st2 -> settled r st2 st3 -> settled r st1 st3.
Proof.
  intros [G1 L1 A1 V1 [e1 [T1 F1]]] [G2 L2 A2 V2 [e2 [T2 F2]]]. split.
  - congruence.
  - congruence.
  - intros m o3 H3. destruct (A2 m o3 H3) as (o2 & H2 & C2 & R2).
    destruct (A1 m o2 H2) as (o1 & H1 & C1 & R1).
    exists o1. repeat split; congruence.
  - intros m. destruct (V2 m) as [E2|[[N2 E2]|[N2 E2]]]; auto.
    rewrite E2. apply V1.
  - exists (e2 ++ e1). split.
    + rewrite T2, T1. apply app_assoc.
    + apply Forall_app; auto.
Qed.

Lemma settled_falsy r st st' m :
  settled r st st' -> m <> r ->
  truthy (value_of st m) = false -> truthy (value_of st' m) = false.
Proof.
  intros H Hne Hf. destruct (settled_value _ _ _ H m) as [E|[[_ E]|[E _]]].
  - congruence.
  - rewrite E. reflexivity.
  - contradiction.
Qed.

Lemma settled_truthy r st st' :
  settled r st st' ->
  truthy (value_of st r) = true -> truthy (value_of st' r) = true.
Proof.
  intros H Ht. destruct (settled_value _ _ _ H r) as [E|[[N _]|[_ E]]].
  - congruence.
  - contradiction.
  - rewrite E. reflexivity.
Qed.

Lemma settled_valid r st st' m :
  settled r st st' -> is_Some (widgets st !! m) -> is_Some (widgets st' !! m).
Proof.
  intros H Hs. apply lookup_lt_is_Some. apply lookup_lt_is_Some in Hs.
  rewrite (settled_length _ _ _ H). exact Hs.
Qed.

Lemma settled_lookup r st st' m o :
  settled r st st' -> widgets st !! m = Some o ->
  exists o', widgets st' !! m = Some o' /\ cls o' = cls o /\ _group o' = _group o.
Proof.
  intros H Hm. destruct (settled_valid r st st' m H) as [o' Ho']; [eauto|].
  exists o'. split; auto.
  destruct (settled_attrs _ _ _ H m o' Ho') as (o0 & H0 & C & G).
  rewrite Hm in H0. injection H0 as <-. auto.
Qed.

Lemma value_of_store st w o m :
  (w < length (widgets st))%nat ->
  value_of (store w o st) m = if decide (m = w) then _value o else value_of st m.
Proof.
  intros Hlt. unfold value_of, store; simpl.
  destruct (decide (m = w)) as [->|Hne].
  - rewrite list_lookup_insert_eq; auto.
  - rewrite list_lookup_insert_ne; auto.
Qed.

(** Assigning [v] to the widget [w], whatever [v] is among False (for a
    widget other than [r]) and True (for [r]), before any handler runs. *)
Lemma settled_store r st w o v :
  widgets st !! w = Some o ->
  (w <> r /\ v = VBool false) \/ (w = r /\ v = VBool true) ->
  settled r st (store w (mkWidget (cls o) v (_group o)) st).
Proof.
  intros Hw Hv. assert (Hlt := lookup_lt_Some _ _ _ Hw). split.
  - reflexivity.
  - simpl. apply length_insert.
  - intros m o'. simpl. destruct (decide (m = w)) as [->|Hne].
    + rewrite list_lookup_insert_eq by auto. intros [= <-]. exists o. auto.
    + rewrite list_lookup_insert_ne by auto. intros H. exists o'. auto.
  - intros m. rewrite value_of_store by auto. simpl.
    destruct Hv as [[? ->]|[? ->]]; destruct (decide (m = w)) as [->|Hne]; auto.
  - exists []. split; auto.
Qed.

Lemma settled_emit r st e :
  (forall g, is_group_event g e = false) -> settled r st (emit e st).
Proof.
  intros He. split; auto.
  - intros m o' H. exists o'. auto.
  - exists [e]. split; auto.
Qed.

(** [c.value = False] for a member other than [r]. *)
Lemma clear_other sel r c st :
  c <> r -> is_Some (widgets st !! c) ->
  exists st', set_value_with sel c (VBool false) st = Ok st'
    /\ settled r st st' /\ truthy (value_of st' c) = false.
Proof.
  intros Hne [o Ho]. unfold set_value_with. rewrite Ho.
  destruct (py_eq (_value o) (VBool false)) eqn:Heq.
  - exists st. split; [reflexivity|]. split; [apply settled_refl|].
    unfold value_of. rewrite Ho. apply py_eq_false_falsy, Heq.
  - assert (Hlt := lookup_lt_Some _ _ _ Ho).
    set (st1 := store c (mkWidget (cls o) (VBool false) (_group o)) st).
    assert (Hfire : fire_value sel c o (VBool false) (_value o) st1
                    = Ok (emit (WidgetValueEvent c (VBool false) (_value o)) st1)).
    { unfold fire_value. destruct (cls o); reflexivity. }
    rewrite Hfire. simpl. eexists. split; [reflexivity|]. subst st1.
    split.
    + eapply settled_trans; [apply (settled_store r st c o (VBool false)); auto|].
      eapply settled_trans; apply settled_emit; reflexivity.
    + unfold value_of; simpl. rewrite list_lookup_insert_eq by auto. reflexivity.
Qed.

(** The loop of [select] over members that it can only clear: [r] is not
    among them, or holds a true value already. *)
Lemma clear_loop sel r l : forall st,
  Forall (fun m => is_Some (widgets st !! m)) l ->
  r ∉ l \/ truthy (value_of st r) = true ->
  exists st', for_each l (select_step sel r) st = Ok st'
    /\ settled r st st'
    /\ forall m, m ∈ l -> m <> r -> truthy (value_of st' m) = false.
Proof.
  induction l as [|c l IH]; intros st Hv Hr; simpl.
  - exists st. split; [reflexivity|]. split; [apply settled_refl|].
    intros m Hm. inversion Hm.
  - apply Forall_cons in Hv as [Hc Hl].
    assert (Hstep : exists st1, select_step sel r c st = Ok st1
              /\ settled r st st1
              /\ (c <> r -> truthy (value_of st1 c) = false)).
    { unfold select_step. destruct (Nat.eqb_spec c r) as [->|Hne]; simpl.
      - destruct Hr as [Hr|Hr]; [exfalso; apply Hr; left|].
        rewrite Hr. simpl. exists st. split; [reflexivity|].
        split; [apply settled_refl|]. intros; contradiction.
      - destruct (clear_other sel r c st Hne Hc) as (st1 & E & S1 & F1).
        exists st1. auto. }
    destruct Hstep as (st1 & E1 & S1 & F1). rewrite E1. simpl.
    destruct (IH st1) as (st2 & E2 & S2 & F2).
    + eapply Forall_impl; [exact Hl|]. intros m. apply (settled_valid r st st1 m S1).
    + destruct Hr as [Hr|Hr]; [left|right].
      * intros Hin. apply Hr. right. exact Hin.
      * apply (settled_truthy r st st1 S1 Hr).
    + exists st2. split; [exact E2|]. split; [eapply settled_trans; eauto|].
      intros m Hm Hne. apply elem_of_cons in Hm as [->|Hm]; auto.
      apply (settled_falsy r st1 st2 c S2 Hne). auto.
Qed.

Lemma selected_app l1 l2 st :
  selected (l1 ++ l2) st =
  match selected l1 st with Some x => Some x | None => selected l2 st end.
Proof.
  induction l1 as [|m l1 IH]; simpl; [reflexivity|].
  destruct (truthy (value_of st m)); auto.
Qed.

Lemma selected_None l st :
  (forall m, m ∈ l -> truthy (value_of st m) = false) -> selected l st = None.
Proof.
  induction l as [|m l IH]; intros H; simpl; [reflexivity|].
  rewrite (H m) by left. apply IH. intros m' Hm'. apply H. right. exact Hm'.
Qed.

(** The selected member is [r] as soon as [r] holds a true value and no
    other member does. *)
Lemma selected_only r l st :
  r ∈ l -> truthy (value_of st r) = true ->
  (forall m, m ∈ l -> m <> r -> truthy (value_of st m) = false) ->
  selected l st = Some r.
Proof.
  induction l as [|m l IH]; intros Hin Ht Hf; [inversion Hin|]. simpl.
  destruct (decide (m = r)) as [->|Hne].
  - rewrite Ht. reflexivity.
  - rewrite (Hf m) by (auto; left). apply IH; auto.
    + apply elem_of_cons in Hin as [->|Hin]; [contradiction|exact Hin].
    + intros m' Hm'. apply Hf. right. exact Hm'.
Qed.

Lemma selected_settled r l st st' :
  selected l st = Some r -> settled r st st' -> selected l st' = Some r.
Proof.
  intros Hsel S. induction l as [|m l IH]; simpl in *; [discriminate|].
  destruct (truthy (value_of st m)) eqn:Hm.
  - injection Hsel as ->. rewrite (settled_truthy r st st' S Hm). reflexivity.
  - destruct (decide (m = r)) as [->|Hne].
    + destruct (truthy (value_of st' r)); auto.
    + rewrite (settled_falsy r st st' m S Hne Hm). auto.
Qed.

(** [select(r)] on a group whose selected member is [r] already: the others
    are cleared and the group stays silent. *)
Lemma select_again k g r st members :
  groups st !! g = Some members ->
  Forall (fun m => is_Some (widgets st !! m)) members ->
  selected members st = Some r ->
  exists st', select (S k) g r st = Ok st'
    /\ settled r st st'
    /\ forall m, m ∈ members -> m <> r -> truthy (value_of st' m) = false.
Proof.
  intros Hg Hv Hsel. rewrite select_S, Hg.
  assert (Hr : truthy (value_of st r) = true).
  { clear -Hsel. induction members as [|x l IHl]; simpl in Hsel; [discriminate|].
    destruct (truthy (value_of st x)) eqn:Hx; [congruence|auto]. }
  destruct (clear_loop (select k) r members st Hv (or_intror Hr))
    as (st' & E & S & F).
  rewrite E. simpl. rewrite Hsel, (selected_settled r members st st' Hsel S).
  destruct (decide (Some r = Some r)); [|contradiction].
  exists st'. auto.
Qed.

(** The step of the loop that meets [r] itself. *)
Lemma select_step_self k g r st l1 l2 o :
  groups st !! g = Some (l1 ++ r :: l2) ->
  Forall (fun m => is_Some (widgets st !! m)) (l1 ++ r :: l2) ->
  widgets st !! r = Some o -> _group o = Some g ->
  r ∉ l1 ->
  (forall m, m ∈ l1 -> truthy (value_of st m) = false) ->
  exists st', select_step (select (S k)) r r st = Ok st'
    /\ settled r st st' /\ truthy (value_of st' r) = true.
Proof.
  intros Hg Hv Ho Hgr Hnot Hbefore. unfold select_step.
  rewrite Nat.eqb_refl. simpl.
  destruct (truthy (value_of st r)) eqn:Ht; simpl.
  { exists st. split; [reflexivity|]. split; [apply settled_refl|exact Ht]. }
  unfold set_value_with. rewrite Ho.
  assert (Hov : value_of st r = _value o) by (unfold value_of; rewrite Ho; reflexivity).
  destruct (py_eq (_value o) (VBool true)) eqn:Heq.
  { apply py_eq_true_truthy in Heq. congruence. }
  assert (Hlt := lookup_lt_Some _ _ _ Ho).
  set (st1 := store r (mkWidget (cls o) (VBool true) (_group o)) st).
  assert (S1 : settled r st st1) by (apply settled_store; auto).
  set (st2 := emit (WidgetValueEvent r (VBool true) (_value o)) st1).
  assert (S2 : settled r st st2).
  { eapply settled_trans; [exact S1|]. apply settled_emit. reflexivity. }
  assert (Ht2 : truthy (value_of st2 r) = true).
  { unfold st2, st1, value_of; simpl. rewrite list_lookup_insert_eq by auto.
    reflexivity. }
  assert (Hfire : exists st3, fire_value (select (S k)) r o (VBool true) (_value o) st1
                    = Ok st3 /\ settled r st2 st3).
  { unfold fire_value. fold st2. destruct (cls o).
    - exists st2. split; [reflexivity|apply settled_refl].
    - simpl. rewrite Hgr. change (groups st2) with (groups st). rewrite Hg.
      destruct (select_again k g r st2 (l1 ++ r :: l2)) as (st3 & E3 & S3 & _).
      + exact Hg.
      + eapply Forall_impl; [exact Hv|]. intros m. apply (settled_valid r st st2 m S2).
      + rewrite selected_app, (selected_None l1 st2).
        * simpl. rewrite Ht2. reflexivity.
        * intros m Hm. apply (settled_falsy r st st2 m S2).
          -- intros ->. contradiction.
          -- apply (Hbefore m Hm).
      + exists st3. split; [|exact S3].
        destruct (l1 ++ r :: l2) eqn:Hl; [destruct l1; discriminate|exact E3]. }
  destruct Hfire as (st3 & E3 & S3). cbv zeta. fold st1. rewrite E3. simpl.
  eexists. split; [reflexivity|]. split.
  - eapply settled_trans; [exact S2|]. eapply settled_trans; [exact S3|].
    apply settled_emit. reflexivity.
  - change (value_of (emit (Update r) st3) r) with (value_of st3 r).
    apply (settled_truthy r st2 st3 S3 Ht2).
Qed.

Lemma no_group_events g evs :
  Forall (fun e => forall g, is_group_event g e = false) evs ->
  List.filter (is_group_event g) evs = [].
Proof.
  induction 1 as [|e evs He _ IH]; simpl; [reflexivity|].
  rewrite He. exact IH.
Qed.

(** C9: assigning to a [ValueWidget] the value it already holds (in the
    sense of [==]) returns at once: the store is the same, so the stored
    value is unchanged, and the trace is the same, so no value-changed event
    was fired and [update] was not called. *)
Theorem set_value_unchanged fuel w v st o :
  widgets st !! w = Some o ->
  py_eq (_value o) v = true ->
  set_value fuel w v st = Ok st.
Proof.
  intros Hw Heq. unfold set_value, set_value_with. rewrite Hw, Heq. reflexivity.
Qed.

Lemma set_value_unchanged_witness :
  set_value 3 1 (VInt 1) three_radios = Ok three_radios.
Proof.
  apply (set_value_unchanged 3 1 (VInt 1) three_radios
           (mkWidget Radio (VBool true) (Some 0%nat))); reflexivity.
Defined.

(** C6, as amended: [group.select(r)] for a member [r] of the group returns
    with [r] as the only member holding a true value.  The group fires one
    value-changed event, from the member selected before to [r], when that
    member was not [r], and none when [r] was the selected member already. *)
Theorem select_exclusive k g r st members o :
  groups st !! g = Some members ->
  r ∈ members ->
  Forall (fun m => is_Some (widgets st !! m)) members ->
  widgets st !! r = Some o -> _group o = Some g ->
  exists st' evs,
    select (S (S k)) g r st = Ok st'
    /\ (forall m, m ∈ members -> truthy (value_of st' m) = true <-> m = r)
    /\ trace st' = evs ++ trace st
    /\ List.filter (is_group_event g) evs =
       if decide (selected members st = Some r) then []
       else [GroupValueEvent g (Some r) (selected members st)].
Proof.
  intros Hg Hin Hv Ho Hgr.
  destruct (list_elem_of_split_l _ _ Hin) as (l1 & l2 & -> & Hnot).
  rewrite select_S, Hg, for_each_app.
  set (members := l1 ++ r :: l2) in *.
  assert (Hv1 : Forall (fun m => is_Some (widgets st !! m)) l1).
  { apply Forall_app in Hv as [H _]. exact H. }
  destruct (clear_loop (select (S k)) r l1 st Hv1 (or_introl Hnot))
    as (st1 & E1 & S1 & F1).
  rewrite E1. simpl.
  destruct (settled_lookup r st st1 r o S1 Ho) as (o1 & Ho1 & _ & Hg1).
  destruct (select_step_self k g r st1 l1 l2 o1) as (st2 & E2 & S2 & T2).
  { rewrite (settled_groups _ _ _ S1). exact Hg. }
  { eapply Forall_impl; [exact Hv|]. intros m. apply (settled_valid r st st1 m S1). }
  { exact Ho1. }
  { congruence. }
  { exact Hnot. }
  { intros m Hm. apply F1; [exact Hm|]. intros ->. contradiction. }
  rewrite E2. simpl.
  assert (S12 : settled r st st2) by (eapply settled_trans; eauto).
  destruct (clear_loop (select (S k)) r l2 st2) as (st3 & E3 & S3 & F3).
  { apply Forall_app in Hv as [_ H]. apply Forall_cons in H as [_ H].
    eapply Forall_impl; [exact H|]. intros m. apply (settled_valid r st st2 m S12). }
  { right. exact T2. }
  rewrite E3. simpl.
  assert (S13 : settled r st st3) by (eapply settled_trans; eauto).
  assert (T3 : truthy (value_of st3 r) = true)
    by (apply (settled_truthy r st2 st3 S3 T2)).
  assert (Hothers : forall m, m ∈ members -> m <> r ->
                      truthy (value_of st3 m) = false).
  { intros m Hm Hne. unfold members in Hm.
    apply elem_of_app in Hm as [Hm|Hm].
    - apply (settled_falsy r st2 st3 m S3 Hne).
      apply (settled_falsy r st1 st2 m S2 Hne). apply F1; auto.
    - apply elem_of_cons in Hm as [->|Hm]; [contradiction|]. apply F3; auto. }
  assert (Hnew : selected members st3 = Some r)
    by (apply selected_only; auto).
  rewrite Hnew.
  destruct (settled_trace _ _ _ S13) as (evs & Htr & Hev).
  assert (Hone : forall m, m ∈ members -> truthy (value_of st3 m) = true <-> m = r).
  { intros m Hm. split.
    - intros Ht. destruct (decide (m = r)) as [|Hne]; [assumption|].
      rewrite (Hothers m Hm Hne) in Ht. discriminate.
    - intros ->. exact T3. }
  destruct (decide (Some r = selected members st)) as [Heq|Hneq].
  - exists st3, evs. split; [reflexivity|]. split; [exact Hone|].
    split; [exact Htr|]. rewrite no_group_events by exact Hev.
    destruct (decide (selected members st = Some r)); congruence.
  - exists (emit (GroupValueEvent g (Some r) (selected members st)) st3),
      (GroupValueEvent g (Some r) (selected members st) :: evs).
    split; [reflexivity|]. split; [exact Hone|].
    split; [simpl; rewrite Htr; reflexivity|].
    simpl. rewrite Nat.eqb_refl, no_group_events by exact Hev.
    destruct (decide (selected members st = Some r)); congruence.
Qed.

Lemma select_exclusive_witness :
  exists st' evs,
    select 2 0 2 three_radios = Ok st'
    /\ (forall m, m ∈ [0; 1; 2]%nat -> truthy (value_of st' m) = true <-> m = 2%nat)
    /\ trace st' = evs ++ trace three_radios
    /\ List.filter (is_group_event 0) evs =
       if decide (selected [0; 1; 2]%nat three_radios = Some 2%nat) then []
       else [GroupValueEvent 0 (Some 2%nat) (selected [0; 1; 2]%nat three_radios)].
Proof.
  apply (select_exclusive 0 0 2 three_radios [0; 1; 2]%nat
           (mkWidget Radio (VBool false) (Some 0%nat))).
  - reflexivity.
  - do 2 apply list_elem_of_further. apply list_elem_of_here.
  - repeat constructor; eexists; reflexivity.
  - reflexivity.
  - reflexivity.
Defined.

(** C6 as the claim has it fails when [r] is the selected member already:
    member 1 of [three_radios] is selected, and selecting it again returns
    the same store with the same (empty) trace, so no event was fired where
    the claim has exactly one. *)
Lemma select_same_member_silent :
  selected [0; 1; 2]%nat three_radios = Some 1%nat
  /\ select 2 0 1 three_radios = Ok three_radios
  /\ List.filter (is_group_event 0) (trace three_radios) = [].
Proof. repeat split; reflexivity. Qed.

End ValueProps.

(** ** Focus *)

Module FocusProps.

(** C10: assigning [focused] the value it has returns at once, whatever the
    view and whether or not it is focusable: no exception, the same tree and
    the same list of calls, so that none of [onfocus], [onunfocus],
    [onchildfocused] ran. *)
Theorem set_focused_same fuel id s v :
  find_view id (root s) = Some v ->
  set_focused (S fuel) id (_focused v) s = Ok s.
Proof.
  intros Hv. simpl. rewrite Hv, eqb_reflx. reflexivity.
Qed.

Lemma set_focused_same_witness :
  set_focused 1 1 false spacer_and_button = Ok spacer_and_button.
Proof.
  apply (set_focused_same 0 1 spacer_and_button (Spacer 1 1 1 false false)).
  reflexivity.
Defined.

(** C4: [focused = True] on a view that is not focused and whose [focusable]
    property is false raises (NotImplementedError in the source, the
    InvalidOperation of the spec) out of the state the call started from:
    the flag is still false and no callback has run. *)
Theorem set_focused_unfocusable fuel id s v :
  find_view id (root s) = Some v ->
  focusable v = false ->
  _focused v = false ->
  set_focused (S fuel) id true s = Raise (NotImplementedError, s).
Proof.
  intros Hv Hf Hn. simpl. rewrite Hv, Hn, Hf. reflexivity.
Qed.

Lemma set_focused_unfocusable_witness :
  set_focused 1 1 true spacer_and_button
  = Raise (NotImplementedError, spacer_and_button).
Proof.
  apply (set_focused_unfocusable 0 1 spacer_and_button
           (Spacer 1 1 1 false false)); reflexivity.
Defined.

(** C5 fails on the code: [ContainerView.onfocus] does not stop at the first
    focusable, displayed child.  With two such children the loop focuses the
    first, then the second, and focusing the second makes the parent
    unfocus the first: the last one ends up focused. *)
Theorem onfocus_two_buttons :
  exists s, onfocus 6 0 two_buttons = Ok s
    /\ map (fun c => (vid c, _focused c)) (children (root s))
       = [(1%nat, false); (2%nat, true)]
    /\ calls s = [CallUpdate 1; OnUnfocus 1; OnChildFocused 0 2;
                  CallUpdate 2; OnFocus 2; OnChildFocused 0 1;
                  CallUpdate 1; OnFocus 1; OnFocus 0].
Proof.
  eexists. split; [vm_compute; reflexivity|]. split; reflexivity.
Qed.

(** The sibling method [Grid.onfocus] returns after the first focusable,
    displayed child: the first widget is focused and the second is not. *)
Example Grid_onfocus_first :
  exists s, onfocus 6 0 two_buttons_grid = Ok s
    /\ map (fun c => (vid c, _focused c)) (children (root s))
       = [(1%nat, true); (2%nat, false)].
Proof. eexists. split; [vm_compute; reflexivity|reflexivity]. Qed.

End FocusProps.

(** ** Grid *)

Module GridProps.

Lemma py_index_out (len : nat) (n i : Z) :
  len = Z.to_nat n -> i < - n \/ n <= i -> py_index len i = None.
Proof.
  intros -> H. unfold py_index.
  destruct (Z.leb_spec 0 i), (Z.ltb_spec i (Z.of_nat (Z.to_nat n))),
    (Z.leb_spec (- Z.of_nat (Z.to_nat n)) i), (Z.ltb_spec i 0);
    simpl; try reflexivity; lia.
Qed.

Lemma py_get_out {A : Type} (l : list A) (n i : Z) :
  length l = Z.to_nat n -> i < - n \/ n <= i -> py_get l i = Raise IndexError.
Proof.
  intros Hl H. unfold py_get. rewrite (py_index_out _ n i Hl H). reflexivity.
Qed.

Lemma py_get_Ok_elem {A : Type} (l : list A) (i : Z) (a : A) :
  py_get l i = Ok a -> a ∈ l.
Proof.
  unfold py_get. destruct (py_index (length l) i) as [k|]; [|discriminate].
  destruct (l !! k) as [b|] eqn:Hk; [|discriminate].
  intros [= ->]. apply list_elem_of_lookup. eauto.
Qed.

(** C8, as amended: [set(x, y, child)] raises (IndexError in the source, the
    InvalidOperation of the spec) out of the state it started from, so that
    the child is not attached, when [x >= width] or [y >= height] or
    [x < -width] or [y < -height].  Negative coordinates from [-width] and
    [-height] on are Python indices counting from the end and are
    accepted. *)
Theorem Grid_set_out_of_range fuel id x y c cspan rspan s v g :
  find_view id (root s) = Some v ->
  vcls v = Grid g ->
  grid_shape g ->
  x < - gwidth g \/ gwidth g <= x \/ y < - gheight g \/ gheight g <= y ->
  Grid_set fuel id x y c cspan rspan s = Raise (IndexError, s).
Proof.
  intros Hv Hg [Hh Hw] Hout. unfold Grid_set. rewrite Hv, Hg.
  destruct (py_get (grid g) y) as [row| |] eqn:Hrow; simpl.
  - assert (Hlen : length row = Z.to_nat (gwidth g)).
    { apply py_get_Ok_elem in Hrow. rewrite Forall_forall in Hw. auto. }
    assert (Hx : x < - gwidth g \/ gwidth g <= x).
    { destruct Hout as [?|[?|Hy]]; auto.
      rewrite (py_get_out (grid g) (gheight g) y Hh Hy) in Hrow. discriminate. }
    rewrite (py_get_out row (gwidth g) x Hlen Hx). reflexivity.
  - unfold py_get in Hrow.
    destruct (py_index (length (grid g)) y); [|congruence].
    destruct (grid g !! n); congruence.
  - unfold py_get in Hrow.
    destruct (py_index (length (grid g)) y); [|discriminate].
    destruct (grid g !! n); discriminate.
Qed.

Lemma Grid_set_out_of_range_witness :
  Grid_set 0 0 2 0 (Spacer 5 1 1 false false) 1 1 empty_grid
  = Raise (IndexError, empty_grid).
Proof.
  apply (Grid_set_out_of_range 0 0 2 0 (Spacer 5 1 1 false false) 1 1
           empty_grid (new_Grid 0 2 2)
           (mkGrid 2 2 [[None; None]; [None; None]] None None (0, 0))).
  - reflexivity.
  - reflexivity.
  - split; [reflexivity|]. repeat constructor.
  - right. left. simpl. lia.
Defined.

(** C8 as the claim has it fails for negative coordinates: (-1, -1) is
    outside [0 <= x < 2], [0 <= y < 2], yet [set(-1, -1, child)] on an empty
    [Grid(2, 2)] returns normally, with the child attached and placed in the
    last cell. *)
Lemma Grid_set_negative_accepted :
  exists s, Grid_set 0 0 (-1) (-1) (Spacer 5 1 1 false false) 1 1 empty_grid = Ok s
    /\ children (root s) = [fst (set_dirty true (Spacer 5 1 1 false false))]
    /\ (exists g, vcls (root s) = Grid g
          /\ grid g = [[None; None]; [None; Some (mkCell 5 1 1)]]).
Proof.
  eexists. split; [vm_compute; reflexivity|].
  split; [reflexivity|]. eexists. split; reflexivity.
Qed.


Lemma add_at_ok tr n d :
  (n < length tr)%nat ->
  exists tr', add_at tr n d = Ok tr' /\ length tr' = length tr
    /\ forall j, tr' !! j
         = (fun x => x + (if decide (j = n) then d else 0)) <$> tr !! j.
Proof.
  intros Hn. unfold add_at.
  destruct (lookup_lt_is_Some_2 tr n Hn) as [x Hx]. rewrite Hx.
  eexists. split; [reflexivity|]. split; [apply length_insert|].
  intros j. destruct (decide (j = n)) as [->|Hne].
  - rewrite list_lookup_insert_eq by exact Hn. rewrite Hx. reflexivity.
  - rewrite list_lookup_insert_ne by auto.
    destruct (tr !! j); simpl; f_equal; lia.
Qed.

(** The first loop of the split: every spanned track grows by [spl]. *)
Lemma grow_evenly_spec i spl n : forall a tr over,
  (i + a + n <= length tr)%nat ->
  exists tr',
    for_each (seq a n)
      (fun oc '(tr, over) =>
         tr' ← add_at tr (i + oc)%nat spl; Ok (tr', over - spl)) (tr, over)
    = (Ok (tr', over - Z.of_nat n * spl) : res (list Z * Z))
    /\ length tr' = length tr
    /\ forall j, tr' !! j
         = (fun x => x + (if decide (i + a <= j < i + a + n)%nat
                          then spl else 0)) <$> tr !! j.
Proof.
  induction n as [|n IH]; intros a tr over Hlen; simpl.
  - exists tr. split; [f_equal; f_equal; lia|]. split; [reflexivity|].
    intros j. destruct (tr !! j); simpl; f_equal.
    destruct (decide _); lia.
  - destruct (add_at_ok tr (i + a) spl) as (tr1 & E1 & L1 & P1); [lia|].
    rewrite E1. simpl.
    destruct (IH (S a) tr1 (over - spl)) as (tr2 & E2 & L2 & P2); [lia|].
    rewrite E2. exists tr2. split; [f_equal; f_equal; lia|].
    split; [congruence|].
    intros j. rewrite P2, P1. destruct (tr !! j); simpl; f_equal.
    repeat destruct (decide _); lia.
Qed.

(** The second loop: the rest goes, one unit each, to the tracks from the
    last spanned one downwards. *)
Lemma grow_rest_spec i m : forall tr over,
  0 <= over <= Z.of_nat m ->
  (i + m < length tr)%nat ->
  exists tr',
    grow_rest (rev (seq 1 m)) i tr over = Ok tr'
    /\ length tr' = length tr
    /\ forall j, tr' !! j
         = (fun x => x + (if decide (Z.of_nat (i + m) - over < Z.of_nat j
                                     <= Z.of_nat (i + m))
                          then 1 else 0)) <$> tr !! j.
Proof.
  induction m as [|m IH]; intros tr over Hover Hlen.
  - simpl. exists tr. split; [reflexivity|]. split; [reflexivity|].
    intros j. destruct (tr !! j); simpl; f_equal.
    destruct (decide _); lia.
  - rewrite seq_S, rev_app_distr. simpl.
    destruct (Z.leb_spec over 0) as [Hz|Hpos].
    + exists tr. split; [reflexivity|]. split; [reflexivity|].
      intros j. destruct (tr !! j); simpl; f_equal.
      destruct (decide _); lia.
    + destruct (add_at_ok tr (i + S m) 1) as (tr1 & E1 & L1 & P1); [lia|].
      rewrite E1. simpl.
      destruct (IH tr1 (over - 1)) as (tr2 & E2 & L2 & P2); [lia|lia|].
      rewrite E2. exists tr2. split; [reflexivity|]. split; [congruence|].
      intros j. rewrite P2, P1. destruct (tr !! j); simpl; f_equal.
      repeat destruct (decide _); lia.
Qed.

End GridProps.

(** ** Layout *)

Module LayoutProps.

(** Induction over a view and, with it, over all its children. *)
Lemma view_induction (P : view -> Prop)
  (step : forall v, Forall P (children v) -> P v) : forall v, P v.
Proof.
  exact (fix go (v : view) : P v :=
           step v
             (match v as v0 return Forall P (children v0) with
              | mkView _ _ _ _ _ _ _ _ _ _ _ cs =>
                  (fix all (l : list view) : Forall P l :=
                     match l with
                     | [] => @List.Forall_nil view P
                     | c :: l' => @List.Forall_cons view P c l' (go c) (all l')
                     end) cs
              end)).
Qed.

Lemma Ok_inj {E A : Type} (a b : A) : @Ok E A a = Ok b -> a = b.
Proof. congruence. Qed.

Lemma insert_by_zindex_perm k l : insert_by_zindex k l ≡ₚ k :: l.
Proof.
  induction l as [|k' l IH]; simpl; [reflexivity|].
  destruct (zindex (fst k) <=? zindex (fst k')); [reflexivity|].
  rewrite IH. apply Permutation_swap.
Qed.

Lemma sort_by_zindex_perm l : sort_by_zindex l ≡ₚ l.
Proof.
  induction l as [|k l IH]; simpl; [reflexivity|].
  rewrite insert_by_zindex_perm, IH. reflexivity.
Qed.

Lemma fold_add_shift l : forall a, fold_left Z.add l a = a + fold_left Z.add l 0.
Proof.
  induction l as [|y l IH]; intros a; simpl; [lia|].
  rewrite (IH (a + y)), (IH (0 + y)). lia.
Qed.

Lemma py_sum_cons x l : py_sum (x :: l) = x + py_sum l.
Proof. unfold py_sum. simpl. rewrite fold_add_shift. lia. Qed.

Lemma assign_canvas_eq cv v :
  assign_canvas cv v =
  let kids := map (fun c => (c, fun cv' => assign_canvas cv' c)) (children v) in
  let v1 := with_canvas cv v in
  match vcls v with
  | View _ | Widget _ => Ok v1
  | Console minheight ls _ =>
      sp ← _update_splitlines cv ls;
      Ok (with_cls (Console minheight ls sp) v1)
  | ContainerView => ContainerView_recalc cv v1 kids
  | Align ha va => Align_recalc ha va cv v1 kids
  | Box _ => Box_recalc cv v1 kids
  | Vertical => Vertical_recalc cv v1 kids
  | Horizontal => Horizontal_recalc cv v1 kids
  | Grid g => Grid_recalc g cv v1 kids
  end.
Proof. destruct v; reflexivity. Qed.

Lemma set_dirty_fields d v :
  _canvas (fst (set_dirty d v)) = _canvas v
  /\ vid (fst (set_dirty d v)) = vid v
  /\ vcls (fst (set_dirty d v)) = vcls v.
Proof. destruct v as [? k ? ? ? ? ? ? ? ? ? ?]. destruct k; simpl; auto. Qed.

(** The canvas setter leaves the view with the canvas it was given, and
    with its identity. *)
Lemma assign_canvas_fields cv v v' :
  assign_canvas cv v = Ok v' -> _canvas v' = cv /\ vid v' = vid v.
Proof.
  rewrite assign_canvas_eq. cbv zeta.
  set (kids := map _ (children v)). clearbody kids.
  destruct (vcls v) eqn:Hk.
  - intros [= <-]. auto.
  - intros [= <-]. auto.
  - unfold ContainerView_recalc. destruct (dirty _).
    + destruct (assign_all _ _) as [cs| |]; unfold mbind, result_bind;
        try discriminate.
      intros H. apply Ok_inj in H. subst v'.
      destruct (set_dirty_fields false
                  (with_shouldclear true (with_children cs (with_canvas cv v))))
        as (-> & -> & _). auto.
    + intros [= <-]. auto.
  - unfold Align_recalc. destruct cv as [c|]; [|discriminate].
    destruct (assign_all _ _) as [cs| |]; simpl; try discriminate.
    intros [= <-]. auto.
  - unfold Box_recalc. destruct cv as [c|]; [|discriminate].
    destruct (assign_all _ _) as [cs| |]; simpl; try discriminate.
    intros [= <-]. auto.
  - unfold Vertical_recalc. destruct cv as [c|]; [|discriminate].
    destruct (stack_loop _ _ _ _ _ _ _) as [cs| |]; simpl; try discriminate.
    intros [= <-]. auto.
  - unfold Horizontal_recalc. destruct cv as [c|]; [|discriminate].
    destruct (stack_loop _ _ _ _ _ _ _) as [cs| |]; simpl; try discriminate.
    intros [= <-]. auto.
  - unfold Grid_recalc.
    destruct (for_each _ _ _) as [st| |]; simpl; try discriminate.
    intros [= <-]. auto.
  - destruct (_update_splitlines _ _) as [sp| |]; simpl; try discriminate.
    intros [= <-]. auto.
Qed.

Lemma count_true_cons b l :
  count_true (b :: l) = (if b then 1 else 0) + count_true l.
Proof. unfold count_true. simpl map. apply py_sum_cons. Qed.

Lemma count_true_nonneg l : 0 <= count_true l.
Proof.
  induction l as [|b l IH]; [unfold count_true, py_sum; simpl; lia|].
  rewrite count_true_cons. destruct b; lia.
Qed.

Lemma share_nonneg R N : 0 <= R -> 1 <= N -> 0 <= share R N.
Proof.
  intros HR HN. unfold share, py_round_div.
  destruct (Z.eqb_spec N 0) as [|_]; [lia|].
  assert (0 <= R / N) by (apply Z.div_pos; lia).
  repeat match goal with |- context [if ?b then _ else _] => destruct b end; lia.
Qed.

Section Stack.
Variables (extent : view -> Z) (stretch : view -> bool).
Variables (sub : Z -> Z -> canvas) (asked : canvas -> Z) (perc : Z).
Hypothesis asked_sub : forall pos ext, asked (sub pos ext) = ext.
Hypothesis perc_nonneg : 0 <= perc.

(** The grants of one walk add up to the budget, or to one share per
    stretching child if that is less. *)
Lemma stack_loop_granted kids : forall rem pos cs',
  setters_ok kids -> 0 <= rem ->
  stack_loop extent stretch sub perc kids rem pos = Ok cs' ->
  total_granted extent stretch asked (map fst kids) cs'
  = Z.min rem (count_true (map (stretches extent stretch) (map fst kids)) * perc).
Proof.
  induction kids as [|[c assign] kids IH]; intros rem pos cs' Hok Hrem Hrun.
  - simpl in *. apply Ok_inj in Hrun. subst cs'.
    unfold count_true, py_sum. simpl. lia.
  - apply Forall_cons in Hok as [Hc Hok]. simpl in Hc.
    simpl map. rewrite count_true_cons.
    pose proof (count_true_nonneg
                  (map (stretches extent stretch) (map fst kids))) as HM.
    set (M := count_true _) in *.
    assert (HMp : 0 <= M * perc) by (apply Z.mul_nonneg_nonneg; lia).
    simpl in Hrun. unfold stretches at 1.
    destruct (Z.eqb_spec (extent c) 0) as [Hz|Hnz]; simpl negb;
      rewrite ?andb_false_r, ?andb_true_r.
    + destruct (stack_loop _ _ _ _ kids rem pos) as [rest| |] eqn:Hrest;
        simpl in Hrun; try discriminate.
      apply Ok_inj in Hrun. subst cs'. simpl.
      unfold granted, stretches. destruct (Z.eqb_spec (extent c) 0); [|lia].
      simpl negb. rewrite andb_false_r.
      rewrite (IH rem pos rest Hok Hrem Hrest). fold M. lia.
    + destruct (stretch c) eqn:Hs;
        [destruct (Z.gtb_spec rem perc) as [Hgt|Hle]|];
        (destruct (assign _) as [c'| |] eqn:Hassign; simpl in Hrun;
           try discriminate;
         destruct (stack_loop _ _ _ _ kids _ _) as [rest| |] eqn:Hrest;
           simpl in Hrun; try discriminate;
         apply Ok_inj in Hrun; subst cs'; simpl;
         unfold granted, stretches; rewrite Hs;
         destruct (Z.eqb_spec (extent c) 0); [lia|];
         simpl; rewrite ?(Hc _ _ Hassign), ?asked_sub;
         pose proof (fun H => IH _ _ rest Hok H Hrest) as Hres;
         rewrite Hres by lia; fold M; nia).
Qed.
End Stack.

Lemma setters_of_children cs :
  setters_ok (map (fun c => (c, fun cv' => assign_canvas cv' c)) cs).
Proof.
  unfold setters_ok. apply Forall_forall. intros k Hk cv c' Hrun.
  apply list_elem_of_fmap in Hk as (c & -> & _). simpl in Hrun.
  apply assign_canvas_fields in Hrun. tauto.
Qed.

Lemma map_fst_kids cs :
  map fst (map (fun c => (c, fun cv' => assign_canvas cv' c)) cs) = cs.
Proof. induction cs as [|c cs IH]; simpl; congruence. Qed.

Lemma distributes_min R N M total :
  0 <= R -> total = Z.min R (M * share R N) -> distributes R N M total.
Proof. intros HR ->. unfold distributes. repeat split; lia. Qed.

Lemma collect_total {A B : Type} (f : A -> res B) (l : list A) :
  Forall (fun a => exists b, f a = Ok b) l -> exists cs, collect (map f l) = Ok cs.
Proof.
  induction 1 as [|a l [b Hb] _ [cs IH]]; simpl.
  - exists []. reflexivity.
  - rewrite Hb, IH. exists (b :: cs). reflexivity.
Qed.

Lemma assign_all_total cv kids :
  setters_return kids -> exists cs, assign_all (Some cv) kids = Ok cs.
Proof.
  intros H. apply collect_total. eapply Forall_impl; [exact H|].
  intros k Hk. apply Hk.
Qed.

Lemma stack_loop_total extent stretch sub perc kids : forall rem pos,
  setters_return kids ->
  exists cs, stack_loop extent stretch sub perc kids rem pos = Ok cs.
Proof.
  induction kids as [|[c assign] kids IH]; intros rem pos Hret; simpl.
  - exists []. reflexivity.
  - apply Forall_cons in Hret as [Hc Hret]. simpl in Hc.
    destruct (extent c =? 0).
    + destruct (IH rem pos Hret) as [rest ->]. eexists. reflexivity.
    + match goal with |- context [assign (Some ?k)] =>
        destruct (Hc k) as [c' ->] end.
      simpl.
      match goal with |- context [stack_loop _ _ _ _ kids ?r ?p] =>
        destruct (IH r p Hret) as [rest ->] end.
      eexists. reflexivity.
Qed.

Lemma update_splitlines_nil cv : _update_splitlines cv [] = Ok [].
Proof. reflexivity. Qed.

(** On a canvas, [recalc] returns for every tree with neither a Grid nor a
    Console that holds a line. *)
Lemma assign_canvas_total : forall v,
  plain v = true -> forall cv, exists v', assign_canvas (Some cv) v = Ok v'.
Proof.
  apply (view_induction (fun v => plain v = true ->
           forall cv, exists v', assign_canvas (Some cv) v = Ok v')).
  intros v IH Hfree cv.
  assert (Hkids : forallb plain (children v) = true ->
            setters_return
              (map (fun c => (c, fun cv' => assign_canvas cv' c)) (children v))).
  { intros Hall. unfold setters_return. apply Forall_map. simpl.
    rewrite forallb_forall in Hall. rewrite Forall_forall in IH.
    apply Forall_forall. intros c Hc. apply IH; [exact Hc|].
    apply Hall. apply list_elem_of_In. exact Hc. }
  rewrite assign_canvas_eq. cbv zeta.
  set (kids := map _ (children v)) in *. clearbody kids.
  destruct v as [? k ? ? ? ? ? ? ? ? ? ?]. simpl in Hfree, Hkids.
  cbn [vcls]. destruct k; try specialize (Hkids Hfree).
  - eexists. reflexivity.
  - eexists. reflexivity.
  - unfold ContainerView_recalc. destruct (dirty _); [|eexists; reflexivity].
    destruct (assign_all_total cv (sort_by_zindex kids)) as [cs ->].
    + unfold setters_return. rewrite sort_by_zindex_perm. exact Hkids.
    + eexists. reflexivity.
  - unfold Align_recalc.
    match goal with |- context [assign_all (Some ?k) kids] =>
      destruct (assign_all_total k kids Hkids) as [cs ->] end.
    eexists. reflexivity.
  - unfold Box_recalc.
    match goal with |- context [assign_all (Some ?k) kids] =>
      destruct (assign_all_total k kids Hkids) as [cs ->] end.
    eexists. reflexivity.
  - unfold Vertical_recalc.
    match goal with |- context [stack_loop ?e ?s ?b ?p kids ?r ?o] =>
      destruct (stack_loop_total e s b p kids r o Hkids) as [cs ->] end.
    eexists. reflexivity.
  - unfold Horizontal_recalc.
    match goal with |- context [stack_loop ?e ?s ?b ?p kids ?r ?o] =>
      destruct (stack_loop_total e s b p kids r o Hkids) as [cs ->] end.
    eexists. reflexivity.
  - discriminate.
  - destruct _lines; [|discriminate]. rewrite update_splitlines_nil.
    eexists. reflexivity.
Qed.

Lemma recalc_Vertical v cv v' :
  vcls v = Vertical -> _canvas v = Some cv -> recalc v = Ok v' ->
  stack_loop (fun x => snd (size x)) vstretch
    (fun h ch => SubCanvas cv 0 h (width cv) ch)
    (share (remaining_height cv v) (count_true (map vstretch (children v))))
    (map (fun c => (c, fun cv' => assign_canvas cv' c)) (children v))
    (remaining_height cv v) 0
  = Ok (children v').
Proof.
  intros Hk Hcv. unfold recalc. rewrite assign_canvas_eq, Hk, Hcv. cbv zeta.
  unfold Vertical_recalc, remaining_height.
  change (children (with_canvas (Some cv) v)) with (children v).
  destruct (stack_loop _ _ _ _ _ _ _) as [cs| |]; simpl; try discriminate.
  intros H. apply Ok_inj in H. subst v'. reflexivity.
Qed.

Lemma recalc_Horizontal v cv v' :
  vcls v = Horizontal -> _canvas v = Some cv -> recalc v = Ok v' ->
  stack_loop (fun x => fst (size x)) hstretch
    (fun w cw => SubCanvas cv w 0 cw (height cv))
    (share (remaining_width cv v) (count_true (map hstretch (children v))))
    (map (fun c => (c, fun cv' => assign_canvas cv' c)) (children v))
    (remaining_width cv v) 0
  = Ok (children v').
Proof.
  intros Hk Hcv. unfold recalc. rewrite assign_canvas_eq, Hk, Hcv. cbv zeta.
  unfold Horizontal_recalc, remaining_width.
  change (children (with_canvas (Some cv) v)) with (children v).
  destruct (stack_loop _ _ _ _ _ _ _) as [cs| |]; simpl; try discriminate.
  intros H. apply Ok_inj in H. subst v'. reflexivity.
Qed.

(** C1, as amended: for a Vertical (resp. Horizontal) container on a canvas
    with [N >= 1] children whose stretch flag is set and a remaining budget
    [R >= 0], [recalc] grants the stretching children extra extent that adds
    up to the smaller of [R] and [M * round(R / N)], [M] being the number of
    stretching children whose minimum extent is not 0: never more than [R],
    and exactly [R] when [M] shares cover it.  This holds of every [recalc]
    that returns, and [recalc] does return when the tree below the
    container holds neither a Grid nor a Console with a line (the two
    classes whose [recalc] can raise on a canvas). *)
Theorem stretch_distribution v cv :
  _canvas v = Some cv ->
  (forall v', recalc v = Ok v' ->
     (vcls v = Vertical ->
      1 <= count_true (map vstretch (children v)) ->
      0 <= remaining_height cv v ->
      distributes (remaining_height cv v)
        (count_true (map vstretch (children v)))
        (count_true (map (stretches (fun x => snd (size x)) vstretch) (children v)))
        (total_granted (fun x => snd (size x)) vstretch asked_height
           (children v) (children v')))
     /\ (vcls v = Horizontal ->
         1 <= count_true (map hstretch (children v)) ->
         0 <= remaining_width cv v ->
         distributes (remaining_width cv v)
           (count_true (map hstretch (children v)))
           (count_true (map (stretches (fun x => fst (size x)) hstretch) (children v)))
           (total_granted (fun x => fst (size x)) hstretch asked_width
              (children v) (children v'))))
  /\ (plain v = true -> exists v', recalc v = Ok v').
Proof.
  intros Hcv. split.
  - intros v' Hrun. split; intros Hk HN HR; apply distributes_min; auto.
    + pose proof (recalc_Vertical v cv v' Hk Hcv Hrun) as Hloop.
      apply (stack_loop_granted _ _ _ asked_height) in Hloop.
      * rewrite map_fst_kids in Hloop. exact Hloop.
      * reflexivity.
      * apply share_nonneg; assumption.
      * apply setters_of_children.
      * exact HR.
    + pose proof (recalc_Horizontal v cv v' Hk Hcv Hrun) as Hloop.
      apply (stack_loop_granted _ _ _ asked_width) in Hloop.
      * rewrite map_fst_kids in Hloop. exact Hloop.
      * reflexivity.
      * apply share_nonneg; assumption.
      * apply setters_of_children.
      * exact HR.
  - intros Hfree. unfold recalc. rewrite Hcv. apply assign_canvas_total, Hfree.
Qed.

Lemma stretch_distribution_witness :
  (exists v', recalc two_stretchers = Ok v')
  /\ distributes 3 2 2
       (total_granted (fun x => snd (size x)) vstretch asked_height
          (children two_stretchers) (children two_stretchers_laid_out)).
Proof.
  destruct (stretch_distribution two_stretchers (Canvas 80 5) eq_refl)
    as [Hgrants Hreturns].
  split; [apply Hreturns; reflexivity|].
  apply (proj1 (Hgrants two_stretchers_laid_out eq_refl));
    [reflexivity | vm_compute; discriminate | vm_compute; discriminate].
Defined.

(** C1 as the claim has it fails by rounding down: three stretching
    children of minimum height 1 on a canvas of height 4 leave a budget of
    1, the share is [round(1 / 3) = 0], every child is granted 0, and the
    grants add up to 0, not to 1.  The same holds along the other axis. *)
Lemma stretch_leftover :
  (count_true (map vstretch (children three_stretchers)) = 3
   /\ remaining_height (Canvas 80 4) three_stretchers = 1
   /\ exists v', recalc three_stretchers = Ok v'
        /\ total_granted (fun x => snd (size x)) vstretch asked_height
             (children three_stretchers) (children v') = 0
        /\ total_granted (fun x => snd (size x)) vstretch asked_height
             (children three_stretchers) (children v')
           <> remaining_height (Canvas 80 4) three_stretchers)
  /\ (count_true (map hstretch (children three_stretchers_h)) = 3
      /\ remaining_width (Canvas 4 24) three_stretchers_h = 1
      /\ exists v', recalc three_stretchers_h = Ok v'
           /\ total_granted (fun x => fst (size x)) hstretch asked_width
                (children three_stretchers_h) (children v') = 0
           /\ total_granted (fun x => fst (size x)) hstretch asked_width
                (children three_stretchers_h) (children v')
              <> remaining_width (Canvas 4 24) three_stretchers_h).
Proof.
  split; (split; [reflexivity|]; split; [reflexivity|]; eexists;
          split; [vm_compute; reflexivity|split; [reflexivity|discriminate]]).
Qed.

Lemma assign_canvas_leaf cv v :
  inherits_recalc v = true -> assign_canvas cv v = Ok (with_canvas cv v).
Proof.
  intros Hl. rewrite assign_canvas_eq. unfold inherits_recalc in Hl.
  destruct (vcls v); try discriminate; reflexivity.
Qed.

(** C3, as amended: a Vertical on a canvas of height 10 with three
    children of minimum heights 2, 0 and 3, the middle one alone
    stretching, the first and the third of a class that takes [recalc] from
    [View] (a View, Spacer or HLine, or a widget other than Console), gives
    the first child a canvas of height 2 at offset 0 and the third a canvas
    of height 3 at offset 2, and returns; the middle child, whose minimum
    height is 0, is skipped by the loop whatever its class and keeps
    whatever canvas it had (none for a fresh view). *)
Theorem Vertical_scenario v cv a b c :
  vcls v = Vertical -> _canvas v = Some cv -> height cv = 10 ->
  children v = [a; b; c] ->
  inherits_recalc a = true -> inherits_recalc c = true ->
  snd (size a) = 2 -> snd (size b) = 0 -> snd (size c) = 3 ->
  vstretch a = false -> vstretch b = true -> vstretch c = false ->
  let ca := SubCanvas cv 0 0 (width cv) 2 in
  let cc := SubCanvas cv 0 2 (width cv) 3 in
  recalc v = Ok (with_children
                   [with_canvas (Some ca) a; b; with_canvas (Some cc) c] v)
  /\ height ca = 2 /\ height cc = 3.
Proof.
  intros Hk Hcv Hh Hcs La Lc Ha Hb Hc Sa Sb Sc ca cc. split.
  - unfold recalc. rewrite assign_canvas_eq, Hk, Hcv. cbv zeta.
    unfold Vertical_recalc.
    change (children (with_canvas (Some cv) v)) with (children v).
    rewrite Hcs. simpl map. rewrite Sa, Sb, Sc, Ha, Hb, Hc, Hh.
    change (count_true [false; true; false]) with 1.
    change (10 - py_sum [2; 0; 3]) with 5.
    change (share 5 1) with 5.
    simpl stack_loop. rewrite Ha, Hb, Hc, Sa, Sc. simpl.
    rewrite !assign_canvas_leaf by assumption. simpl.
    f_equal. destruct v; simpl in *. subst. reflexivity.
  - unfold ca, cc. simpl. rewrite Hh. unfold clamp. lia.
Qed.

Lemma Vertical_scenario_witness :
  recalc scenario_A
  = Ok (with_children
          [with_canvas (Some (SubCanvas (Canvas 80 10) 0 0 80 2))
             (Spacer 1 1 2 false false);
           Spacer 2 1 0 false true;
           with_canvas (Some (SubCanvas (Canvas 80 10) 0 2 80 3))
             (Spacer 3 1 3 false false)] scenario_A)
  /\ height (SubCanvas (Canvas 80 10) 0 0 80 2) = 2
  /\ height (SubCanvas (Canvas 80 10) 0 2 80 3) = 3.
Proof.
  apply (Vertical_scenario scenario_A (Canvas 80 10)
           (Spacer 1 1 2 false false) (Spacer 2 1 0 false true)
           (Spacer 3 1 3 false false)); reflexivity.
Defined.

(** C3 as the claim has it fails on the middle child: the loop skips a
    child whose minimum height is 0, so that child is assigned no canvas at
    all, and none of height 5. *)
Lemma Vertical_scenario_middle_skipped :
  exists v', recalc scenario_A = Ok v'
    /\ map _canvas (children v')
       = [Some (SubCanvas (Canvas 80 10) 0 0 80 2); None;
          Some (SubCanvas (Canvas 80 10) 0 2 80 3)].
Proof. eexists. split; [vm_compute; reflexivity|reflexivity]. Qed.

Lemma dirty_set_dirty_false : forall v, dirty (fst (set_dirty false v)) = false.
Proof.
  apply view_induction. intros v IH.
  destruct v as [id k z f fa vs hs dp d cv sc cs]. simpl in IH.
  assert (Hcs : existsb dirty (map fst (map (set_dirty false) cs)) = false).
  { induction IH as [|c cs Hc _ IHcs]; simpl; [reflexivity|].
    rewrite Hc. exact IHcs. }
  destruct k; simpl; try reflexivity; exact Hcs.
Qed.

Lemma children_set_dirty d v :
  is_container v = true ->
  children (fst (set_dirty d v)) = map (fun c => fst (set_dirty d c)) (children v).
Proof.
  destruct v as [id k z f fa vs hs dp dd cv sc cs]. unfold is_container. simpl.
  destruct k; try discriminate; intros _; simpl; apply map_map.
Qed.

Lemma collect_Forall2 {A B : Type} (f : A -> res B) (l : list A) : forall cs,
  collect (map f l) = Ok cs -> Forall2 (fun a c => f a = Ok c) l cs.
Proof.
  induction l as [|a l IH]; intros cs; simpl.
  - intros H. apply Ok_inj in H. subst. constructor.
  - destruct (f a) as [c| |] eqn:Ha; simpl; try discriminate.
    destruct (collect (map f l)) as [rest| |]; simpl; try discriminate.
    intros H. apply Ok_inj in H. subst. constructor; auto.
Qed.

(** A layout variant does not assign its own [_dirty]. *)
Lemma layout_keeps_own_dirty cv v v' :
  is_layout v = true -> assign_canvas cv v = Ok v' ->
  _dirty v' = _dirty v /\ vcls v' = vcls v.
Proof.
  unfold is_layout. rewrite assign_canvas_eq. cbv zeta.
  set (kids := map _ (children v)). clearbody kids.
  destruct (vcls v) eqn:Hk; try discriminate; intros _.
  - unfold Align_recalc. destruct cv as [c|]; [|discriminate].
    destruct (assign_all _ _) as [cs| |]; simpl; try discriminate.
    intros [= <-]. split; [reflexivity|exact Hk].
  - unfold Box_recalc. destruct cv as [c|]; [|discriminate].
    destruct (assign_all _ _) as [cs| |]; simpl; try discriminate.
    intros [= <-]. split; [reflexivity|exact Hk].
  - unfold Vertical_recalc. destruct cv as [c|]; [|discriminate].
    destruct (stack_loop _ _ _ _ _ _ _) as [cs| |]; simpl; try discriminate.
    intros [= <-]. split; [reflexivity|exact Hk].
  - unfold Horizontal_recalc. destruct cv as [c|]; [|discriminate].
    destruct (stack_loop _ _ _ _ _ _ _) as [cs| |]; simpl; try discriminate.
    intros [= <-]. split; [reflexivity|exact Hk].
  - unfold Grid_recalc.
    destruct (for_each _ _ _) as [st| |]; simpl; try discriminate.
    intros [= <-]. split; [reflexivity|exact Hk].
Qed.

Lemma dirty_of_own v : is_container v = true -> _dirty v = true -> dirty v = true.
Proof. intros Hc Hd. destruct v. simpl in *. rewrite Hc, Hd. reflexivity. Qed.

(** C2, as amended: [recalc] on a plain ContainerView (the class itself, whose
    [recalc] is not overridden) that is dirty and has a canvas, when it
    returns, leaves the [dirty] property false, and every child (the
    children are the same views, sorted by z-index) with the canvas of the
    container itself as its canvas, which therefore does not extend beyond
    the container's.  A layout variant (Align, Box, Vertical, Horizontal,
    Grid) has a [recalc] of its own that does not assign its [_dirty]: one
    whose own flag is set still reads dirty after a [recalc] that returns.
    [recalc] does return when the tree below the container holds neither a
    Grid nor a Console with a line. *)
Theorem ContainerView_recalc_clean v cv :
  _canvas v = Some cv ->
  (vcls v = ContainerView -> dirty v = true ->
   forall v', recalc v = Ok v' ->
     dirty v' = false
     /\ map vid (children v') ≡ₚ map vid (children v)
     /\ Forall (fun c => _canvas c = Some cv
                         /\ forall k, _canvas c = Some k ->
                              width k <= width cv /\ height k <= height cv)
          (children v'))
  /\ (is_layout v = true -> _dirty v = true ->
      forall v', recalc v = Ok v' -> _dirty v' = true /\ dirty v' = true)
  /\ (plain v = true -> exists v', recalc v = Ok v').
Proof.
  intros Hcv. split; [|split].
  2:{ intros Hlay Hd v' Hrun. unfold recalc in Hrun.
      destruct (layout_keeps_own_dirty _ v v' Hlay Hrun) as [Hown Hcls].
      rewrite Hd in Hown. split; [exact Hown|].
      apply dirty_of_own; [|exact Hown].
      unfold is_container. rewrite Hcls. unfold is_layout in Hlay.
      destruct (vcls v); try discriminate; reflexivity. }
  2:{ intros Hfree. unfold recalc. rewrite Hcv.
      apply assign_canvas_total, Hfree. }
  intros Hk Hd v'. unfold recalc.
  rewrite assign_canvas_eq, Hk, Hcv. cbv zeta. unfold ContainerView_recalc.
  replace (dirty (with_canvas (Some cv) v)) with true
    by (rewrite <- Hd; destruct v; reflexivity).
  unfold assign_all.
  set (kids := sort_by_zindex _).
  destruct (collect _) as [cs| |] eqn:Hcol; unfold mbind, result_bind;
    try discriminate.
  intros H. apply Ok_inj in H. subst v'.
  apply collect_Forall2 in Hcol.
  assert (Hkids : Forall (fun k : kid => forall c', snd k (Some cv) = Ok c' ->
                            _canvas c' = Some cv /\ vid c' = vid (fst k)) kids).
  { unfold kids. rewrite sort_by_zindex_perm. apply Forall_forall.
    intros k Hin c' Hrun. apply list_elem_of_fmap in Hin as (c & -> & _).
    simpl in *. apply assign_canvas_fields in Hrun. exact Hrun. }
  assert (Hvid : map vid cs = map (fun k : kid => vid (fst k)) kids
                 /\ Forall (fun c => _canvas c = Some cv) cs).
  { clear -Hcol Hkids. induction Hcol as [|k c kids cs Hrun _ IH]; simpl.
    - split; constructor.
    - apply Forall_cons in Hkids as [Hk Hkids].
      destruct (Hk c Hrun) as [Hc Hi]. destruct (IH Hkids) as [IH1 IH2].
      split; [congruence|constructor; assumption]. }
  destruct Hvid as [Hvid Hcan].
  split; [apply dirty_set_dirty_false|].
  rewrite children_set_dirty by (unfold is_container; simpl; rewrite Hk; reflexivity).
  simpl children. split.
  - rewrite map_map.
    transitivity (map vid cs).
    { apply eq_subrelation; [typeclasses eauto|]. apply map_ext. intros c.
      apply (set_dirty_fields false c). }
    rewrite Hvid. unfold kids.
    etransitivity; [apply Permutation_map, sort_by_zindex_perm|].
    apply eq_subrelation; [typeclasses eauto|].
    clear. induction (children v) as [|c l IH]; simpl; congruence.
  - apply Forall_map. eapply Forall_impl; [exact Hcan|].
    intros c Hc. simpl.
    destruct (set_dirty_fields false c) as (Hc' & _ & _).
    rewrite Hc', Hc. split; [reflexivity|].
    intros k [= <-]. lia.
Qed.

Lemma ContainerView_recalc_clean_witness :
  exists v', recalc dirty_container = Ok v'
    /\ dirty v' = false
    /\ map vid (children v') ≡ₚ map vid (children dirty_container)
    /\ Forall (fun c => _canvas c = Some (Canvas 80 24)
                        /\ forall k, _canvas c = Some k ->
                             width k <= width (Canvas 80 24)
                             /\ height k <= height (Canvas 80 24))
         (children v').
Proof.
  destruct (ContainerView_recalc_clean dirty_container (Canvas 80 24) eq_refl)
    as (Hclean & _ & Hreturns).
  destruct (Hreturns eq_refl) as [v' Hrun].
  exists v'. split; [exact Hrun|]. apply (Hclean eq_refl eq_refl), Hrun.
Defined.

(** C2 as the claim has it fails for the containers that override
    [recalc]: a Vertical is a ContainerView, this one is dirty and has a
    canvas and children, and after its [recalc] the [dirty] property still
    reads true.  None of the layout variants assigns its own [_dirty]; it
    is the [recalc] of a plain ContainerView above them that clears it, for
    its whole subtree. *)
Lemma Vertical_recalc_keeps_dirty :
  is_container two_stretchers = true
  /\ dirty two_stretchers = true
  /\ _canvas two_stretchers = Some (Canvas 80 5)
  /\ recalc two_stretchers = Ok two_stretchers_laid_out
  /\ dirty two_stretchers_laid_out = true.
Proof. repeat split; reflexivity. Qed.

End LayoutProps.

(** ** Grid, continued *)

Module GridMore.
Import GridProps.

Lemma tracks_total_seg tr i span :
  (i + Z.to_nat span <= length tr)%nat ->
  tracks_total tr i span = Ok (seg_sum tr i (Z.to_nat span)).
Proof.
  unfold tracks_total. generalize (Z.to_nat span) as n. intros n Hlen.
  assert (H : forall a acc, (i + a + n <= length tr)%nat ->
            for_each (seq a n)
              (fun oc tot => match tr !! (i + oc)%nat with
                             | Some x => Ok (tot + x)
                             | None => Raise IndexError
                             end) acc
            = (Ok (acc + seg_sum tr (i + a) n) : res Z)).
  { clear Hlen. induction n as [|n IH]; intros a acc Hlen; simpl.
    - f_equal. lia.
    - destruct (lookup_lt_is_Some_2 tr (i + a)) as [x Hx]; [lia|].
      rewrite Hx. simpl. rewrite IH by lia.
      replace (i + S a)%nat with (S (i + a)) by lia. f_equal. lia. }
  rewrite (H 0%nat 0) by lia. rewrite Nat.add_0_r. reflexivity.
Qed.

Lemma tracks_total_in_range tr i span tot :
  0 < span ->
  tracks_total tr i span = Ok tot -> (i + Z.to_nat span <= length tr)%nat.
Proof.
  intros Hspan. assert (Hpos : Z.to_nat span <> 0%nat) by lia. revert Hpos.
  unfold tracks_total. generalize (Z.to_nat span) as n. intros n Hpos.
  assert (H : forall a acc tot,
            for_each (seq a n)
              (fun oc tot => match tr !! (i + oc)%nat with
                             | Some x => Ok (tot + x)
                             | None => Raise IndexError
                             end) acc = (Ok tot : res Z) ->
            n = 0%nat \/ (i + a + n <= length tr)%nat).
  { clear Hpos. induction n as [|n IH]; intros a acc t; simpl; [auto|].
    destruct (tr !! (i + a)%nat) as [x|] eqn:Hx; simpl; [|discriminate].
    intros Hrun. right. apply IH in Hrun.
    apply lookup_lt_Some in Hx. lia. }
  intros Hrun. apply H in Hrun. lia.
Qed.

Lemma seg_sum_gain g tr tr' : forall n i,
  (forall j, tr' !! j = (fun x => x + g j) <$> tr !! j) ->
  (i + n <= length tr)%nat ->
  seg_sum tr' i n = seg_sum tr i n + gsum g i n.
Proof.
  induction n as [|n IH]; intros i Hp Hlen; simpl; [lia|].
  rewrite (IH (S i) Hp) by lia. rewrite Hp.
  destruct (lookup_lt_is_Some_2 tr i) as [x Hx]; [lia|].
  rewrite Hx. simpl. lia.
Qed.

Lemma gsum_spanned i span over : forall n i0,
  0 < span -> (i <= i0)%nat -> Z.of_nat i0 + Z.of_nat n <= Z.of_nat i + span ->
  gsum (spanned_gain i span over) i0 n
  = Z.of_nat n * (over / span)
    + Z.max 0 (Z.of_nat i0 + Z.of_nat n
               - Z.max (Z.of_nat i0) (Z.of_nat i + span - over mod span)).
Proof.
  intros n i0 Hspan. revert i0.
  induction n as [|n IH]; intros i0 Hi Hend; simpl gsum.
  - pose proof (Z.mod_pos_bound over span Hspan). lia.
  - rewrite IH by lia. unfold spanned_gain.
    pose proof (Z.mod_pos_bound over span Hspan).
    destruct (Z.leb_spec (Z.of_nat i) (Z.of_nat i0)); [|lia].
    destruct (Z.ltb_spec (Z.of_nat i0) (Z.of_nat i + span)); [|lia].
    simpl andb. cbv iota.
    destruct (Z.leb_spec (Z.of_nat i + span - over mod span) (Z.of_nat i0)); lia.
Qed.

(** What [grow_tracks] does to every track of a cell that is short. *)
Lemma grow_tracks_pointwise tr i span need tot :
  0 < span ->
  (i + Z.to_nat span <= length tr)%nat ->
  tracks_total tr i span = Ok tot ->
  tot < need ->
  exists tr', grow_tracks tr i span need = Ok tr'
    /\ length tr' = length tr
    /\ forall j, tr' !! j
         = (fun x => x + spanned_gain i span (need - tot) j) <$> tr !! j.
Proof.
  intros Hspan Hlen Htot Hshort.
  unfold grow_tracks. rewrite Htot. simpl.
  destruct (Z.ltb_spec tot need) as [_|?]; [|lia].
  set (over := need - tot).
  assert (Hn : Z.of_nat (Z.to_nat span) = span) by lia.
  unfold grow_evenly.
  destruct (grow_evenly_spec i (over / span) (Z.to_nat span) 0%nat tr over)
    as (tr1 & E1 & L1 & P1); [lia|].
  rewrite E1. simpl.
  assert (Hmod : over - Z.of_nat (Z.to_nat span) * (over / span) = over mod span).
  { rewrite Hn, Z.mod_eq by lia. reflexivity. }
  rewrite Hmod.
  assert (Hr := Z.mod_pos_bound over span Hspan).
  destruct (grow_rest_spec i (Z.to_nat span - 1) tr1 (over mod span))
    as (tr2 & E2 & L2 & P2); [lia|lia|].
  rewrite E2. exists tr2. split; [reflexivity|]. split; [congruence|].
  intros j. rewrite P2, P1. destruct (tr !! j); simpl; f_equal.
  unfold spanned_gain.
  destruct (Z.leb_spec (Z.of_nat i) (Z.of_nat j)),
    (Z.ltb_spec (Z.of_nat j) (Z.of_nat i + span)),
    (Z.leb_spec (Z.of_nat i + span - over mod span) (Z.of_nat j));
    simpl; repeat destruct (decide _); lia.
Qed.

Lemma spanned_gain_nonneg i span over j :
  0 < span -> 0 <= over -> 0 <= spanned_gain i span over j.
Proof.
  intros Hs Ho. unfold spanned_gain.
  assert (0 <= over / span) by (apply Z.div_pos; lia).
  repeat match goal with |- context [if ?b then _ else _] => destruct b end; lia.
Qed.

Lemma spanned_gain_outside i span over j :
  (j < i)%nat \/ Z.of_nat i + span <= Z.of_nat j -> spanned_gain i span over j = 0.
Proof.
  intros H. unfold spanned_gain.
  destruct (Z.leb_spec (Z.of_nat i) (Z.of_nat j)),
    (Z.ltb_spec (Z.of_nat j) (Z.of_nat i + span)); simpl; lia.
Qed.

Lemma grow_tracks_total tr i span need tot :
  0 < span ->
  tracks_total tr i span = Ok tot ->
  exists tr', grow_tracks tr i span need = Ok tr'
    /\ tracks_total tr' i span = Ok (Z.max tot need)
    /\ grown tr tr'
    /\ (forall j, (j < i)%nat \/ Z.of_nat i + span <= Z.of_nat j ->
                  tr' !! j = tr !! j).
Proof.
  intros Hspan Htot.
  pose proof (tracks_total_in_range tr i span tot Hspan Htot) as Hlen.
  destruct (Z.lt_ge_cases tot need) as [Hshort|Hfits].
  - destruct (grow_tracks_pointwise tr i span need tot Hspan Hlen Htot Hshort)
      as (tr' & Hrun & Hl & Hp).
    exists tr'. split; [exact Hrun|]. split; [|split].
    + rewrite tracks_total_seg by lia.
      rewrite (seg_sum_gain _ tr tr' _ _ Hp Hlen).
      rewrite tracks_total_seg in Htot by exact Hlen.
      injection Htot as Htot. rewrite Htot.
      rewrite gsum_spanned by lia.
      f_equal.
      pose proof (Z.mod_pos_bound (need - tot) span Hspan).
      pose proof (Z.div_mod (need - tot) span ltac:(lia)).
      replace (Z.of_nat (Z.to_nat span)) with span by lia. lia.
    + unfold grown. apply Forall2_same_length_lookup. split; [congruence|].
      intros j x y Hx Hy. rewrite Hp, Hx in Hy. simpl in Hy.
      injection Hy as <-.
      pose proof (spanned_gain_nonneg i span (need - tot) j Hspan ltac:(lia)).
      lia.
    + intros j Hj. rewrite Hp, (spanned_gain_outside i span _ j Hj).
      destruct (tr !! j); simpl; f_equal; lia.
  - exists tr. unfold grow_tracks. rewrite Htot. simpl.
    destruct (Z.ltb_spec tot need); [lia|].
    split; [reflexivity|]. split; [f_equal; lia|].
    split; [|reflexivity].
    unfold grown. apply Forall2_same_length_lookup. split; [reflexivity|].
    intros j x y Hx Hy. rewrite Hx in Hy. injection Hy as <-. lia.
Qed.


Lemma grown_refl tr : grown tr tr.
Proof. unfold grown. apply Forall2_same_length_lookup. split; [reflexivity|].
  intros j x y Hx Hy. rewrite Hx in Hy. injection Hy as <-. lia. Qed.

Lemma grown_trans tr1 tr2 tr3 : grown tr1 tr2 -> grown tr2 tr3 -> grown tr1 tr3.
Proof.
  unfold grown. intros H1 H2.
  eapply (Forall2_trans Z.le Z.le Z.le); [|exact H1|exact H2].
  intros x y z Hxy Hyz. lia.
Qed.

Lemma grown_length tr tr' : grown tr tr' -> length tr' = length tr.
Proof. intros H. symmetry. apply (Forall2_length _ _ _ H). Qed.

Lemma seg_sum_grown tr tr' : grown tr tr' -> forall n i,
  seg_sum tr i n <= seg_sum tr' i n.
Proof.
  intros H. induction n as [|n IH]; intros i; simpl; [lia|].
  specialize (IH (S i)).
  destruct (tr !! i) as [x|] eqn:Hx.
  - destruct (Forall2_lookup_l _ _ _ _ _ H Hx) as (y & Hy & Hxy).
    rewrite Hy. simpl. lia.
  - assert (Hy : tr' !! i = None).
    { apply lookup_ge_None. rewrite (grown_length _ _ H).
      apply lookup_ge_None. exact Hx. }
    rewrite Hy. simpl. lia.
Qed.

Lemma covers_grown tr tr' i span need :
  covers tr i span need -> grown tr tr' -> covers tr' i span need.
Proof.
  intros (tot & Htot & Hle) Hg. unfold covers.
  destruct (Z.lt_ge_cases 0 span) as [Hpos|Hneg].
  - pose proof (tracks_total_in_range tr i span tot Hpos Htot) as Hlen.
    rewrite tracks_total_seg in Htot by exact Hlen. injection Htot as <-.
    exists (seg_sum tr' i (Z.to_nat span)). split.
    + apply tracks_total_seg. rewrite (grown_length _ _ Hg). exact Hlen.
    + pose proof (seg_sum_grown tr tr' Hg (Z.to_nat span) i). lia.
  - exists tot. split; [|exact Hle]. unfold tracks_total in *.
    replace (Z.to_nat span) with 0%nat in * by lia. exact Htot.
Qed.

(** A loop whose every step lets the allocation grow and covers what it
    handles has covered, at its end, all it has handled. *)
Lemma for_each_grown {A : Type} (n : nat) (body : A -> list Z -> res (list Z))
    (Q : A -> list Z -> Prop) (l : list A) :
  (forall a tr tr', Q a tr -> grown tr tr' -> Q a tr') ->
  (forall a tr, a ∈ l -> length tr = n ->
     exists tr', body a tr = Ok tr' /\ grown tr tr' /\ Q a tr') ->
  forall tr, length tr = n ->
    exists tr', for_each l body tr = Ok tr' /\ grown tr tr'
      /\ forall a, a ∈ l -> Q a tr'.
Proof.
  intros Hmono. induction l as [|a l IH]; intros Hstep tr Hlen; simpl.
  - exists tr. split; [reflexivity|]. split; [apply grown_refl|].
    intros a Ha. inversion Ha.
  - destruct (Hstep a tr) as (tr1 & E1 & G1 & Q1); [left|exact Hlen|].
    rewrite E1. simpl.
    destruct IH with (tr := tr1) as (tr2 & E2 & G2 & Q2).
    + intros b tr0 Hb. apply Hstep. right. exact Hb.
    + rewrite (grown_length _ _ G1). exact Hlen.
    + exists tr2. split; [exact E2|]. split; [eapply grown_trans; eauto|].
      intros b Hb. apply elem_of_cons in Hb as [->|Hb]; [|auto].
      eapply Hmono; eauto.
Qed.

(** X1: the body that [Grid.precalc] runs for a cell leaves the tracks the
    cell spans with a total of exactly the child's need when they were
    short of it, and as they were otherwise; no track shrinks and the
    tracks outside the span keep their size. *)
Theorem grow_tracks_exact tr i span need tot :
  0 < span ->
  tracks_total tr i span = Ok tot ->
  exists tr', grow_tracks tr i span need = Ok tr'
    /\ tracks_total tr' i span = Ok (Z.max tot need)
    /\ grown tr tr'
    /\ (forall j, (j < i)%nat \/ Z.of_nat i + span <= Z.of_nat j ->
                  tr' !! j = tr !! j).
Proof. apply grow_tracks_total. Qed.

Lemma grow_tracks_exact_witness :
  exists tr', grow_tracks [3; 1; 0; 2] 1 3 11 = Ok tr'
    /\ tracks_total tr' 1 3 = Ok (Z.max 3 11)
    /\ grown [3; 1; 0; 2] tr'
    /\ (forall j, (j < 1)%nat \/ Z.of_nat 1 + 3 <= Z.of_nat j ->
                  tr' !! j = [3; 1; 0; 2] !! j).
Proof.
  apply (grow_tracks_exact [3; 1; 0; 2] 1 3 11 3); [lia|reflexivity].
Defined.


Section Pass.
Variables (n : Z) (span_of : cell -> Z) (need_of : cell -> res Z).
Variable lines : list (list (option cell)).

(** Every cell that the pass handles has a child to ask and ends within the
    table. *)
Hypothesis well_placed : forall i line ch,
  lines !! i = Some line -> Some ch ∈ line -> 1 <= span_of ch <= n ->
  (exists need, need_of ch = Ok need) /\ Z.of_nat i + span_of ch <= n.

(** The step for one cell of line [i] while the pass handles span [s]. *)
Lemma cell_step_covers s i line c tr :
  1 <= s <= n -> lines !! i = Some line -> c ∈ line ->
  length tr = Z.to_nat n ->
  exists tr',
    match c with
    | None => Ok tr
    | Some ch =>
        if negb (span_of ch =? s) then Ok tr
        else need ← need_of ch; grow_tracks tr i s need
    end = Ok tr'
    /\ grown tr tr'
    /\ forall ch need, c = Some ch -> span_of ch = s ->
         need_of ch = Ok need -> covers tr' i s need.
Proof.
  intros Hs Hline Hc Hlen. destruct c as [ch|].
  - destruct (Z.eqb_spec (span_of ch) s) as [Heq|Hne]; simpl.
    + destruct (well_placed i line ch Hline Hc) as [[need Hneed] Hend]; [lia|].
      rewrite Hneed. simpl.
      assert (Htot : tracks_total tr i s = Ok (seg_sum tr i (Z.to_nat s)))
        by (apply tracks_total_seg; lia).
      destruct (grow_tracks_total tr i s need _ ltac:(lia) Htot)
        as (tr' & Erun & Etot & Hg & _).
      exists tr'. split; [exact Erun|]. split; [exact Hg|].
      intros ch' need' [= <-] _ Hn. rewrite Hneed in Hn. injection Hn as <-.
      eexists. split; [exact Etot|]. lia.
    + exists tr. split; [reflexivity|]. split; [apply grown_refl|].
      intros ch' need' [= <-] Hs'. contradiction.
  - exists tr. split; [reflexivity|]. split; [apply grown_refl|].
    intros ch need Hc'. discriminate.
Qed.

Lemma size_tracks_covers :
  exists tr, size_tracks n lines span_of need_of = Ok tr
    /\ length tr = Z.to_nat n
    /\ forall i line ch need,
         lines !! i = Some line -> Some ch ∈ line -> 1 <= span_of ch <= n ->
         need_of ch = Ok need -> covers tr i (span_of ch) need.
Proof.
  unfold size_tracks.
  set (Q := fun (s : Z) (tr : list Z) =>
              forall i line ch need,
                lines !! i = Some line -> Some ch ∈ line -> span_of ch = s ->
                need_of ch = Ok need -> covers tr i s need).
  match goal with |- context [for_each ?l ?b (replicate _ _)] =>
    destruct (for_each_grown (Z.to_nat n) b Q l)
      with (tr := replicate (Z.to_nat n) 0)
      as (tr & Erun & Hg & HQ); [| |apply length_replicate|]
  end.
  { intros s tr tr' Hq Hgr i line ch need Hl Hc Hs Hn.
    eapply covers_grown; [|exact Hgr]. eapply Hq; eauto. }
  2:{ exists tr. split; [exact Erun|]. split.
      - rewrite (grown_length _ _ Hg). apply length_replicate.
      - intros i line ch need Hl Hc Hs Hn.
        assert (Hin : span_of ch ∈ map (fun k => Z.of_nat k) (seq 1 (Z.to_nat n))).
        { apply list_elem_of_fmap. exists (Z.to_nat (span_of ch)).
          split; [lia|]. apply list_elem_of_In, in_seq. lia. }
        pose proof (HQ _ Hin) as Hq. unfold Q in Hq. eapply Hq; eauto. }
  intros s tr Hs Hlen.
  apply list_elem_of_fmap in Hs as (k & -> & Hk).
  apply list_elem_of_In, in_seq in Hk.
  set (Q2 := fun (p : nat * list (option cell)) (tr : list Z) =>
               forall ch need, Some ch ∈ snd p -> span_of ch = Z.of_nat k ->
                 need_of ch = Ok need -> covers tr (fst p) (Z.of_nat k) need).
  match goal with |- context [for_each ?l ?b tr] =>
    destruct (for_each_grown (Z.to_nat n) b Q2 l) with (tr := tr)
      as (tr' & Erun & Hg & HQ); [| |exact Hlen|]
  end.
  { intros p tr0 tr1 Hq Hgr ch need Hc Hsp Hn.
    eapply covers_grown; [|exact Hgr]. eapply Hq; eauto. }
  2:{ exists tr'. split; [exact Erun|]. split; [exact Hg|].
      intros i line ch need Hl Hc Hsp Hn.
      pose proof (HQ (i, line)
                    (elem_of_lookup_imap_2 (fun i line => (i, line))
                       lines line i Hl)) as Hq.
      unfold Q2 in Hq. simpl in Hq. eapply Hq; eauto. }
  intros [i line] tr0 Hp Hlen0.
  apply elem_of_lookup_imap_1 in Hp as (i' & line' & [= -> ->] & Hl).
  set (Q3 := fun (c : option cell) (tr : list Z) =>
               forall ch need, c = Some ch -> span_of ch = Z.of_nat k ->
                 need_of ch = Ok need -> covers tr i' (Z.of_nat k) need).
  match goal with |- context [for_each ?l ?b tr0] =>
    destruct (for_each_grown (Z.to_nat n) b Q3 l) with (tr := tr0)
      as (tr1 & Erun & Hg & HQ); [| |exact Hlen0|]
  end.
  { intros c tr1 tr2 Hq Hgr ch need Hc Hsp Hn.
    eapply covers_grown; [|exact Hgr]. eapply Hq; eauto. }
  2:{ exists tr1. split; [exact Erun|]. split; [exact Hg|].
      intros ch need Hc Hsp Hn. simpl in *.
      pose proof (HQ (Some ch) Hc) as Hq. unfold Q3 in Hq. eapply Hq; eauto. }
  intros c tr1 Hc Hlen1.
  apply (cell_step_covers (Z.of_nat k) i' line' c tr1); auto. lia.
Qed.
End Pass.


Lemma precalc_Grid v g : vcls v = Grid g -> precalc v = Grid_precalc v g.
Proof. destruct v as [? k ? ? ? ? ? ? ? ? ? ?]. simpl. intros ->. reflexivity. Qed.

Lemma py_zip_elem {A : Type} (n : nat) : forall (rows : list (list A)) col x,
  col ∈ py_zip n rows -> x ∈ col -> exists row, row ∈ rows /\ x ∈ row.
Proof.
  induction n as [|n IH]; intros rows col x Hcol Hx; simpl in Hcol.
  - inversion Hcol.
  - destruct (mapM head rows) as [hs|] eqn:Hhs; [|inversion Hcol].
    apply elem_of_cons in Hcol as [->|Hcol].
    + apply mapM_Some in Hhs.
      apply list_elem_of_lookup in Hx as [j Hj].
      destruct (Forall2_lookup_r _ _ _ _ _ Hhs Hj) as (row & Hrow & Hhead).
      exists row. split; [apply list_elem_of_lookup; eauto|].
      destruct row as [|y row]; simpl in Hhead; [discriminate|].
      injection Hhead as ->. left.
    + destruct (IH _ _ _ Hcol Hx) as (row' & Hrow' & Hx').
      apply list_elem_of_fmap in Hrow' as (row & -> & Hrow).
      exists row. split; [exact Hrow|].
      destruct row as [|y row]; simpl in Hx'; [exact Hx'|]. right. exact Hx'.
Qed.

Lemma columns_elem {A : Type} (rows : list (list A)) col x :
  col ∈ columns rows -> x ∈ col -> exists row, row ∈ rows /\ x ∈ row.
Proof.
  unfold columns. destruct rows as [|r rows]; [intros H; inversion H|].
  apply py_zip_elem.
Qed.

(** X2: [Grid.precalc] on a grid whose cells name children of the grid and
    end within the table returns, with one width per column and one height
    per row, and for every cell whose span is one the passes handle
    (1 .. width, 1 .. height) the columns it spans add up to at least the
    child's minimum width and the rows to at least its minimum height: the
    condition that [Grid.recalc] asserts. *)
Theorem Grid_precalc_covers v g :
  vcls v = Grid g ->
  (forall row ch, row ∈ grid g -> Some ch ∈ row ->
     exists sz, child_size (children v) (child ch) = Ok sz) ->
  (forall ri row ch, grid g !! ri = Some row -> Some ch ∈ row ->
     placed (gheight g) (rowspan ch) ri) ->
  (forall ci col ch, columns (grid g) !! ci = Some col -> Some ch ∈ col ->
     placed (gwidth g) (colspan ch) ci) ->
  exists v' cws rhs,
    precalc v = Ok v'
    /\ vcls v' = Grid (mkGrid (gwidth g) (gheight g) (grid g) (Some cws)
                         (Some rhs) (py_sum cws, py_sum rhs))
    /\ length cws = Z.to_nat (gwidth g)
    /\ length rhs = Z.to_nat (gheight g)
    /\ (forall ci col ch sz,
          columns (grid g) !! ci = Some col -> Some ch ∈ col ->
          1 <= colspan ch <= gwidth g ->
          child_size (children v) (child ch) = Ok sz ->
          covers cws ci (colspan ch) (fst sz))
    /\ (forall ri row ch sz,
          grid g !! ri = Some row -> Some ch ∈ row ->
          1 <= rowspan ch <= gheight g ->
          child_size (children v) (child ch) = Ok sz ->
          covers rhs ri (rowspan ch) (snd sz)).
Proof.
  intros Hk Hkids Hrows Hcols. rewrite (precalc_Grid v g Hk). unfold Grid_precalc.
  destruct (size_tracks_covers (gwidth g) colspan
              (fun ch => sz ← child_size (children v) (child ch); Ok (fst sz))
              (columns (grid g)))
    as (cws & Ecws & Lcws & Ccws).
  { intros ci col ch Hcol Hch Hspan. split; [|apply (Hcols ci col ch); auto].
    destruct (columns_elem (grid g) col (Some ch)) as (row & Hrow & Hin);
      [apply list_elem_of_lookup; eauto|exact Hch|].
    destruct (Hkids row ch Hrow Hin) as [sz Hsz]. exists (fst sz).
    rewrite Hsz. reflexivity. }
  destruct (size_tracks_covers (gheight g) rowspan
              (fun ch => sz ← child_size (children v) (child ch); Ok (snd sz))
              (grid g))
    as (rhs & Erhs & Lrhs & Crhs).
  { intros ri row ch Hrow Hch Hspan. split; [|apply (Hrows ri row ch); auto].
    destruct (Hkids row ch) as [sz Hsz];
      [apply list_elem_of_lookup; eauto|exact Hch|].
    exists (snd sz). rewrite Hsz. reflexivity. }
  rewrite Ecws. simpl. rewrite Erhs. simpl.
  eexists. exists cws, rhs. split; [reflexivity|].
  split; [reflexivity|]. split; [exact Lcws|]. split; [exact Lrhs|]. split.
  - intros ci col ch sz Hcol Hch Hspan Hsz.
    apply (Ccws ci col ch (fst sz) Hcol Hch Hspan). rewrite Hsz. reflexivity.
  - intros ri row ch sz Hrow Hch Hspan Hsz.
    apply (Crhs ri row ch (snd sz) Hrow Hch Hspan). rewrite Hsz. reflexivity.
Qed.

Lemma Grid_precalc_covers_witness :
  exists v' cws rhs,
    precalc spanning_grid = Ok v'
    /\ vcls v' = Grid (mkGrid 2 2 [[Some (mkCell 7 2 1); None]; [None; None]]
                         (Some cws) (Some rhs) (py_sum cws, py_sum rhs))
    /\ length cws = 2%nat /\ length rhs = 2%nat
    /\ covers cws 0 2 10 /\ covers rhs 0 1 1.
Proof.
  destruct (Grid_precalc_covers spanning_grid
              (mkGrid 2 2 [[Some (mkCell 7 2 1); None]; [None; None]]
                 None None (0, 0)) eq_refl)
    as (v' & cws & rhs & Hrun & Hcls & Lc & Lr & Hc & Hr).
  - intros row ch Hrow Hch. simpl in Hrow.
    repeat (apply elem_of_cons in Hrow as [->|Hrow]);
      repeat (apply elem_of_cons in Hch as [Hch|Hch]); try discriminate;
      try (inversion Hch; fail); try (inversion Hrow; fail).
    injection Hch as ->. eexists. reflexivity.
  - intros ri row ch Hrow Hch Hspan.
    destruct ri as [|[|ri]]; simpl in Hrow; try discriminate;
      injection Hrow as <-;
      repeat (apply elem_of_cons in Hch as [Hch|Hch]); try discriminate;
      try (inversion Hch; fail).
    injection Hch as ->. simpl. lia.
  - intros ci col ch Hcol Hch Hspan.
    destruct ci as [|[|ci]]; vm_compute in Hcol; try discriminate;
      injection Hcol as <-;
      repeat (apply elem_of_cons in Hch as [Hch|Hch]); try discriminate;
      try (inversion Hch; fail).
    injection Hch as ->. simpl. lia.
  - exists v', cws, rhs. repeat split; auto.
    + apply (Hc 0%nat [Some (mkCell 7 2 1); None] (mkCell 7 2 1) (10, 1));
        [reflexivity|left|simpl; lia|reflexivity].
    + apply (Hr 0%nat [Some (mkCell 7 2 1); None] (mkCell 7 2 1) (10, 1));
        [reflexivity|left|simpl; lia|reflexivity].
Defined.

(** X27: a Grid has to go through [precalc] before it is given a canvas:
    [__init__] does not create the column widths, so on a grid with at least
    one cell, occupied or not, [recalc] (and the canvas setter) raises
    AttributeError at the first cell. *)
Theorem Grid_recalc_needs_precalc v g cv c row rows :
  vcls v = Grid g ->
  _cws g = None ->
  grid g = (c :: row) :: rows ->
  assign_canvas cv v = Raise AttributeError.
Proof.
  intros Hk Hcws Hgrid. rewrite LayoutProps.assign_canvas_eq, Hk. cbv zeta.
  unfold Grid_recalc, Grid_recalc_row, Grid_recalc_cell.
  rewrite Hgrid, Hcws. destruct c as [c|]; reflexivity.
Qed.

Lemma Grid_recalc_needs_precalc_witness :
  assign_canvas (Some (Canvas 80 24)) (new_Grid 0 2 2) = Raise AttributeError.
Proof.
  apply (Grid_recalc_needs_precalc (new_Grid 0 2 2)
           (mkGrid 2 2 [[None; None]; [None; None]] None None (0, 0))
           (Some (Canvas 80 24)) None [None] [[None; None]]);
    reflexivity.
Defined.

(** *** The column widths of a grid *)

(** The body that [precalc] runs for a cell does what the spec says. *)
Lemma grow_tracks_spec tr i span need :
  0 < span -> (i + Z.to_nat span <= length tr)%nat ->
  grow_tracks tr i span need = Ok (spec_split tr i span need).
Proof.
  intros Hspan Hlen. pose proof (tracks_total_seg tr i span Hlen) as Htot.
  unfold spec_split. cbv zeta.
  destruct (Z.ltb_spec (seg_sum tr i (Z.to_nat span)) need) as [Hshort|Hfits].
  - destruct (grow_tracks_pointwise tr i span need _ Hspan Hlen Htot Hshort)
      as (tr' & -> & _ & Hp).
    f_equal. apply list_eq. intros j. rewrite Hp, list_lookup_imap.
    reflexivity.
  - unfold grow_tracks. rewrite Htot. simpl.
    destruct (Z.ltb_spec (seg_sum tr i (Z.to_nat span)) need); [lia|].
    reflexivity.
Qed.

Lemma spec_split_length tr i span need :
  length (spec_split tr i span need) = length tr.
Proof.
  unfold spec_split. cbv zeta. destruct (_ <? _); [apply length_imap|reflexivity].
Qed.

(** A loop whose every step returns what a pure function says returns the
    fold of that function. *)
Lemma for_each_pure {A S : Type} (Inv : S -> Prop) (body : A -> S -> res S)
    (pure : S -> A -> S) (l : list A) :
  (forall a st, a ∈ l -> Inv st -> body a st = Ok (pure st a) /\ Inv (pure st a)) ->
  forall st, Inv st ->
    for_each l body st = Ok (fold_left pure l st) /\ Inv (fold_left pure l st).
Proof.
  induction l as [|a l IH]; intros Hstep st Hst; simpl.
  - auto.
  - destruct (Hstep a st) as [E I]; [left|exact Hst|]. rewrite E. simpl.
    apply IH; [|exact I]. intros b st' Hb. apply Hstep. right. exact Hb.
Qed.

Lemma fold_left_ext_in {A S : Type} (f g : S -> A -> S) (l : list A) :
  (forall a st, a ∈ l -> f st a = g st a) ->
  forall st, fold_left f l st = fold_left g l st.
Proof.
  induction l as [|a l IH]; intros H st; simpl; [reflexivity|].
  rewrite (H a st) by left. apply IH. intros b st' Hb. apply H. right. exact Hb.
Qed.

Lemma fold_left_fmap {A B S : Type} (f : S -> B -> S) (h : A -> B) (l : list A) :
  forall st, fold_left f (map h l) st = fold_left (fun st a => f st (h a)) l st.
Proof. induction l as [|a l IH]; intros st; simpl; [reflexivity|apply IH]. Qed.

Section PurePass.
Variables (n : Z) (span_of : cell -> Z) (need_of : cell -> res Z).
Variable need : cell -> Z.
Variable lines : list (list (option cell)).

(** Every cell that the pass handles has a child that asks for [need], and
    ends within the table. *)
Hypothesis well_placed : forall i line ch,
  lines !! i = Some line -> Some ch ∈ line -> 1 <= span_of ch <= n ->
  need_of ch = Ok (need ch) /\ Z.of_nat i + span_of ch <= n.

(** One pass of [precalc] is a fold of what the spec says of a cell. *)
Lemma size_tracks_pure :
  size_tracks n lines span_of need_of
  = Ok (fold_left
          (fun tr span =>
             fold_left
               (fun tr (p : nat * list (option cell)) =>
                  fold_left
                    (fun tr (c : option cell) =>
                       match c with
                       | Some ch =>
                           if span_of ch =? span
                           then spec_split tr (fst p) span (need ch)
                           else tr
                       | None => tr
                       end) (snd p) tr)
               (imap (fun i line => (i, line)) lines) tr)
          (map (fun k => Z.of_nat k) (seq 1 (Z.to_nat n)))
          (replicate (Z.to_nat n) 0)).
Proof.
  unfold size_tracks.
  apply (for_each_pure (fun tr : list Z => length tr = Z.to_nat n));
    [|apply length_replicate].
  intros s tr Hs Hlen.
  apply list_elem_of_fmap in Hs as (k & -> & Hk).
  apply list_elem_of_In, in_seq in Hk.
  apply (for_each_pure (fun tr : list Z => length tr = Z.to_nat n));
    [|exact Hlen].
  intros [i line] tr0 Hp Hlen0.
  apply elem_of_lookup_imap_1 in Hp as (i' & line' & [= -> ->] & Hl).
  cbn [fst snd].
  apply (for_each_pure (fun tr : list Z => length tr = Z.to_nat n));
    [|exact Hlen0].
  intros c tr1 Hc Hlen1. destruct c as [ch|]; [|auto].
  destruct (Z.eqb_spec (span_of ch) (Z.of_nat k)) as [Heq|Hne]; simpl; [|auto].
  destruct (well_placed i' line' ch Hl Hc) as [Hneed Hend]; [lia|].
  rewrite Hneed. simpl. rewrite grow_tracks_spec by lia.
  split; [reflexivity|]. rewrite spec_split_length. exact Hlen1.
Qed.
End PurePass.

(** The columns of a table all of whose rows have [w] entries. *)
Lemma py_zip_rect {A : Type} (d : A) : forall w (rows : list (list A)),
  Forall (fun row => length row = w) rows ->
  py_zip w rows
  = map (fun x => map (fun row => default d (row !! x)) rows) (seq 0 w).
Proof.
  induction w as [|w IH]; intros rows Hrows; [reflexivity|].
  cbn [py_zip].
  assert (Hheads : mapM head rows
                   = Some (map (fun row => default d (row !! 0%nat)) rows)).
  { induction Hrows as [|row rows Hrow _ IHrows]; [reflexivity|].
    destruct row as [|a row]; [discriminate|].
    simpl. rewrite IHrows. reflexivity. }
  rewrite Hheads. simpl seq. cbn [map]. f_equal.
  rewrite IH.
  - rewrite <- seq_shift, map_map. apply map_ext. intros x.
    rewrite map_map. apply map_ext. intros row.
    destruct row; reflexivity.
  - apply Forall_map. eapply Forall_impl; [exact Hrows|].
    intros row Hrow. simpl. destruct row; simpl in *; lia.
Qed.

Lemma columns_rect {A : Type} (d : A) w (rows : list (list A)) :
  rows <> [] -> Forall (fun row => length row = w) rows ->
  columns rows
  = map (fun x => map (fun row => default d (row !! x)) rows) (seq 0 w).
Proof.
  intros Hne Hrows. unfold columns. destruct rows as [|r rows]; [congruence|].
  assert (Hr : length r = w) by (inversion Hrows; assumption).
  rewrite Hr. apply py_zip_rect. exact Hrows.
Qed.

Lemma fold_left_indexed {T B : Type} (F : T -> nat -> B -> T) (f : nat -> B) :
  forall w s st,
    fold_left (fun st (p : nat * B) => F st (fst p) (snd p))
      (imap (fun i b => ((s + i)%nat, b)) (map f (seq s w))) st
    = fold_left (fun st x => F st x (f x)) (seq s w) st.
Proof.
  induction w as [|w IH]; intros s st; [reflexivity|].
  simpl. rewrite Nat.add_0_r. rewrite <- (IH (S s)). f_equal.
  apply imap_ext. intros i b _. simpl. f_equal. lia.
Qed.

(** The column pass of [precalc] on a table with at least one row whose
    rows have as many entries as the grid has columns. *)
Lemma column_pass_spec v g :
  grid g <> [] ->
  Forall (fun row => length row = Z.to_nat (gwidth g)) (grid g) ->
  (forall x y row ch, grid g !! y = Some row -> row !! x = Some (Some ch) ->
     (exists sz, child_size (children v) (child ch) = Ok sz)
     /\ placed (gwidth g) (colspan ch) x) ->
  size_tracks (gwidth g) (columns (grid g)) colspan
    (fun ch => sz ← child_size (children v) (child ch); Ok (fst sz))
  = Ok (spec_column_widths (gwidth g) (grid g) (cell_width v)).
Proof.
  intros Hne Hrect Hcells.
  rewrite (columns_rect None (Z.to_nat (gwidth g)) (grid g) Hne Hrect).
  rewrite (size_tracks_pure (gwidth g) colspan _ (cell_width v)).
  - f_equal. unfold spec_column_widths. apply fold_left_ext_in.
    intros span tr _.
    rewrite (fold_left_indexed
               (fun tr x (line : list (option cell)) =>
                  fold_left
                    (fun tr (c : option cell) =>
                       match c with
                       | Some ch =>
                           if colspan ch =? span
                           then spec_split tr x span (cell_width v ch)
                           else tr
                       | None => tr
                       end) line tr)
               (fun x => map (fun row => default None (row !! x)) (grid g))
               (Z.to_nat (gwidth g)) 0%nat tr).
    apply fold_left_ext_in. intros x tr0 _.
    rewrite fold_left_fmap. apply fold_left_ext_in. intros row tr1 _.
    destruct (row !! x) as [[ch|]|]; reflexivity.
  - intros x col ch Hcol Hch Hspan.
    rewrite list_lookup_fmap in Hcol.
    destruct (seq 0 (Z.to_nat (gwidth g)) !! x) as [x'|] eqn:Hx;
      [|discriminate].
    apply lookup_seq in Hx as [-> _]. simpl in Hcol. injection Hcol as <-.
    apply list_elem_of_fmap in Hch as (row & Hcell & Hrow).
    apply list_elem_of_lookup in Hrow as [y Hy].
    destruct (row !! x) as [c|] eqn:Hrx; simpl in Hcell; [|discriminate].
    subst c.
    destruct (Hcells x y row ch Hy Hrx) as [[sz Hsz] Hplaced].
    split; [|apply Hplaced; exact Hspan].
    unfold cell_width. rewrite Hsz. reflexivity.
Qed.

(** [precalc] on a well-formed grid returns, with the column widths the
    spec describes. *)
Lemma Grid_precalc_widths v g :
  vcls v = Grid g ->
  grid g <> [] ->
  Forall (fun row => length row = Z.to_nat (gwidth g)) (grid g) ->
  (forall x y row ch, grid g !! y = Some row -> row !! x = Some (Some ch) ->
     (exists sz, child_size (children v) (child ch) = Ok sz)
     /\ placed (gwidth g) (colspan ch) x
     /\ placed (gheight g) (rowspan ch) y) ->
  exists v' g',
    precalc v = Ok v' /\ vcls v' = Grid g'
    /\ _cws g' = Some (spec_column_widths (gwidth g) (grid g) (cell_width v)).
Proof.
  intros Hk Hne Hrect Hcells. rewrite (precalc_Grid v g Hk). unfold Grid_precalc.
  rewrite (column_pass_spec v g Hne Hrect).
  2:{ intros x y row ch Hy Hx. destruct (Hcells x y row ch Hy Hx) as (H1 & H2 & _).
      auto. }
  destruct (size_tracks_covers (gheight g) rowspan
              (fun ch => sz ← child_size (children v) (child ch); Ok (snd sz))
              (grid g))
    as (rhs & Erhs & _).
  { intros y row ch Hy Hch Hspan.
    apply list_elem_of_lookup in Hch as [x Hx].
    destruct (Hcells x y row ch Hy Hx) as ([sz Hsz] & _ & Hplaced).
    split; [|apply Hplaced; exact Hspan].
    exists (snd sz). rewrite Hsz. reflexivity. }
  simpl. rewrite Erhs. simpl.
  eexists. eexists. split; [reflexivity|]. split; reflexivity.
Qed.

(** C7: [precalc] on a [Grid(2, 2)] whose one cell, at (0, 0) with
    [colspan = 2], holds a child of minimum width 10 computes the column
    widths [5, 5].  In general, on a grid whose table has at least one row,
    every row with as many entries as the grid has columns, and whose cells
    hold children of the grid and end within the table, [precalc] returns
    with the column widths that the spec describes: starting from 0, for
    each span count from 1 upward and every cell of that colspan, the
    shortfall of the cell against the widths allotted so far to the columns
    it spans is split over these columns, each getting the floor of the
    shortfall divided by the span and the last [shortfall mod span] of them
    one unit more.  The body run for one cell does exactly this split on
    any allocation. *)
Theorem Grid_precalc_spanning :
  (forall v g c,
     vcls v = Grid g -> gwidth g = 2 -> gheight g = 2 ->
     grid g = [[Some (mkCell (vid c) 2 1); None]; [None; None]] ->
     children v = [c] -> fst (size c) = 10 ->
     exists v' g',
       precalc v = Ok v' /\ vcls v' = Grid g' /\ _cws g' = Some [5; 5])
  /\ (forall v g,
        vcls v = Grid g ->
        grid g <> [] ->
        Forall (fun row => length row = Z.to_nat (gwidth g)) (grid g) ->
        (forall x y row ch,
           grid g !! y = Some row -> row !! x = Some (Some ch) ->
           (exists sz, child_size (children v) (child ch) = Ok sz)
           /\ placed (gwidth g) (colspan ch) x
           /\ placed (gheight g) (rowspan ch) y) ->
        exists v' g',
          precalc v = Ok v' /\ vcls v' = Grid g'
          /\ _cws g'
             = Some (spec_column_widths (gwidth g) (grid g) (cell_width v)))
  /\ (forall tr i span need,
        0 < span -> (i + Z.to_nat span <= length tr)%nat ->
        grow_tracks tr i span need = Ok (spec_split tr i span need)).
Proof.
  split; [|split; [exact Grid_precalc_widths|exact grow_tracks_spec]].
  intros v g c Hk Hw Hh Hgrid Hcs Hsz.
  assert (Hchild : child_size (children v) (vid c) = Ok (size c)).
  { unfold child_size. rewrite Hcs. simpl. rewrite Nat.eqb_refl. reflexivity. }
  destruct (Grid_precalc_widths v g Hk) as (v' & g' & Hrun & Hk' & Hcws).
  - rewrite Hgrid. discriminate.
  - rewrite Hgrid, Hw. repeat constructor.
  - rewrite Hgrid, Hw, Hh. intros x y row ch Hy Hx.
    destruct y as [|[|y]]; simpl in Hy; try discriminate; injection Hy as <-;
      destruct x as [|[|x]]; simpl in Hx; try discriminate.
    injection Hx as <-. simpl. rewrite Hchild.
    split; [eauto|]. unfold placed. simpl. lia.
  - exists v', g'. split; [exact Hrun|]. split; [exact Hk'|].
    rewrite Hcws, Hgrid, Hw. unfold spec_column_widths. simpl.
    unfold cell_width. simpl. rewrite Hchild, Hsz. reflexivity.
Qed.

Lemma Grid_precalc_spanning_witness :
  (exists v' g',
     precalc spanning_grid = Ok v' /\ vcls v' = Grid g'
     /\ _cws g' = Some [5; 5])
  /\ (exists v' g',
        precalc offset_grid = Ok v' /\ vcls v' = Grid g'
        /\ _cws g' = Some [0; 2; 5])
  /\ grow_tracks [3; 1; 0; 2] 1 3 11 = Ok [3; 3; 3; 5].
Proof.
  destruct Grid_precalc_spanning as (Hscenario & Hgeneral & Hstep).
  split; [|split].
  - apply (Hscenario spanning_grid
             (mkGrid 2 2 [[Some (mkCell 7 2 1); None]; [None; None]]
                None None (0, 0))
             (Spacer 7 10 1 false false)); reflexivity.
  - destruct (Hgeneral offset_grid
                (mkGrid 3 2 [[None; Some (mkCell 7 2 1); None];
                             [None; None; Some (mkCell 8 1 1)]]
                   None None (0, 0)) eq_refl)
      as (v' & g' & Hrun & Hk & Hcws).
    + discriminate.
    + repeat constructor.
    + intros x y row ch Hy Hx.
      destruct y as [|[|y]]; simpl in Hy; try discriminate; injection Hy as <-;
        destruct x as [|[|[|x]]]; simpl in Hx; try discriminate;
        injection Hx as <-; (split; [eexists; reflexivity|]);
        unfold placed; simpl; lia.
    + exists v', g'. split; [exact Hrun|]. split; [exact Hk|].
      rewrite Hcws. reflexivity.
  - rewrite (Hstep [3; 1; 0; 2] 1%nat 3 11) by (simpl; lia). reflexivity.
Defined.

End GridMore.

(** ** Grid.set and the tree *)

Module TreeProps.
Import GridProps LayoutProps.

Lemma find_view_eq id v :
  find_view id v =
  if (vid v =? id)%nat then Some v else find_among id (children v).
Proof.
  destruct v as [i k z f fa vs hs dp d cv sc cs]. simpl.
  destruct (i =? id)%nat; [reflexivity|].
  induction cs as [|c cs IH]; simpl; [reflexivity|].
  destruct (find_view id c); [reflexivity|exact IH].
Qed.

Lemma modify_eq id f v :
  modify id f v =
  if (vid v =? id)%nat then f v
  else with_children (map (modify id f) (children v)) v.
Proof. destruct v; reflexivity. Qed.

(** Reading a view back after an assignment to its attributes. *)
Lemma find_view_modify id f :
  (forall x, vid x = id -> vid (f x) = id) ->
  forall v, find_view id (modify id f v) = f <$> find_view id v.
Proof.
  intros Hf. apply view_induction. intros v IH.
  rewrite modify_eq, (find_view_eq id v).
  destruct (Nat.eqb_spec (vid v) id) as [Heq|Hne].
  - rewrite find_view_eq. rewrite (Hf v Heq), Nat.eqb_refl. reflexivity.
  - rewrite find_view_eq.
    change (vid (with_children _ v)) with (vid v).
    destruct (Nat.eqb_spec (vid v) id) as [|_]; [contradiction|].
    change (children (with_children ?cs v)) with cs.
    induction IH as [|c cs Hc _ IHcs]; simpl; [reflexivity|].
    rewrite Hc. destruct (find_view id c); simpl; [reflexivity|exact IHcs].
Qed.

Lemma py_index_alias (len : nat) (n i : Z) :
  len = Z.to_nat n -> 0 <= i < n -> py_index len (i - n) = py_index len i.
Proof.
  intros -> Hi. unfold py_index.
  destruct (Z.leb_spec 0 (i - n)), (Z.ltb_spec (i - n) (Z.of_nat (Z.to_nat n))),
    (Z.leb_spec (- Z.of_nat (Z.to_nat n)) (i - n)), (Z.ltb_spec (i - n) 0),
    (Z.leb_spec 0 i), (Z.ltb_spec i (Z.of_nat (Z.to_nat n)));
    simpl; try lia. f_equal. lia.
Qed.

Lemma py_get_length {A : Type} (l : list (list A)) (n : Z) i row :
  Forall (fun row => length row = Z.to_nat n) l ->
  py_get l i = Ok row -> length row = Z.to_nat n.
Proof.
  intros Hall Hget. apply py_get_Ok_elem in Hget.
  rewrite Forall_forall in Hall. auto.
Qed.

Lemma py_get_alias {A : Type} (l : list A) (n i : Z) :
  length l = Z.to_nat n -> 0 <= i < n -> py_get l (i - n) = py_get l i.
Proof. intros Hl Hi. unfold py_get. rewrite (py_index_alias _ n i Hl Hi). reflexivity. Qed.

Lemma py_set_alias {A : Type} (l : list A) (n i : Z) (a : A) :
  length l = Z.to_nat n -> 0 <= i < n -> py_set l (i - n) a = py_set l i a.
Proof. intros Hl Hi. unfold py_set. rewrite (py_index_alias _ n i Hl Hi). reflexivity. Qed.

(** X3: on a grid of the shape [Grid.__init__] builds, a negative
    coordinate is the cell counted from the end: [set(x - width, y - height,
    ...)] does exactly what [set(x, y, ...)] does, for every cell (x, y) of
    the table. *)
Theorem Grid_set_negative_alias fuel id x y c cspan rspan s v g :
  find_view id (root s) = Some v ->
  vcls v = Grid g ->
  grid_shape g ->
  0 <= x < gwidth g -> 0 <= y < gheight g ->
  Grid_set fuel id (x - gwidth g) (y - gheight g) c cspan rspan s
  = Grid_set fuel id x y c cspan rspan s.
Proof.
  intros Hv Hg [Hh Hw] Hx Hy. unfold Grid_set. rewrite Hv, Hg.
  rewrite (py_get_alias (grid g) (gheight g) y Hh Hy).
  destruct (py_get (grid g) y) as [row| |] eqn:Hrow; try reflexivity. simpl.
  pose proof (py_get_length _ _ _ _ Hw Hrow) as Hlen.
  rewrite (py_get_alias row (gwidth g) x Hlen Hx).
  destruct (py_get row x) as [old| |]; try reflexivity. simpl.
  destruct (match old with
            | Some o => remove_child fuel id (child o) s
            | None => Ok s
            end) as [s1| |]; try reflexivity. simpl.
  rewrite (py_set_alias row (gwidth g) x _ Hlen Hx).
  destruct (py_set row x _) as [row'| |]; try reflexivity. simpl.
  rewrite (py_set_alias (grid g) (gheight g) y _ Hh Hy). reflexivity.
Qed.

Lemma Grid_set_negative_alias_witness :
  Grid_set 0 0 (1 - 2) (0 - 2) (Spacer 5 1 1 false false) 1 1 empty_grid
  = Grid_set 0 0 1 0 (Spacer 5 1 1 false false) 1 1 empty_grid.
Proof.
  apply (Grid_set_negative_alias 0 0 1 0 (Spacer 5 1 1 false false) 1 1
           empty_grid (new_Grid 0 2 2)
           (mkGrid 2 2 [[None; None]; [None; None]] None None (0, 0)));
    [reflexivity|reflexivity| |simpl; lia|simpl; lia].
  split; [reflexivity|]. repeat constructor.
Defined.


Lemma find_view_vid id : forall v x, find_view id v = Some x -> vid x = id.
Proof.
  apply (view_induction (fun v => forall x, find_view id v = Some x -> vid x = id)).
  intros v IH x. rewrite find_view_eq.
  destruct (Nat.eqb_spec (vid v) id) as [Heq|_]; [intros [= <-]; exact Heq|].
  induction IH as [|c cs Hc _ IHcs]; simpl; [discriminate|].
  destruct (find_view id c) as [y|] eqn:Hy; [intros [= <-]; auto|exact IHcs].
Qed.

Lemma py_get_set {A : Type} (l l' : list A) (i : Z) (a : A) :
  py_set l i a = Ok l' -> py_get l' i = Ok a /\ length l' = length l.
Proof.
  unfold py_set, py_get. destruct (py_index (length l) i) as [k|] eqn:Hk;
    [|discriminate].
  intros H. apply Ok_inj in H. subst l'. rewrite length_insert, Hk.
  assert (Hlt : (k < length l)%nat).
  { unfold py_index in Hk.
    destruct (Z.leb_spec 0 i), (Z.ltb_spec i (Z.of_nat (length l))),
      (Z.leb_spec (- Z.of_nat (length l)) i), (Z.ltb_spec i 0);
      simpl in Hk; try discriminate; injection Hk as <-; lia. }
  rewrite list_lookup_insert_eq by exact Hlt. auto.
Qed.

Lemma py_set_total {A : Type} (l : list A) (i : Z) (a b : A) :
  py_get l i = Ok b -> exists l', py_set l i a = Ok l'.
Proof.
  unfold py_get, py_set. destruct (py_index (length l) i); [|discriminate].
  intros _. eexists. reflexivity.
Qed.

(** X4: [Grid.set] on a cell that exists and is empty returns; reading the
    table back at the same coordinates gives the cell just made, the child
    is the last of the grid's children, and the grid and all its children
    are dirty. *)
Theorem Grid_set_lookup fuel id x y c cspan rspan s v g row :
  find_view id (root s) = Some v ->
  vcls v = Grid g ->
  py_get (grid g) y = Ok row ->
  py_get row x = Ok None ->
  exists s' v' g' row',
    Grid_set fuel id x y c cspan rspan s = Ok s'
    /\ find_view id (root s') = Some v'
    /\ vcls v' = Grid g'
    /\ py_get (grid g') y = Ok row'
    /\ py_get row' x = Ok (Some (mkCell (vid c) cspan rspan))
    /\ length (grid g') = length (grid g)
    /\ children v' = map (fun k => fst (set_dirty true k)) (children v ++ [c])
    /\ dirty v' = true.
Proof.
  intros Hv Hg Hrow Hcell. unfold Grid_set. rewrite Hv, Hg, Hrow. simpl.
  rewrite Hcell. simpl.
  destruct (py_set_total row x (Some (mkCell (vid c) cspan rspan)) None Hcell)
    as [row' Hrow'].
  rewrite Hrow'. simpl.
  destruct (py_set_total (grid g) y row' row Hrow) as [rows' Hrows'].
  rewrite Hrows'. simpl.
  set (g' := mkGrid (gwidth g) (gheight g) rows' (_cws g) (_rhs g) (_size g)).
  pose proof (find_view_vid id _ _ Hv) as Hid.
  unfold add_child, modify_scene. simpl root.
  rewrite find_view_modify, Hv by (intros; assumption). simpl.
  unfold mark_dirty. simpl root.
  rewrite find_view_modify by (intros; assumption).
  rewrite find_view_modify, Hv by (intros; assumption). simpl.
  set (v3 := with_children (children v ++ [c]) (with_cls (Grid g') v)).
  eexists. exists (fst (set_dirty true v3)), g', row'.
  split; [reflexivity|]. simpl root.
  destruct (set_dirty_fields true v3) as (_ & Hvid & Hcls).
  split.
  { rewrite find_view_modify.
    - rewrite find_view_modify by (intros; assumption).
      rewrite find_view_modify, Hv by (intros; assumption). reflexivity.
    - intros x0 _. change (vid (fst (set_dirty true v3)) = id).
      rewrite Hvid. exact Hid. }
  split; [rewrite Hcls; reflexivity|].
  destruct (py_get_set _ _ _ _ Hrows') as [Hget Hlen].
  split; [exact Hget|].
  split; [apply (py_get_set _ _ _ _ Hrow')|].
  split; [exact Hlen|].
  split.
  - rewrite children_set_dirty by reflexivity. reflexivity.
  - destruct v as [? k ? ? ? ? ? ? ? ? ? ?]. reflexivity.
Qed.

Lemma Grid_set_lookup_witness :
  exists s' v' g' row',
    Grid_set 0 0 1 0 (button 5) 2 1 empty_grid = Ok s'
    /\ find_view 0 (root s') = Some v'
    /\ vcls v' = Grid g'
    /\ py_get (grid g') 0 = Ok row'
    /\ py_get row' 1 = Ok (Some (mkCell 5 2 1))
    /\ length (grid g') = 2%nat
    /\ children v' = map (fun k => fst (set_dirty true k)) ([] ++ [button 5])
    /\ dirty v' = true.
Proof.
  apply (Grid_set_lookup 0 0 1 0 (button 5) 2 1 empty_grid (new_Grid 0 2 2)
           (mkGrid 2 2 [[None; None]; [None; None]] None None (0, 0))
           [None; None]); reflexivity.
Defined.

End TreeProps.

(** ** Layout, continued *)

Module LayoutMore.
Import LayoutProps.

Section StackLaid.
Variables (extent : view -> Z) (stretch : view -> bool).
Variables (sub : Z -> Z -> canvas) (asked : canvas -> Z) (perc : Z).
Hypothesis asked_sub : forall pos ext, asked (sub pos ext) = ext.
Hypothesis perc_nonneg : 0 <= perc.

(** One walk of the stack loop puts the children back to back, and ends
    where the start, the minimum extents and the grants add up to. *)
Lemma stack_loop_laid kids : forall rem pos cs',
  setters_ok kids -> 0 <= rem ->
  stack_loop extent stretch sub perc kids rem pos = Ok cs' ->
  laid sub extent stretch pos (map fst kids) cs'
    (pos + py_sum (map extent (map fst kids))
     + total_granted extent stretch asked (map fst kids) cs').
Proof.
  induction kids as [|[c assign] kids IH]; intros rem pos cs' Hok Hrem Hrun.
  - simpl in *. apply Ok_inj in Hrun. subst cs'. simpl.
    unfold py_sum. simpl. lia.
  - apply Forall_cons in Hok as [Hc Hok]. simpl in Hc.
    simpl map. rewrite py_sum_cons. simpl in Hrun.
    destruct (Z.eqb_spec (extent c) 0) as [Hz|Hnz].
    + destruct (stack_loop _ _ _ _ kids rem pos) as [rest| |] eqn:Hrest;
        simpl in Hrun; try discriminate.
      apply Ok_inj in Hrun. subst cs'. simpl.
      destruct (Z.eqb_spec (extent c) 0); [|lia].
      split; [reflexivity|].
      unfold granted, stretches. destruct (Z.eqb_spec (extent c) 0); [|lia].
      simpl negb. rewrite andb_false_r.
      pose proof (IH rem pos rest Hok Hrem Hrest) as Hl.
      replace (pos + (extent c + py_sum (map extent (map fst kids)))
               + (0 + total_granted extent stretch asked (map fst kids) rest))
        with (pos + py_sum (map extent (map fst kids))
              + total_granted extent stretch asked (map fst kids) rest) by lia.
      exact Hl.
    + destruct (stretch c) eqn:Hs;
        [destruct (Z.gtb_spec rem perc) as [Hgt|Hle]|];
        (destruct (assign _) as [c'| |] eqn:Hassign; simpl in Hrun;
           try discriminate;
         destruct (stack_loop _ _ _ _ kids _ _) as [rest| |] eqn:Hrest;
           simpl in Hrun; try discriminate;
         apply Ok_inj in Hrun; subst cs'; simpl;
         destruct (Z.eqb_spec (extent c) 0); [lia|];
         unfold granted, stretches; rewrite Hs;
         destruct (Z.eqb_spec (extent c) 0); [lia|];
         simpl; rewrite (Hc _ _ Hassign), ?asked_sub;
         pose proof (fun H => IH _ _ rest Hok H Hrest) as Hl;
         eexists; split; [reflexivity|]; split; [lia|];
         split; [intros; congruence || lia|];
         match goal with
         | |- laid _ _ _ ?p _ _ ?e =>
             match type of Hl with
             | _ -> laid _ _ _ ?p' _ _ ?e' =>
                 replace e with e' by lia; apply Hl; lia
             end
         end).
Qed.
End StackLaid.


Lemma share_nonneg_any R N : 0 <= R -> 0 <= N -> 0 <= share R N.
Proof.
  intros HR HN. destruct (Z.eq_dec N 0) as [->|Hne].
  - unfold share. simpl. lia.
  - apply share_nonneg; lia.
Qed.

(** X5: a Vertical (resp. Horizontal) whose children's minimum extents fit
    its canvas stacks them back to back from offset 0: every child of
    non-zero extent gets the sub-canvas that starts where the previous one
    ended, over the full cross extent, of at least its own minimum extent
    and of exactly that when it does not stretch; and the stack ends at or
    before the end of the canvas.  Whether a child is displayed plays no
    part.  The pass returns when the tree below the container holds neither
    a Grid nor a Console with a line. *)
Theorem stack_back_to_back v cv :
  _canvas v = Some cv ->
  (forall v', recalc v = Ok v' ->
     (vcls v = Vertical ->
      0 <= remaining_height cv v ->
      exists e,
        laid (fun h ch => SubCanvas cv 0 h (width cv) ch)
          (fun x => snd (size x)) vstretch 0 (children v) (children v') e
        /\ e <= height cv)
     /\ (vcls v = Horizontal ->
         0 <= remaining_width cv v ->
         exists e,
           laid (fun w cw => SubCanvas cv w 0 cw (height cv))
             (fun x => fst (size x)) hstretch 0 (children v) (children v') e
           /\ e <= width cv))
  /\ (plain v = true -> exists v', recalc v = Ok v').
Proof.
  intros Hcv. split;
    [|intros Hfree; unfold recalc; rewrite Hcv;
      apply assign_canvas_total, Hfree].
  intros v' Hrun. split; intros Hk HR.
  - pose proof (recalc_Vertical v cv v' Hk Hcv Hrun) as Hloop.
    pose proof (count_true_nonneg (map vstretch (children v))) as HN.
    pose proof (share_nonneg_any _ _ HR HN) as Hp.
    pose proof (stack_loop_laid (fun x => snd (size x)) vstretch
                  (fun h ch => SubCanvas cv 0 h (width cv) ch) asked_height _ (fun _ _ => eq_refl) Hp
                  _ _ _ _ (setters_of_children (children v)) HR Hloop) as Hl.
    pose proof (stack_loop_granted (fun x => snd (size x)) vstretch
                  (fun h ch => SubCanvas cv 0 h (width cv) ch) asked_height _ (fun _ _ => eq_refl) Hp
                  _ _ _ _ (setters_of_children (children v)) HR Hloop) as Hg.
    rewrite map_fst_kids in Hl, Hg.
    eexists. split; [exact Hl|].
    rewrite Hg. unfold remaining_height in *.
    pose proof (count_true_nonneg
                  (map (stretches (fun x => snd (size x)) vstretch) (children v))).
    assert (0 <= count_true
                   (map (stretches (fun x => snd (size x)) vstretch) (children v))
                 * share (height cv - py_sum (map (fun x => snd (size x)) (children v)))
                     (count_true (map vstretch (children v))))
      by (apply Z.mul_nonneg_nonneg; assumption).
    lia.
  - pose proof (recalc_Horizontal v cv v' Hk Hcv Hrun) as Hloop.
    pose proof (count_true_nonneg (map hstretch (children v))) as HN.
    pose proof (share_nonneg_any _ _ HR HN) as Hp.
    pose proof (stack_loop_laid (fun x => fst (size x)) hstretch
                  (fun w cw => SubCanvas cv w 0 cw (height cv)) asked_width _ (fun _ _ => eq_refl) Hp
                  _ _ _ _ (setters_of_children (children v)) HR Hloop) as Hl.
    pose proof (stack_loop_granted (fun x => fst (size x)) hstretch
                  (fun w cw => SubCanvas cv w 0 cw (height cv)) asked_width _ (fun _ _ => eq_refl) Hp
                  _ _ _ _ (setters_of_children (children v)) HR Hloop) as Hg.
    rewrite map_fst_kids in Hl, Hg.
    eexists. split; [exact Hl|].
    rewrite Hg. unfold remaining_width in *.
    pose proof (count_true_nonneg
                  (map (stretches (fun x => fst (size x)) hstretch) (children v))).
    assert (0 <= count_true
                   (map (stretches (fun x => fst (size x)) hstretch) (children v))
                 * share (width cv - py_sum (map (fun x => fst (size x)) (children v)))
                     (count_true (map hstretch (children v))))
      by (apply Z.mul_nonneg_nonneg; assumption).
    lia.
Qed.

Lemma stack_back_to_back_witness :
  exists e,
    laid (fun h ch => SubCanvas (Canvas 80 5) 0 h (width (Canvas 80 5)) ch)
      (fun x => snd (size x)) vstretch 0
      (children two_stretchers) (children two_stretchers_laid_out) e
    /\ e <= height (Canvas 80 5).
Proof.
  apply (proj1 (proj1 (stack_back_to_back two_stretchers (Canvas 80 5) eq_refl)
                  two_stretchers_laid_out eq_refl));
    [reflexivity|vm_compute; discriminate].
Defined.


Lemma size_with_canvas cv v : size (with_canvas cv v) = size v.
Proof. destruct v; reflexivity. Qed.

Lemma int_half_diff_bounds a b :
  b <= a ->
  0 <= int_half_diff a b /\ 2 * int_half_diff a b <= a - b <= 2 * int_half_diff a b + 1.
Proof.
  intros H. unfold int_half_diff.
  pose proof (Z.quot_rem' (a - b) 2).
  pose proof (Z.rem_bound_pos (a - b) 2 ltac:(lia) ltac:(lia)). lia.
Qed.

Lemma assign_all_canvas cv cs cs' :
  assign_all cv (map (fun c => (c, fun cv' => assign_canvas cv' c)) cs) = Ok cs' ->
  Forall (fun c => _canvas c = cv) cs'.
Proof.
  unfold assign_all. rewrite map_map. simpl. intros H.
  apply collect_Forall2 in H.
  induction H as [|c c' cs cs' Hc _ IH]; constructor; [|exact IH].
  apply assign_canvas_fields in Hc. tauto.
Qed.

(** X6: an Align whose own minimum size (the largest minimum width and the
    largest minimum height among its children) fits its canvas hands every
    child one and the same sub-canvas, of the size of the Align and not of
    the child, and that sub-canvas lies within the canvas: flush left (top)
    for LEFT (TOP), flush right (bottom) for RIGHT (BOT), and for MID with
    margins that differ by at most one cell, the smaller one first.  The
    pass returns when the tree below the Align holds neither a Grid nor a
    Console with a line. *)
Theorem Align_recalc_within v cv ha va :
  vcls v = Align ha va ->
  _canvas v = Some cv ->
  fst (size v) <= width cv ->
  snd (size v) <= height cv ->
  exists x y,
    (forall v', recalc v = Ok v' ->
       Forall (fun c => _canvas c
                        = Some (SubCanvas cv x y (fst (size v)) (snd (size v))))
         (children v'))
    /\ (plain v = true -> exists v', recalc v = Ok v')
    /\ 0 <= x /\ x + fst (size v) <= width cv
    /\ 0 <= y /\ y + snd (size v) <= height cv
    /\ (ha = HOR_LEFT -> x = 0)
    /\ (ha = HOR_MID -> 2 * x <= width cv - fst (size v) <= 2 * x + 1)
    /\ (ha <> HOR_LEFT -> ha <> HOR_MID -> x + fst (size v) = width cv)
    /\ (va = VER_TOP -> y = 0)
    /\ (va = VER_MID -> 2 * y <= height cv - snd (size v) <= 2 * y + 1)
    /\ (va <> VER_TOP -> va <> VER_MID -> y + snd (size v) = height cv).
Proof.
  intros Hk Hcv Hw Hh.
  exists (if ha =? HOR_LEFT then 0
          else if ha =? HOR_MID then int_half_diff (width cv) (fst (size v))
          else width cv - fst (size v)),
         (if va =? VER_TOP then 0
          else if va =? VER_MID then int_half_diff (height cv) (snd (size v))
          else height cv - snd (size v)).
  split.
  { intros v'. unfold recalc. rewrite assign_canvas_eq, Hk, Hcv. cbv zeta.
    unfold Align_recalc. rewrite size_with_canvas.
    change (children (with_canvas (Some cv) v)) with (children v).
    destruct (assign_all _ _) as [cs| |] eqn:Hall; unfold mbind, result_bind;
      try discriminate.
    intros H. apply Ok_inj in H. subst v'. simpl children.
    apply (assign_all_canvas _ _ _ Hall). }
  split.
  { intros Hfree. unfold recalc. rewrite Hcv. apply assign_canvas_total, Hfree. }
  pose proof (int_half_diff_bounds _ _ Hw).
  pose proof (int_half_diff_bounds _ _ Hh).
  unfold HOR_LEFT, HOR_MID, VER_TOP, VER_MID in *.
  destruct (Z.eqb_spec ha 1), (Z.eqb_spec ha 2),
    (Z.eqb_spec va 1), (Z.eqb_spec va 2); repeat split; lia.
Qed.

Lemma Align_recalc_within_witness :
  exists x y,
    (forall v', recalc centred_label = Ok v' ->
       Forall (fun c => _canvas c = Some (SubCanvas (Canvas 80 24) x y 5 1))
         (children v'))
    /\ (exists v', recalc centred_label = Ok v')
    /\ 2 * x <= 80 - 5 <= 2 * x + 1
    /\ y + 1 = 24.
Proof.
  destruct (Align_recalc_within centred_label (Canvas 80 24) HOR_MID VER_BOT
              eq_refl eq_refl)
    as (x & y & Hc & Hr & _ & _ & _ & _ & _ & Hx & _ & _ & _ & Hy);
    [simpl; lia|simpl; lia|].
  exists x, y. split; [exact Hc|]. split; [apply Hr; reflexivity|].
  split; [apply Hx; reflexivity|]. apply Hy; discriminate.
Defined.


Lemma set_dirty_zindex d v : zindex (fst (set_dirty d v)) = zindex v.
Proof. destruct v as [? k ? ? ? ? ? ? ? ? ? ?]. destruct k; reflexivity. Qed.

(** The canvas setter leaves the z-index of the view alone. *)
Lemma assign_canvas_zindex cv v v' :
  assign_canvas cv v = Ok v' -> zindex v' = zindex v.
Proof.
  rewrite assign_canvas_eq. cbv zeta.
  set (kids := map _ (children v)). clearbody kids.
  destruct (vcls v) eqn:Hk.
  - intros H. apply Ok_inj in H. subst. reflexivity.
  - intros H. apply Ok_inj in H. subst. reflexivity.
  - unfold ContainerView_recalc. destruct (dirty _).
    + destruct (assign_all _ _) as [cs| |]; unfold mbind, result_bind;
        try discriminate.
      intros H. apply Ok_inj in H. subst v'. rewrite set_dirty_zindex. reflexivity.
    + intros H. apply Ok_inj in H. subst. reflexivity.
  - unfold Align_recalc. destruct cv as [c|]; [|discriminate].
    destruct (assign_all _ _) as [cs| |]; unfold mbind, result_bind;
      try discriminate.
    intros H. apply Ok_inj in H. subst. reflexivity.
  - unfold Box_recalc. destruct cv as [c|]; [|discriminate].
    destruct (assign_all _ _) as [cs| |]; unfold mbind, result_bind;
      try discriminate.
    intros H. apply Ok_inj in H. subst. reflexivity.
  - unfold Vertical_recalc. destruct cv as [c|]; [|discriminate].
    destruct (stack_loop _ _ _ _ _ _ _) as [cs| |]; unfold mbind, result_bind;
      try discriminate.
    intros H. apply Ok_inj in H. subst. reflexivity.
  - unfold Horizontal_recalc. destruct cv as [c|]; [|discriminate].
    destruct (stack_loop _ _ _ _ _ _ _) as [cs| |]; unfold mbind, result_bind;
      try discriminate.
    intros H. apply Ok_inj in H. subst. reflexivity.
  - unfold Grid_recalc.
    destruct (for_each _ _ _) as [st| |]; unfold mbind, result_bind;
      try discriminate.
    intros H. apply Ok_inj in H. subst. reflexivity.
  - destruct (_update_splitlines _ _) as [sp| |]; unfold mbind, result_bind;
      try discriminate.
    intros H. apply Ok_inj in H. subst. reflexivity.
Qed.

Lemma insert_by_zindex_ascending k l :
  ascending (map (fun x : kid => zindex (fst x)) l) ->
  ascending (map (fun x : kid => zindex (fst x)) (insert_by_zindex k l)).
Proof.
  induction l as [|k' l IH]; simpl; [auto|].
  intros [Hall Hasc].
  destruct (Z.leb_spec (zindex (fst k)) (zindex (fst k'))) as [Hle|Hgt]; simpl.
  - split; [|split; assumption].
    constructor; [exact Hle|].
    eapply Forall_impl; [exact Hall|]. simpl. intros; lia.
  - split; [|apply IH, Hasc].
    assert (Hperm := insert_by_zindex_perm k l).
    apply (Permutation_map (fun x : kid => zindex (fst x))) in Hperm.
    rewrite Hperm. simpl. constructor; [lia|exact Hall].
Qed.

Lemma sort_by_zindex_ascending l :
  ascending (map (fun x : kid => zindex (fst x)) (sort_by_zindex l)).
Proof.
  induction l as [|k l IH]; simpl; [exact I|].
  apply insert_by_zindex_ascending, IH.
Qed.

Lemma insert_by_zindex_layer z k l :
  layer z (map fst (insert_by_zindex k l)) = layer z (map fst (k :: l)).
Proof.
  unfold layer. induction l as [|k' l IH]; simpl; [reflexivity|].
  destruct (Z.leb_spec (zindex (fst k)) (zindex (fst k'))) as [Hle|Hgt];
    simpl; [reflexivity|].
  simpl in IH.
  destruct (Z.eqb_spec (zindex (fst k')) z) as [Hk'|Hk'],
    (Z.eqb_spec (zindex (fst k)) z) as [Hk|Hk]; simpl; try lia.
  - rewrite IH. destruct (Z.eqb_spec (zindex (fst k)) z); [lia|]. reflexivity.
  - rewrite IH. destruct (Z.eqb_spec (zindex (fst k)) z); [|lia]. reflexivity.
  - rewrite IH. destruct (Z.eqb_spec (zindex (fst k)) z); [lia|]. reflexivity.
Qed.

Lemma sort_by_zindex_layer z l :
  layer z (map fst (sort_by_zindex l)) = layer z (map fst l).
Proof.
  induction l as [|k l IH]; simpl; [reflexivity|].
  rewrite insert_by_zindex_layer. unfold layer in *. simpl.
  destruct (zindex (fst k) =? z); simpl; congruence.
Qed.

(** X7: [ContainerView.recalc] on a dirty container leaves the children in
    ascending order of z-index, and the sort is stable: children of equal
    z-index keep the order they had.  It returns when the container has a
    canvas and the tree below it holds neither a Grid nor a Console with a
    line. *)
Theorem ContainerView_recalc_sorted v :
  vcls v = ContainerView ->
  dirty v = true ->
  (forall v', recalc v = Ok v' ->
     ascending (map zindex (children v'))
     /\ forall z, layer z (children v') = layer z (children v))
  /\ (forall cv, _canvas v = Some cv -> plain v = true ->
        exists v', recalc v = Ok v').
Proof.
  intros Hk Hd. split;
    [|intros cv Hcv Hfree; unfold recalc; rewrite Hcv;
      apply assign_canvas_total, Hfree].
  intros v'. unfold recalc.
  rewrite assign_canvas_eq, Hk. cbv zeta. unfold ContainerView_recalc.
  replace (dirty (with_canvas (_canvas v) v)) with true
    by (rewrite <- Hd; destruct v; reflexivity).
  unfold assign_all.
  set (kids := map (fun c => (c, fun cv' => assign_canvas cv' c)) (children v)).
  assert (Hkids : Forall (fun k : kid => forall cv c', snd k cv = Ok c' ->
                            zindex c' = zindex (fst k) /\ vid c' = vid (fst k))
                    (sort_by_zindex kids)).
  { rewrite sort_by_zindex_perm. unfold kids. apply Forall_forall.
    intros k Hin cv c' Hrun. apply list_elem_of_fmap in Hin as (c & -> & _).
    simpl in *. split; [eapply assign_canvas_zindex; eauto|].
    apply assign_canvas_fields in Hrun. tauto. }
  pose proof (sort_by_zindex_ascending kids) as Hasc.
  assert (Hlay : forall z, layer z (map fst (sort_by_zindex kids))
                           = layer z (children v)).
  { intros z. rewrite sort_by_zindex_layer. unfold kids.
    rewrite map_fst_kids. reflexivity. }
  revert Hkids Hasc Hlay. generalize (sort_by_zindex kids) as sorted.
  intros sorted Hkids Hasc Hlay.
  destruct (collect _) as [cs| |] eqn:Hcol; unfold mbind, result_bind;
    try discriminate.
  intros H. apply Ok_inj in H. subst v'.
  apply collect_Forall2 in Hcol.
  rewrite children_set_dirty by (unfold is_container; simpl; rewrite Hk; reflexivity).
  simpl children.
  assert (Hrel : map zindex (map (fun c => fst (set_dirty false c)) cs)
                 = map (fun x : kid => zindex (fst x)) sorted
                 /\ forall z, layer z (map (fun c => fst (set_dirty false c)) cs)
                              = layer z (map fst sorted)).
  { clear Hasc Hlay. induction Hcol as [|k c ks cs Hrun _ IH]; simpl.
    - split; reflexivity.
    - apply Forall_cons in Hkids as [Hk1 Hks].
      destruct (Hk1 _ _ Hrun) as [Hz Hi]. destruct (IH Hks) as [IH1 IH2].
      split.
      + rewrite set_dirty_zindex, Hz, IH1. reflexivity.
      + intros z. unfold layer in *. simpl.
        rewrite set_dirty_zindex, Hz.
        destruct (zindex (fst k) =? z); simpl.
        * destruct (set_dirty_fields false c) as (_ & -> & _).
          rewrite Hi. f_equal. apply IH2.
        * apply IH2. }
  destruct Hrel as [Hz Hl]. split.
  - rewrite Hz. exact Hasc.
  - intros z. rewrite Hl. apply Hlay.
Qed.

Lemma ContainerView_recalc_sorted_witness :
  exists v', recalc three_layers = Ok v'
    /\ ascending (map zindex (children v'))
    /\ map vid (children v') = [2; 4; 1; 3]%nat
    /\ forall z, layer z (children v') = layer z (children three_layers).
Proof.
  eexists. split; [vm_compute; reflexivity|].
  split; [|split; [reflexivity|]];
    apply (proj1 (ContainerView_recalc_sorted three_layers eq_refl eq_refl));
    reflexivity.
Defined.


Lemma below_eq v :
  below v = v :: (if is_container v then flat_map below (children v) else []).
Proof. destruct v; reflexivity. Qed.

Lemma set_dirty_eq d v :
  set_dirty d v =
  if is_container v then
    (mkView (vid v) (vcls v) (zindex v) (_focused v) (_focusable v)
       (_vstretch v) (_hstretch v) (display v) d (_canvas v) (_shouldclear v)
       (map fst (map (set_dirty d) (children v))),
     concat (map snd (map (set_dirty d) (children v))))
  else
    (mkView (vid v) (vcls v) (zindex v) (_focused v) (_focusable v)
       (_vstretch v) (_hstretch v) (display v) d (_canvas v) (_shouldclear v)
       (children v),
     if d then [vid v] else []).
Proof. destruct v; reflexivity. Qed.

Lemma dirty_eq v :
  dirty v = if is_container v then _dirty v || existsb dirty (children v)
            else _dirty v.
Proof. destruct v; reflexivity. Qed.

(** X8: the [dirty] setter reaches the whole tree: after [v.dirty = d] every
    view of the tree of [v] reads [d], the tree holds the same views in the
    same places, and [update] has been called once by every leaf, in tree
    order, when [d] is true and not at all when it is false. *)
Theorem set_dirty_below d : forall v,
  (forall x, x ∈ below (fst (set_dirty d v)) -> dirty x = d)
  /\ map vid (below (fst (set_dirty d v))) = map vid (below v)
  /\ snd (set_dirty d v)
     = if d then map vid (List.filter (fun x => negb (is_container x)) (below v))
       else [].
Proof.
  apply view_induction. intros v IH.
  rewrite set_dirty_eq, (below_eq v).
  destruct (is_container v) eqn:Hc.
  - simpl fst. simpl snd. rewrite below_eq.
    unfold is_container at 1 2. simpl vcls. fold (is_container v). rewrite Hc.
    simpl children.
    assert (Hkids :
      (forall x, x ∈ flat_map below (map fst (map (set_dirty d) (children v))) ->
                 dirty x = d)
      /\ Forall (fun c => dirty (fst (set_dirty d c)) = d) (children v)
      /\ map vid (flat_map below (map fst (map (set_dirty d) (children v))))
         = map vid (flat_map below (children v))
      /\ concat (map snd (map (set_dirty d) (children v)))
         = if d then map vid (List.filter (fun x => negb (is_container x))
                                (flat_map below (children v)))
           else []).
    { clear Hc. induction IH as [|c cs (Hc1 & Hc2 & Hc3) _ IHcs]; simpl.
      - repeat split; auto. { intros x Hx. inversion Hx. }
        destruct d; reflexivity.
      - destruct IHcs as (I1 & I2 & I3 & I4). repeat split.
        + intros x Hx. apply elem_of_app in Hx as [Hx|Hx]; auto.
        + constructor; [|exact I2]. apply Hc1. rewrite below_eq. left.
        + rewrite !map_app. congruence.
        + rewrite Hc3, I4. destruct d; [|reflexivity].
          rewrite List.filter_app, map_app. reflexivity. }
    destruct Hkids as (K1 & K2 & K3 & K4). repeat split.
    + intros x Hx. apply elem_of_cons in Hx as [->|Hx]; [|auto].
      rewrite dirty_eq. unfold is_container. simpl vcls.
      fold (is_container v). rewrite Hc. simpl.
      destruct d; [reflexivity|]. simpl.
      clear -K2. induction K2 as [|c cs Hc _ IHcs]; simpl; [reflexivity|].
      rewrite Hc. exact IHcs.
    + simpl. f_equal. exact K3.
    + rewrite K4. destruct d; [|reflexivity]. simpl. rewrite Hc. reflexivity.
  - simpl fst. simpl snd. rewrite below_eq.
    unfold is_container at 1 2. simpl vcls. fold (is_container v). rewrite Hc.
    repeat split.
    + intros x Hx. apply elem_of_cons in Hx as [->|Hx]; [|inversion Hx].
      rewrite dirty_eq. unfold is_container. simpl vcls.
      fold (is_container v). rewrite Hc. reflexivity.
    + destruct d; [|reflexivity]. simpl. rewrite Hc. reflexivity.
Qed.

End LayoutMore.

(** ** Handlers of Checkbox and Radio *)

Module ValueMore.
Import Value ValueProps Handlers.

#[local] Arguments select : simpl never.

Lemma valid_emit e st m :
  is_Some (widgets st !! m) -> is_Some (widgets (emit e st) !! m).
Proof. auto. Qed.

Lemma match_nonempty {A B : Type} (l : list A) (a b : B) :
  l <> [] -> match l with [] => a | _ :: _ => b end = b.
Proof. destruct l; [contradiction|reflexivity]. Qed.

Lemma selected_before l1 r l2 st :
  truthy (value_of st r) = true ->
  selected (l1 ++ r :: l2) st =
  match selected l1 st with Some m => Some m | None => Some r end.
Proof.
  intros Hr. rewrite selected_app. simpl. rewrite Hr. reflexivity.
Qed.

Lemma selected_ext l st st' :
  (forall m, m ∈ l -> value_of st' m = value_of st m) ->
  selected l st' = selected l st.
Proof.
  induction l as [|m l IH]; intros H; simpl; [reflexivity|].
  rewrite (H m) by left. rewrite IH; [reflexivity|].
  intros m' Hm'. apply H. right. exact Hm'.
Qed.

(** X9: a click on a radio [r] of a group whose value is not true yet makes
    [r] the only member holding a true value.  The group fires a
    value-changed event only when a member listed before [r] held a true
    value, and then from that member to [r]; when the member selected before
    is listed after [r], the group fires nothing. *)
Theorem Radio_set_outcome k g r st l1 l2 o :
  groups st !! g = Some (l1 ++ r :: l2) ->
  r ∉ l1 ->
  Forall (fun m => is_Some (widgets st !! m)) (l1 ++ r :: l2) ->
  widgets st !! r = Some o ->
  cls o = Radio -> _group o = Some g ->
  py_eq (_value o) (VBool true) = false ->
  exists st' evs,
    Radio_set (S k) r st = Ok st'
    /\ (forall m, m ∈ l1 ++ r :: l2 ->
          truthy (value_of st' m) = true <-> m = r)
    /\ trace st' = evs ++ trace st
    /\ List.filter (is_group_event g) evs =
       match selected l1 st with
       | Some m => [GroupValueEvent g (Some r) (Some m)]
       | None => []
       end.
Proof.
  intros Hg Hnot Hv Ho Hcls Hgr Hne.
  set (members := l1 ++ r :: l2) in *.
  assert (Hin : r ∈ members).
  { unfold members. apply elem_of_app. right. left. }
  assert (Hlt := lookup_lt_Some _ _ _ Ho).
  unfold Radio_set, set_value, set_value_with. rewrite Ho, Hne.
  set (st0 := store r (mkWidget (cls o) (VBool true) (_group o)) st).
  set (st1 := emit (WidgetValueEvent r (VBool true) (_value o)) st0).
  assert (Hval1 : forall m, value_of st1 m
                  = if decide (m = r) then VBool true else value_of st m).
  { intros m. change (value_of st1 m) with (value_of st0 m).
    unfold st0. rewrite value_of_store by exact Hlt. reflexivity. }
  assert (Hr1 : truthy (value_of st1 r) = true).
  { rewrite Hval1. destruct (decide (r = r)); [reflexivity|contradiction]. }
  assert (Hv1 : Forall (fun m => is_Some (widgets st1 !! m)) members).
  { eapply Forall_impl; [exact Hv|]. intros m Hm. simpl.
    apply lookup_lt_is_Some. rewrite length_insert.
    apply lookup_lt_is_Some. exact Hm. }
  assert (Hold : selected members st1
                 = match selected l1 st with Some m => Some m | None => Some r end).
  { unfold members. rewrite selected_before by exact Hr1.
    rewrite (selected_ext l1 st st1); [reflexivity|].
    intros m Hm. rewrite Hval1. destruct (decide (m = r)) as [->|]; [|reflexivity].
    contradiction. }
  destruct (clear_loop (select k) r members st1 Hv1 (or_intror Hr1))
    as (st2 & E2 & S2 & F2).
  assert (T2 : truthy (value_of st2 r) = true)
    by (apply (settled_truthy r st1 st2 S2 Hr1)).
  assert (Hnew : selected members st2 = Some r)
    by (apply selected_only; auto).
  assert (Hone : forall m, m ∈ members ->
                   truthy (value_of st2 m) = true <-> m = r).
  { intros m Hm. split.
    - intros Ht. destruct (decide (m = r)) as [|Hn]; [assumption|].
      rewrite (F2 m Hm Hn) in Ht. discriminate.
    - intros ->. exact T2. }
  destruct (settled_trace _ _ _ S2) as (evs & Htr & Hev).
  assert (Hfire : fire_value (select (S k)) r o (VBool true) (_value o) st0
            = if decide (selected members st2 = selected members st1) then Ok st2
              else Ok (emit (GroupValueEvent g (selected members st2)
                               (selected members st1)) st2)).
  { unfold fire_value. fold st1. rewrite Hcls, Hgr.
    change (py_eq (VBool true) (VBool true)) with true. cbv iota.
    change (groups st1) with (groups st). rewrite Hg.
    rewrite match_nonempty by (unfold members; destruct l1; discriminate).
    rewrite select_S. change (groups st1) with (groups st). rewrite Hg, E2.
    reflexivity. }
  rewrite Hfire, Hnew, Hold.
  destruct (selected l1 st) as [m0|] eqn:Hsel.
  - assert (Hm0 : m0 <> r).
    { intros ->. apply Hnot. clear -Hsel.
      induction l1 as [|x l IH]; simpl in Hsel; [discriminate|].
      destruct (truthy (value_of st x)); [injection Hsel as ->; left|].
      right. auto. }
    destruct (decide (Some r = Some m0)) as [[= ->]|_]; [contradiction|].
    unfold mbind, result_bind.
    eexists _, (Update r :: GroupValueEvent g (Some r) (Some m0) :: evs
                ++ [WidgetValueEvent r (VBool true) (_value o)]).
    split; [reflexivity|]. split; [exact Hone|]. split.
    + simpl. rewrite Htr. simpl. rewrite <- app_assoc. reflexivity.
    + simpl. rewrite Nat.eqb_refl. f_equal. rewrite List.filter_app.
      rewrite no_group_events by exact Hev. reflexivity.
  - destruct (decide (Some r = Some r)) as [_|]; [|contradiction].
    unfold mbind, result_bind.
    eexists _, (Update r :: evs
                ++ [WidgetValueEvent r (VBool true) (_value o)]).
    split; [reflexivity|]. split; [exact Hone|]. split.
    + simpl. rewrite Htr. simpl. rewrite <- app_assoc. reflexivity.
    + simpl. rewrite List.filter_app.
      rewrite no_group_events by exact Hev. reflexivity.
Qed.

Lemma Radio_set_outcome_witness :
  exists st' evs,
    Radio_set 1 0 three_radios = Ok st'
    /\ (forall m, m ∈ [] ++ 0%nat :: [1; 2]%nat ->
          truthy (value_of st' m) = true <-> m = 0%nat)
    /\ trace st' = evs ++ trace three_radios
    /\ List.filter (is_group_event 0) evs =
       match selected [] three_radios with
       | Some m => [GroupValueEvent 0 (Some 0%nat) (Some m)]
       | None => []
       end.
Proof.
  apply (Radio_set_outcome 0 0 0 three_radios [] [1; 2]%nat
           (mkWidget Radio (VBool false) (Some 0%nat))).
  - reflexivity.
  - intros H. inversion H.
  - repeat constructor; eexists; reflexivity.
  - reflexivity.
  - reflexivity.
  - reflexivity.
  - reflexivity.
Defined.

Lemma py_eq_not v : py_eq v (VBool (negb (truthy v))) = false.
Proof.
  destruct v as [|b|z|s]; simpl; try reflexivity.
  - destruct b; reflexivity.
  - destruct (Z.eqb_spec z 0) as [->|Hz]; simpl; [reflexivity|].
    apply Z.eqb_neq. exact Hz.
Qed.

(** X10: the handler of a checkbox is never silent: whatever value the
    checkbox holds, a click stores the negation of its truth value, fires
    one value event from the old value to the new one and calls [update]
    once; no other widget changes. *)
Theorem Checkbox_change_flips fuel w st o :
  widgets st !! w = Some o ->
  cls o = ValueWidget ->
  exists st',
    Checkbox_change fuel w st = Ok st'
    /\ value_of st' w = VBool (negb (truthy (value_of st w)))
    /\ (forall m, m <> w -> widgets st' !! m = widgets st !! m)
    /\ groups st' = groups st
    /\ trace st' =
       [Update w;
        WidgetValueEvent w (VBool (negb (truthy (value_of st w)))) (value_of st w)]
       ++ trace st.
Proof.
  intros Ho Hcls. assert (Hlt := lookup_lt_Some _ _ _ Ho).
  unfold Checkbox_change, set_value, set_value_with. rewrite Ho, py_eq_not.
  unfold fire_value. rewrite Hcls. unfold mbind, result_bind.
  eexists. split; [reflexivity|].
  assert (Hv : value_of st w = _value o) by (unfold value_of; rewrite Ho; reflexivity).
  rewrite Hv. repeat split.
  - unfold value_of. simpl. rewrite list_lookup_insert_eq by exact Hlt. reflexivity.
  - intros m Hm. simpl. apply list_lookup_insert_ne. auto.
Qed.

Lemma Checkbox_change_flips_witness :
  exists st',
    Checkbox_change 0 0 (mkWorld [mkWidget ValueWidget VNone None] [] []) = Ok st'
    /\ value_of st' 0 = VBool true
    /\ trace st' = [Update 0; WidgetValueEvent 0 (VBool true) VNone].
Proof.
  destruct (Checkbox_change_flips 0 0
              (mkWorld [mkWidget ValueWidget VNone None] [] [])
              (mkWidget ValueWidget VNone None) eq_refl eq_refl)
    as (st' & E & V & _ & _ & T).
  exists st'. repeat split; assumption.
Defined.

Lemma list_remove_name_filter r l :
  NoDup l -> r ∈ l ->
  list_remove_name r l = Ok (List.filter (fun m => negb (m =? r)%nat) l).
Proof.
  induction 1 as [|x l Hx Hnd IH]; intros Hin; [inversion Hin|]. simpl.
  destruct (Nat.eqb_spec x r) as [->|Hne]; simpl.
  - f_equal. symmetry. clear -Hx. induction l as [|y l IH]; [reflexivity|].
    simpl. destruct (Nat.eqb_spec y r) as [->|_]; simpl.
    + exfalso. apply Hx. left.
    + f_equal. apply IH. intros H. apply Hx. right. exact H.
  - apply elem_of_cons in Hin as [->|Hin]; [contradiction|].
    rewrite (IH Hin). reflexivity.
Qed.

Lemma filter_absent r l :
  r ∉ l -> List.filter (fun m => negb (m =? r)%nat) l = l.
Proof.
  induction l as [|y l IH]; intros Hr; [reflexivity|]. simpl.
  destruct (Nat.eqb_spec y r) as [->|_]; simpl.
  - exfalso. apply Hr. left.
  - f_equal. apply IH. intros H. apply Hr. right. exact H.
Qed.

Lemma elem_of_filter_ne r l m :
  m ∈ List.filter (fun m => negb (m =? r)%nat) l <-> m ∈ l /\ m <> r.
Proof.
  rewrite !list_elem_of_In, List.filter_In.
  destruct (Nat.eqb_spec m r); simpl; intuition congruence.
Qed.

(** The group left: [r] is struck off the list of the group it had. *)
Lemma set_group_leave r st o :
  consistent st -> widgets st !! r = Some o ->
  exists st1,
    match _group o with
    | None => Ok st
    | Some g =>
        match groups st !! g with
        | None => Stuck
        | Some l => l' ← list_remove_name r l; Ok (with_members g l' st)
        end
    end = Ok st1
    /\ widgets st1 = widgets st /\ trace st1 = trace st
    /\ forall g, groups st1 !! g
         = List.filter (fun m => negb (m =? r)%nat) <$> groups st !! g.
Proof.
  intros [C1 C2] Ho.
  assert (Hout : forall g l, groups st !! g = Some l -> _group o <> Some g ->
                   List.filter (fun m => negb (m =? r)%nat) l = l).
  { intros g l Hl Hne. apply filter_absent. intros Hin.
    destruct (C1 g l Hl) as [_ Hmem]. apply Hmem in Hin as (o' & Ho' & Hg').
    rewrite Ho in Ho'. injection Ho' as <-. contradiction. }
  destruct (_group o) as [g0|] eqn:Hg0.
  - destruct (C2 r o g0 Ho Hg0) as [l0 Hl0]. rewrite Hl0.
    destruct (C1 g0 l0 Hl0) as [Hnd Hmem].
    rewrite list_remove_name_filter; [|exact Hnd|apply Hmem; eauto].
    unfold mbind, result_bind. eexists. split; [reflexivity|].
    repeat split. intros g. simpl.
    destruct (decide (g = g0)) as [->|Hne].
    + rewrite list_lookup_insert_eq by (eapply lookup_lt_Some; eauto).
      rewrite Hl0. reflexivity.
    + rewrite list_lookup_insert_ne by auto.
      destruct (groups st !! g) as [l|] eqn:Hl; [|reflexivity]. simpl.
      rewrite (Hout g l Hl); [reflexivity|congruence].
  - exists st. repeat split. intros g.
    destruct (groups st !! g) as [l|] eqn:Hl; [|reflexivity]. simpl.
    rewrite (Hout g l Hl); [reflexivity|congruence].
Qed.

(** X11: the setter of [Radio.group] keeps radios and groups in agreement.
    From a store where they agree it returns, for a radio and a group (or
    None) that exist; the radio is struck off the list of the group it had
    and added at the end of the list of the new one, also when the two are
    the same group; values and trace are untouched, and radios and groups
    agree again. *)
Theorem set_group_consistent r gr st o :
  consistent st ->
  widgets st !! r = Some o ->
  cls o = Radio ->
  (forall g, gr = Some g -> is_Some (groups st !! g)) ->
  exists st',
    set_group r gr st = Ok st'
    /\ widgets st' = <[r := mkWidget (cls o) (_value o) gr]> (widgets st)
    /\ (forall g, groups st' !! g = regrouped r gr g <$> groups st !! g)
    /\ trace st' = trace st
    /\ consistent st'.
Proof.
  intros HC Ho Hcls Hgr. assert (Hlt := lookup_lt_Some _ _ _ Ho).
  assert (Hstep : exists st',
    set_group r gr st = Ok st'
    /\ widgets st' = <[r := mkWidget (cls o) (_value o) gr]> (widgets st)
    /\ (forall g, groups st' !! g = regrouped r gr g <$> groups st !! g)
    /\ trace st' = trace st).
  { destruct (set_group_leave r st o HC Ho) as (st1 & E1 & W1 & T1 & G1).
    unfold set_group. rewrite Ho, Hcls, E1. unfold mbind at 1, result_bind at 1.
    destruct gr as [g1|].
    - destruct (Hgr g1 eq_refl) as [l1 Hl1].
      change (groups (store r (mkWidget (cls o) (_value o) (Some g1)) st1))
        with (groups st1).
      rewrite G1, Hl1. simpl. eexists. split; [reflexivity|].
      simpl. rewrite W1, T1. repeat split. intros g. unfold regrouped.
      destruct (decide (g = g1)) as [->|Hne].
      + rewrite list_lookup_insert_eq.
        2:{ eapply lookup_lt_is_Some. rewrite G1, Hl1. eauto. }
        rewrite Hl1. simpl.
        destruct (decide (Some g1 = Some g1)); [reflexivity|contradiction].
      + rewrite list_lookup_insert_ne by auto. rewrite G1.
        destruct (groups st !! g) as [l|]; [|reflexivity]. simpl.
        destruct (decide (Some g1 = Some g)) as [[= ->]|_]; [contradiction|].
        rewrite app_nil_r. reflexivity.
    - eexists. split; [reflexivity|]. simpl. rewrite W1, T1. repeat split.
      intros g. rewrite G1. unfold regrouped.
      destruct (groups st !! g) as [l|]; [|reflexivity]. simpl.
      rewrite app_nil_r. reflexivity. }
  destruct Hstep as (st' & E & W & G & T).
  exists st'. repeat split; try assumption.
  - (* members of a group *)
    destruct HC as [C1 C2].
    rewrite G in H. apply fmap_Some in H as (l0 & Hl0 & ->).
    destruct (C1 g l0 Hl0) as [Hnd _]. unfold regrouped.
    apply NoDup_app. split; [apply NoDup_ListNoDup, List.NoDup_filter, NoDup_ListNoDup, Hnd|]. split.
    + intros m Hm Hm'. apply elem_of_filter_ne in Hm as [_ Hm].
      destruct (decide (gr = Some g)); [|inversion Hm'].
      apply list_elem_of_singleton in Hm'. contradiction.
    + destruct (decide (gr = Some g)); constructor; [|constructor].
      intros Hin. inversion Hin.
  - destruct HC as [C1 C2].
    rewrite G in H. apply fmap_Some in H as (l0 & Hl0 & ->).
    destruct (C1 g l0 Hl0) as [_ Hmem]. unfold regrouped. intros Hin.
    rewrite W. apply elem_of_app in Hin as [Hin|Hin].
    + apply elem_of_filter_ne in Hin as [Hin Hne].
      rewrite list_lookup_insert_ne by auto. apply Hmem, Hin.
    + destruct (decide (gr = Some g)) as [->|]; [|inversion Hin].
      apply list_elem_of_singleton in Hin as ->.
      rewrite list_lookup_insert_eq by exact Hlt. eauto.
  - destruct HC as [C1 C2].
    rewrite G in H. apply fmap_Some in H as (l0 & Hl0 & ->).
    destruct (C1 g l0 Hl0) as [_ Hmem]. unfold regrouped.
    intros (o' & Ho' & Hg'). rewrite W in Ho'. apply elem_of_app.
    destruct (decide (r0 = r)) as [->|Hne].
    + rewrite list_lookup_insert_eq in Ho' by exact Hlt.
      injection Ho' as <-. simpl in Hg'. right.
      destruct (decide (gr = Some g)); [left|contradiction].
    + rewrite list_lookup_insert_ne in Ho' by auto. left.
      apply elem_of_filter_ne. split; [|exact Hne]. apply Hmem. eauto.
  - destruct HC as [C1 C2]. intros m o' g Ho' Hg'. rewrite W in Ho'.
    rewrite G. apply fmap_is_Some.
    destruct (decide (m = r)) as [->|Hne].
    + rewrite list_lookup_insert_eq in Ho' by exact Hlt.
      injection Ho' as <-. simpl in Hg'. apply Hgr, Hg'.
    + rewrite list_lookup_insert_ne in Ho' by auto. eapply C2; eauto.
Qed.

Lemma set_group_consistent_witness :
  exists st',
    set_group 1 None three_radios = Ok st'
    /\ groups st' !! 0%nat = Some [0; 2]%nat
    /\ consistent st'.
Proof.
  destruct (set_group_consistent 1 None three_radios
              (mkWidget Radio (VBool true) (Some 0%nat)))
    as (st' & E & _ & G & _ & C).
  - split.
    + intros g l. destruct g as [|g]; simpl; [|discriminate].
      intros [= <-]. split.
      * apply NoDup_ListNoDup.
        repeat (apply List.NoDup_cons; [simpl; lia|]). apply List.NoDup_nil.
      * intros r. split.
        -- intros Hin. destruct r as [|[|[|r]]]; simpl; eauto.
           exfalso.
           repeat (apply elem_of_cons in Hin as [Hin|Hin]; [discriminate|]).
           inversion Hin.
        -- intros (o & Ho & _). destruct r as [|[|[|r]]]; simpl in Ho;
             [repeat constructor..|discriminate].
    + intros r o g Ho Hg. destruct r as [|[|[|r]]]; simpl in Ho;
        try discriminate; injection Ho as <-; injection Hg as <-;
        eexists; reflexivity.
  - reflexivity.
  - reflexivity.
  - discriminate.
  - exists st'. split; [exact E|]. split; [|exact C]. rewrite G. reflexivity.
Defined.

End ValueMore.

(** ** TextInput *)

Module TextInputProps.
Import Ascii Value TextInput.

Lemma length_list_of_string s :
  Datatypes.length (list_ascii_of_string s) = String.length s.
Proof. induction s as [|a s IH]; simpl; congruence. Qed.

Lemma length_string_of_list l :
  String.length (string_of_list_ascii l) = Datatypes.length l.
Proof. induction l as [|a l IH]; simpl; congruence. Qed.

Lemma list_of_append s1 s2 :
  list_ascii_of_string (String.append s1 s2)
  = list_ascii_of_string s1 ++ list_ascii_of_string s2.
Proof. induction s1 as [|a s1 IH]; simpl; congruence. Qed.

Lemma slice_bound_nonneg n c :
  0 <= c -> slice_bound n c = Nat.min (Z.to_nat c) n.
Proof. intros Hc. unfold slice_bound. destruct (Z.ltb_spec c 0); lia. Qed.

Lemma py_slice_prefix {A : Type} (l : list A) c :
  0 <= c -> py_slice l 0 c = take (Z.to_nat c) l.
Proof.
  intros Hc. unfold py_slice.
  rewrite !slice_bound_nonneg by lia.
  change (Z.to_nat 0) with 0%nat. rewrite Nat.min_0_l, Nat.sub_0_r, drop_0.
  destruct (Nat.le_ge_cases (Z.to_nat c) (Datatypes.length l)).
  - rewrite Nat.min_l by lia. reflexivity.
  - rewrite Nat.min_r by lia. rewrite !take_ge by lia. reflexivity.
Qed.

Lemma py_slice_suffix {A : Type} (l : list A) c :
  0 <= c -> py_slice l c (Z.of_nat (Datatypes.length l)) = drop (Z.to_nat c) l.
Proof.
  intros Hc. unfold py_slice.
  rewrite !slice_bound_nonneg by lia. rewrite Nat2Z.id, Nat.min_id.
  destruct (Nat.le_ge_cases (Z.to_nat c) (Datatypes.length l)).
  - rewrite Nat.min_l by lia. apply take_ge. rewrite length_drop. lia.
  - rewrite Nat.min_r by lia. rewrite !drop_ge by lia. apply take_nil.
Qed.

(** The text without the character at [c], as a list. *)
Lemma cut_list s c :
  0 <= c ->
  list_ascii_of_string
    (String.append (slice s 0 c) (slice s (c + 1) (len s)))
  = take (Z.to_nat c) (list_ascii_of_string s)
    ++ drop (S (Z.to_nat c)) (list_ascii_of_string s).
Proof.
  intros Hc. unfold slice, len.
  rewrite list_of_append, !list_ascii_of_string_of_list_ascii.
  rewrite <- length_list_of_string.
  rewrite py_slice_prefix, py_slice_suffix by lia.
  replace (Z.to_nat (c + 1)) with (S (Z.to_nat c)) by lia. reflexivity.
Qed.

(** The text with [ch] put in at [c], as a list. *)
Lemma ins_list s c ch :
  0 <= c ->
  list_ascii_of_string
    (String.append (slice s 0 c) (String ch (slice s c (len s))))
  = take (Z.to_nat c) (list_ascii_of_string s)
    ++ ch :: drop (Z.to_nat c) (list_ascii_of_string s).
Proof.
  intros Hc. unfold slice, len.
  rewrite !list_of_append. simpl.
  rewrite !list_ascii_of_string_of_list_ascii.
  rewrite <- length_list_of_string.
  rewrite py_slice_prefix, py_slice_suffix by lia. reflexivity.
Qed.

Lemma len_list s : len s = Z.of_nat (Datatypes.length (list_ascii_of_string s)).
Proof. unfold len. rewrite length_list_of_string. reflexivity. Qed.

Lemma len_cut s c :
  0 <= c ->
  len (String.append (slice s 0 c) (slice s (c + 1) (len s)))
  = if c <? len s then len s - 1 else len s.
Proof.
  intros Hc. rewrite (len_list (String.append _ _)), cut_list by exact Hc.
  rewrite (len_list s). rewrite length_app, length_take, length_drop.
  destruct (Z.ltb_spec c (Z.of_nat (Datatypes.length (list_ascii_of_string s)))); lia.
Qed.

Lemma len_ins s c ch :
  0 <= c ->
  len (String.append (slice s 0 c) (String ch (slice s c (len s))))
  = len s + 1.
Proof.
  intros Hc. rewrite (len_list (String.append _ _)), ins_list by exact Hc.
  rewrite (len_list s). rewrite length_app, length_take. simpl.
  rewrite length_drop. lia.
Qed.

Lemma string_of_list_inj s s' :
  list_ascii_of_string s = list_ascii_of_string s' -> s = s'.
Proof.
  intros H. rewrite <- (string_of_list_ascii_of_string s), H.
  apply string_of_list_ascii_of_string.
Qed.

(** Cutting at or beyond the end leaves the text as it is. *)
Lemma cut_end s c :
  len s <= c ->
  String.append (slice s 0 c) (slice s (c + 1) (len s)) = s.
Proof.
  intros Hc. pose proof (len_list s) as Hl.
  apply string_of_list_inj. rewrite cut_list by (unfold len in *; lia).
  rewrite take_ge, drop_ge by lia. apply app_nil_r.
Qed.

(** Cutting out the character just put in gives the text back. *)
Lemma cut_ins s c ch :
  0 <= c <= len s ->
  let s' := String.append (slice s 0 c) (String ch (slice s c (len s))) in
  String.append (slice s' 0 c) (slice s' (c + 1) (len s')) = s.
Proof.
  intros Hc s'. pose proof (len_list s) as Hl.
  apply string_of_list_inj. rewrite cut_list by lia.
  unfold s'. rewrite ins_list by lia.
  set (l := list_ascii_of_string s) in *.
  assert (Hn : Datatypes.length (take (Z.to_nat c) l) = Z.to_nat c)
    by (rewrite length_take; lia).
  rewrite take_app_length' by (symmetry; exact Hn).
  replace (S (Z.to_nat c)) with (Datatypes.length (take (Z.to_nat c) l) + 1)%nat
    by lia.
  rewrite drop_app_add. simpl. rewrite drop_0. apply take_drop.
Qed.

Lemma Ok_inj_str (a b : string) : @Ok exn string a = Ok b -> a = b.
Proof. intros H. injection H. auto. Qed.

Lemma text_spec (a : attrs) st o s :
  widgets st !! self a = Some o -> _value o = VStr s -> text (a, st) = Ok s.
Proof.
  intros Ho Hv. unfold text, value_of. simpl. rewrite Ho, Hv. reflexivity.
Qed.

(** The setter on a store that holds a string for the input. *)
Lemma set_text_spec fuel s' (a : attrs) st o s :
  widgets st !! self a = Some o -> cls o = ValueWidget -> _value o = VStr s ->
  exists st' o',
    set_text fuel s' (a, st) = Ok (a, st')
    /\ widgets st' !! self a = Some o'
    /\ cls o' = ValueWidget /\ _value o' = VStr s'
    /\ (s' = s -> st' = st)
    /\ (s' <> s ->
        trace st' = [Update (self a); WidgetValueEvent (self a) (VStr s') (VStr s)]
                    ++ trace st).
Proof.
  intros Ho Hc Hv. assert (Hlt := lookup_lt_Some _ _ _ Ho).
  unfold set_text, set_value, set_value_with. simpl. rewrite Ho, Hv. simpl.
  destruct (String.eqb_spec s s') as [->|Hne].
  - exists st, o. repeat split; auto. intros H; contradiction.
  - unfold fire_value. rewrite Hc. unfold mbind, result_bind.
    eexists _, _. split; [reflexivity|]. simpl.
    rewrite list_lookup_insert_eq by exact Hlt.
    repeat split; auto. intros ->. contradiction.
Qed.


#[local] Ltac read_text o s Ho Hv :=
  erewrite text_spec; [|exact Ho|exact Hv]; unfold mbind, result_bind.

#[local] Ltac write_text o s Ho Hc Hv :=
  match goal with
  | |- context [set_text ?f ?s' (?a, ?st')] =>
      let st2 := fresh "st'" in
      let o2 := fresh "o'" in
      let E := fresh "E" in
      let Ho2 := fresh "Ho'" in
      let Hc2 := fresh "Hc'" in
      let Hv2 := fresh "Hv'" in
      destruct (set_text_spec f s' a st' o s Ho Hc Hv)
        as (st2 & o2 & E & Ho2 & Hc2 & Hv2 & _);
      rewrite E; eexists; split; [reflexivity|];
      split; [exists o2; eexists; simpl;
              split; [exact Ho2|]; split; [exact Hc2|]; split; [exact Hv2|]|]
  end.

(** One key keeps the input well formed and the cursor where it can be
    seen. *)
Lemma handle_step fuel k t :
  well_formed t ->
  exists t',
    handle fuel k t = Ok t'
    /\ well_formed t'
    /\ self (fst t') = self (fst t) /\ length (fst t') = length (fst t)
    /\ (cursor_visible t -> cursor_visible t')
    /\ (k = Home \/ k = End_ -> cursor_visible t').
Proof.
  intros (o & s & Ho & Hc & Hv & Hcur & Hoff & Hlen).
  destruct t as [[w n c off] st]. simpl in Ho, Hcur, Hoff, Hlen.
  unfold cursor_visible. simpl fst.
  destruct k; unfold handle.
  - unfold _onbackspace. simpl.
    destruct (Z.gtb_spec c 0) as [Hpos|Hzero].
    + unfold set_offset, set_cursor. simpl.
      read_text o s Ho Hv. write_text o s Ho Hc Hv.
      * rewrite len_cut by lia.
        destruct (Z.ltb_spec (c - 1) (len s)); destruct (Z.geb_spec (off - 1) 0); lia.
      * simpl. repeat split; intros; try (match goal with H : _ \/ _ |- _ => destruct H; discriminate end);
          destruct (Z.geb_spec (off - 1) 0); lia.
    + exists (mkAttrs w n c off, st). split; [reflexivity|]. split.
      * exists o, s. simpl. repeat split; auto; lia.
      * simpl. repeat split; intros; try (match goal with H : _ \/ _ |- _ => destruct H; discriminate end); tauto.
  - unfold _ondelete. read_text o s Ho Hv. simpl.
    destruct (Z.eqb_spec (len s) 0) as [Hz|Hnz]; simpl.
    + exists (mkAttrs w n c off, st). split; [reflexivity|]. split.
      * exists o, s. simpl. repeat split; auto; lia.
      * simpl. repeat split; intros; try (match goal with H : _ \/ _ |- _ => destruct H; discriminate end); tauto.
    + write_text o s Ho Hc Hv.
      * rewrite len_cut by lia. destruct (Z.ltb_spec c (len s)); lia.
      * simpl. repeat split; intros; try (match goal with H : _ \/ _ |- _ => destruct H; discriminate end); tauto.
  - unfold _onleft. simpl.
    destruct (Z.gtb_spec c 0) as [Hpos|Hzero].
    + unfold set_cursor. simpl.
      destruct (Z.ltb_spec (c - 1) off) as [Hlo|Hin].
      * unfold set_offset. simpl. eexists. split; [reflexivity|]. split.
        -- exists o, s. simpl. destruct (Z.geb_spec (off - 1) 0); repeat split; auto; lia.
        -- simpl. repeat split; intros; try (match goal with H : _ \/ _ |- _ => destruct H; discriminate end);
             destruct (Z.geb_spec (off - 1) 0); lia.
      * eexists. split; [reflexivity|]. split.
        -- exists o, s. simpl. repeat split; auto; lia.
        -- simpl. repeat split; intros; try (match goal with H : _ \/ _ |- _ => destruct H; discriminate end); lia.
    + exists (mkAttrs w n c off, st). split; [reflexivity|]. split.
      * exists o, s. simpl. repeat split; auto; lia.
      * simpl. repeat split; intros; try (match goal with H : _ \/ _ |- _ => destruct H; discriminate end); tauto.
  - unfold _onright. read_text o s Ho Hv. simpl.
    destruct (Z.ltb_spec c (len s)) as [Hin|Hend].
    + unfold set_cursor. simpl.
      destruct (Z.gtb_spec (c + 1) (off + n - 1)) as [Hhi|Hlo].
      * unfold set_offset. simpl. eexists. split; [reflexivity|]. split.
        -- exists o, s. simpl. destruct (Z.geb_spec (off + 1) 0); repeat split; auto; lia.
        -- simpl. repeat split; intros; try (match goal with H : _ \/ _ |- _ => destruct H; discriminate end);
             destruct (Z.geb_spec (off + 1) 0); lia.
      * eexists. split; [reflexivity|]. split.
        -- exists o, s. simpl. repeat split; auto; lia.
        -- simpl. repeat split; intros; try (match goal with H : _ \/ _ |- _ => destruct H; discriminate end); lia.
    + exists (mkAttrs w n c off, st). split; [reflexivity|]. split.
      * exists o, s. simpl. repeat split; auto; lia.
      * simpl. repeat split; intros; try (match goal with H : _ \/ _ |- _ => destruct H; discriminate end); tauto.
  - unfold _onhome, set_offset, set_cursor. simpl.
    eexists. split; [reflexivity|]. split.
    + exists o, s. simpl. repeat split; auto; lia.
    + simpl. repeat split; intros; lia.
  - unfold _onend. read_text o s Ho Hv.
    unfold set_cursor. simpl. read_text o s Ho Hv.
    unfold set_offset. simpl.
    eexists. split; [reflexivity|]. split.
    + exists o, s. simpl. destruct (Z.geb_spec (len s - n + 1) 0); repeat split; auto; lia.
    + simpl. repeat split; intros;
        destruct (Z.geb_spec (len s - n + 1) 0); lia.
  - unfold _onkey, set_cursor. simpl.
    destruct (Z.gtb_spec (c + 1) (off + n - 1)) as [Hhi|Hlo].
    + unfold set_offset. simpl.
      read_text o s Ho Hv.
      replace (c + 1 - 1) with c by lia. write_text o s Ho Hc Hv.
      * rewrite len_ins by lia. destruct (Z.geb_spec (off + 1) 0); lia.
      * simpl. repeat split; intros; try (match goal with H : _ \/ _ |- _ => destruct H; discriminate end);
          destruct (Z.geb_spec (off + 1) 0); lia.
    + simpl. read_text o s Ho Hv.
      replace (c + 1 - 1) with c by lia. write_text o s Ho Hc Hv.
      * rewrite len_ins by lia. lia.
      * simpl. repeat split; intros; try (match goal with H : _ \/ _ |- _ => destruct H; discriminate end); lia.
Qed.


(** X12: whatever keys are pressed, a well-formed [TextInput] stays well
    formed: every handler returns, the value is a string, the cursor lies
    within the text or just after it and the offset is not negative.  A
    cursor inside the window that [render] draws stays inside it, and after
    Home or End it is inside it wherever it was before. *)
Theorem keys_keep_well_formed fuel ks : forall t,
  well_formed t ->
  exists t',
    for_each ks (handle fuel) t = Ok t'
    /\ well_formed t'
    /\ self (fst t') = self (fst t) /\ length (fst t') = length (fst t)
    /\ (cursor_visible t -> cursor_visible t')
    /\ (forall k, last ks = Some k -> k = Home \/ k = End_ -> cursor_visible t').
Proof.
  induction ks as [|k ks IH]; intros t Hwf.
  - exists t. split; [reflexivity|]. split; [exact Hwf|].
    split; [reflexivity|]. split; [reflexivity|]. split; [auto|].
    intros k Hk. discriminate.
  - destruct (handle_step fuel k t Hwf) as (t1 & E1 & W1 & S1 & L1 & V1 & H1).
    destruct (IH t1 W1) as (t2 & E2 & W2 & S2 & L2 & V2 & H2).
    exists t2. simpl. rewrite E1. unfold mbind, result_bind.
    split; [exact E2|]. split; [exact W2|].
    split; [congruence|]. split; [congruence|]. split; [tauto|].
    intros k' Hlast Hk'. destruct ks as [|k2 ks'].
    + simpl in Hlast. injection Hlast as ->. simpl in E2.
      injection E2 as <-. apply H1, Hk'.
    + apply (H2 k'); [|exact Hk']. exact Hlast.
Qed.

Lemma keys_keep_well_formed_witness :
  exists t',
    for_each [Printable "!"%char; Left; Backspace; End_] (handle 0) hello = Ok t'
    /\ well_formed t'
    /\ cursor_visible t'.
Proof.
  destruct (keys_keep_well_formed 0 [Printable "!"%char; Left; Backspace; End_] hello)
    as (t' & E & W & _ & _ & _ & V).
  - eexists _, _. repeat split; try reflexivity; vm_compute; discriminate.
  - exists t'. split; [exact E|]. split; [exact W|].
    apply (V End_); [reflexivity|]. right. reflexivity.
Defined.

(** X13: typing a character and pressing backspace gives back the text and
    the cursor.  The window is not always given back: unless the typing had
    moved it right, it moves one cell to the left. *)
Theorem type_then_backspace fuel ch t :
  well_formed t ->
  exists t1 t2,
    _onkey fuel ch t = Ok t1
    /\ _onbackspace fuel t1 = Ok t2
    /\ text t2 = text t
    /\ _cursor (fst t2) = _cursor (fst t)
    /\ _offset (fst t2)
       = if _cursor (fst t) + 1 >? _offset (fst t) + length (fst t) - 1
         then _offset (fst t)
         else Z.max 0 (_offset (fst t) - 1).
Proof.
  intros (o & s & Ho & Hc & Hv & Hcur & Hoff & Hlen).
  destruct t as [[w n c off] st]. simpl in Ho, Hcur, Hoff, Hlen.
  simpl fst.
  set (off1 := if c + 1 >? off + n - 1 then off + 1 else off).
  assert (Hkey : exists st1 o1,
    _onkey fuel ch (mkAttrs w n c off, st) = Ok (mkAttrs w n (c + 1) off1, st1)
    /\ widgets st1 !! w = Some o1 /\ cls o1 = ValueWidget
    /\ _value o1 = VStr (String.append (slice s 0 c) (String ch (slice s c (len s))))).
  { unfold _onkey, set_cursor, off1. simpl.
    destruct (c + 1 >? off + n - 1).
    - unfold set_offset. simpl.
      replace (if off + 1 >=? 0 then off + 1 else 0) with (off + 1)
        by (destruct (Z.geb_spec (off + 1) 0); lia).
      read_text o s Ho Hv. replace (c + 1 - 1) with c by lia.
      match goal with |- context [set_text ?f ?s' (?a, ?st')] =>
        destruct (set_text_spec f s' a st' o s Ho Hc Hv)
          as (st1 & o1 & E & Ho1 & Hc1 & Hv1 & _) end.
      rewrite E. exists st1, o1. auto.
    - simpl. read_text o s Ho Hv. replace (c + 1 - 1) with c by lia.
      match goal with |- context [set_text ?f ?s' (?a, ?st')] =>
        destruct (set_text_spec f s' a st' o s Ho Hc Hv)
          as (st1 & o1 & E & Ho1 & Hc1 & Hv1 & _) end.
      rewrite E. exists st1, o1. auto. }
  destruct Hkey as (st1 & o1 & E1 & Ho1 & Hc1 & Hv1).
  rewrite E1. exists (mkAttrs w n (c + 1) off1, st1).
  unfold _onbackspace. simpl.
  destruct (Z.gtb_spec (c + 1) 0) as [_|]; [|lia].
  unfold set_offset, set_cursor. simpl.
  read_text o1 (String.append (slice s 0 c) (String ch (slice s c (len s)))) Ho1 Hv1.
  replace (c + 1 - 1) with c by lia.
  rewrite (cut_ins s c ch) by lia.
  match goal with |- context [set_text ?f ?s' (?a, ?st')] =>
    destruct (set_text_spec f s' a st' o1 _ Ho1 Hc1 Hv1)
      as (st2 & o2 & E2 & Ho2 & Hc2 & Hv2 & _) end.
  rewrite E2. eexists. split; [reflexivity|]. split; [reflexivity|].
  split.
  - erewrite text_spec; [|exact Ho2|exact Hv2].
    erewrite text_spec; [|exact Ho|exact Hv]. reflexivity.
  - simpl. split; [reflexivity|]. unfold off1.
    destruct (Z.gtb_spec (c + 1) (off + n - 1));
      match goal with |- context [?x >=? 0] => destruct (Z.geb_spec x 0) end; lia.
Qed.

Lemma type_then_backspace_witness :
  exists t1 t2,
    _onkey 0 "!"%char hello = Ok t1
    /\ _onbackspace 0 t1 = Ok t2
    /\ text t2 = Ok "hello"%string
    /\ _cursor (fst t2) = 5
    /\ _offset (fst t2) = 0.
Proof.
  destruct (type_then_backspace 0 "!"%char hello)
    as (t1 & t2 & E1 & E2 & T & C & O).
  - eexists _, _. repeat split; try reflexivity; vm_compute; discriminate.
  - exists t1, t2. repeat split; assumption.
Defined.

(** X14: at the ends of the text the keys do nothing at all: with the cursor
    at the start, backspace and left return the input as it is, and with the
    cursor at the end so do right and delete; delete does assign to the
    value there, but the same string, so that no event is fired and
    [update] is not called. *)
Theorem keys_at_the_ends fuel t s :
  well_formed t ->
  text t = Ok s ->
  (_cursor (fst t) = 0 -> _onbackspace fuel t = Ok t /\ _onleft t = Ok t)
  /\ (_cursor (fst t) = len s -> _ondelete fuel t = Ok t /\ _onright t = Ok t).
Proof.
  intros (o & s0 & Ho & Hc & Hv & Hcur & Hoff & Hlen) Hs.
  destruct t as [[w n c off] st]. simpl in Ho, Hcur, Hoff, Hlen.
  erewrite text_spec in Hs; [|exact Ho|exact Hv]. apply Ok_inj_str in Hs. subst s0.
  simpl. split; intros ->.
  - unfold _onbackspace, _onleft. simpl. auto.
  - unfold _ondelete, _onright. erewrite text_spec; [|exact Ho|exact Hv].
    unfold mbind, result_bind. simpl. rewrite Z.ltb_irrefl. split; [|reflexivity].
    destruct (Z.eqb_spec (len s) 0); simpl; [reflexivity|].
    rewrite cut_end by lia.
    destruct (set_text_spec fuel s (mkAttrs w n (len s) off) st o s Ho Hc Hv)
      as (st' & o' & E & _ & _ & _ & Hsame & _).
    rewrite E, (Hsame eq_refl). reflexivity.
Qed.

Lemma keys_at_the_ends_witness :
  _ondelete 0 hello = Ok hello /\ _onright hello = Ok hello.
Proof.
  apply (keys_at_the_ends 0 hello "hello"%string).
  - eexists _, _. repeat split; try reflexivity; vm_compute; discriminate.
  - reflexivity.
  - reflexivity.
Defined.

End TextInputProps.

(** ** Console *)

Module ConsoleProps.

Lemma fold_append {A B : Type} (f : B -> A) (xs : list B) : forall out,
  fold_left (fun out x => out ++ [f x]) xs out = out ++ map f xs.
Proof.
  induction xs as [|x xs IH]; intros out; simpl.
  - symmetry. apply app_nil_r.
  - rewrite IH, <- app_assoc. reflexivity.
Qed.

(** Counting down from [q * w] to 0 in steps of [w]. *)
Lemma range_down w : 0 < w -> forall q fuel,
  (q <= fuel)%nat ->
  range_from fuel (Z.of_nat q * w) 0 (- w)
  = map (fun i => Z.of_nat i * w) (rev (seq 1 q)).
Proof.
  intros Hw. induction q as [|q IH]; intros fuel Hf.
  - destruct fuel; simpl; [reflexivity|].
    destruct (Z.gtb_spec (- w) 0); [lia|]. reflexivity.
  - destruct fuel as [|fuel]; [lia|].
    rewrite seq_S, rev_unit. simpl map. cbn [range_from].
    destruct (Z.gtb_spec (- w) 0); [lia|].
    destruct (Z.gtb_spec (Z.of_nat (S q) * w) 0); [|nia].
    f_equal. rewrite <- (IH fuel) by lia. f_equal. lia.
Qed.

Lemma py_slice_within {A : Type} (l : list A) a b :
  0 <= a <= b ->
  py_slice l a b = take (Z.to_nat b - Z.to_nat a) (drop (Z.to_nat a) l).
Proof.
  intros H. unfold py_slice, slice_bound.
  destruct (Z.ltb_spec a 0); [lia|]. destruct (Z.ltb_spec b 0); [lia|].
  destruct (Z.le_ge_cases b (Z.of_nat (length l))).
  - rewrite !Z.min_l by lia. reflexivity.
  - rewrite (Z.min_r b) by lia. rewrite Nat2Z.id.
    destruct (Z.le_ge_cases a (Z.of_nat (length l))).
    + rewrite Z.min_l by lia.
      rewrite !take_ge; [reflexivity|rewrite length_drop; lia..].
    + rewrite Z.min_r by lia. rewrite Nat2Z.id.
      rewrite !drop_ge by lia. rewrite !take_nil. reflexivity.
Qed.

(** The full chunks of a line, first to last, make up its first [q * w]
    characters. *)
Lemma chunks_take {A : Type} (l : list A) w : 0 < w -> forall q,
  concat (map (fun i => py_slice l (Z.of_nat i * w - w) (Z.of_nat i * w)) (seq 1 q))
  = take (Z.to_nat (Z.of_nat q * w)) l.
Proof.
  intros Hw. induction q as [|q IH].
  - reflexivity.
  - rewrite seq_S, map_app, concat_app, IH. simpl. rewrite app_nil_r.
    rewrite py_slice_within by nia.
    replace (Z.to_nat (Z.of_nat (S q) * w - w)) with (Z.to_nat (Z.of_nat q * w))
      by nia.
    rewrite take_take_drop. f_equal. nia.
Qed.

Lemma split_line_eq w (l : line) out :
  0 < w ->
  split_line w l out
  = Ok (out
        ++ py_slice l (- (Z.of_nat (length l) mod w)) (Z.of_nat (length l))
        :: rev (map (fun i => py_slice l (Z.of_nat i * w - w) (Z.of_nat i * w))
                  (seq 1 (Z.to_nat (Z.of_nat (length l) / w))))).
Proof.
  intros Hw. unfold split_line.
  destruct (Z.eqb_spec w 0) as [|_]; [lia|]. f_equal.
  rewrite fold_append, <- app_assoc. simpl. f_equal. f_equal.
  set (n := Z.of_nat (length l)).
  pose proof (Z.div_mod n w ltac:(lia)) as Hdm.
  pose proof (Z.mod_pos_bound n w Hw) as Hrem.
  assert (Hq : 0 <= n / w) by (apply Z.div_pos; lia).
  unfold py_range.
  replace (n - n mod w) with (Z.of_nat (Z.to_nat (n / w)) * w) by lia.
  rewrite range_down by nia.
  rewrite map_map, map_rev. reflexivity.
Qed.


(** What is shown of the chunks of one line. *)
Lemma shown_line w (l : line) :
  0 < w ->
  concat (map (fun i => py_slice l (Z.of_nat i * w - w) (Z.of_nat i * w))
            (seq 1 (Z.to_nat (Z.of_nat (length l) / w))))
  ++ py_slice l (- (Z.of_nat (length l) mod w)) (Z.of_nat (length l))
  = if Z.of_nat (length l) mod w =? 0 then l ++ l else l.
Proof.
  intros Hw. rewrite chunks_take by exact Hw.
  set (n := Z.of_nat (length l)).
  pose proof (Z.div_mod n w ltac:(lia)) as Hdm.
  pose proof (Z.mod_pos_bound n w Hw) as Hrem.
  assert (Hq : 0 <= n / w) by (apply Z.div_pos; lia).
  rewrite Z2Nat.id by exact Hq.
  destruct (Z.eqb_spec (n mod w) 0) as [Hz|Hnz].
  - rewrite Hz. change (- 0) with 0. rewrite py_slice_within by lia.
    change (Z.to_nat 0) with 0%nat. rewrite Nat.sub_0_r, drop_0.
    rewrite !take_ge by (unfold n in *; lia). reflexivity.
  - unfold py_slice, slice_bound.
    destruct (Z.ltb_spec (- (n mod w)) 0); [|lia].
    destruct (Z.ltb_spec n 0); [lia|].
    rewrite Z.min_id. fold n.
    replace (Z.to_nat (Z.max 0 (n + - (n mod w)))) with (Z.to_nat (n / w * w))
      by lia.
    rewrite (take_ge (drop _ _)) by (rewrite length_drop; unfold n; lia).
    apply take_drop.
Qed.

Lemma update_loop w : 0 < w -> forall (lines : list line) out,
  exists more,
    for_each lines (split_line w) out = Ok (out ++ more)
    /\ concat (rev more)
       = concat (map (fun l => if Z.of_nat (length l) mod w =? 0 then l ++ l else l)
                   (rev lines))
    /\ Z.of_nat (length more)
       = py_sum (map (fun l => Z.of_nat (length l) / w + 1) lines).
Proof.
  intros Hw. induction lines as [|l lines IH]; intros out.
  - exists []. simpl. rewrite app_nil_r. auto.
  - simpl for_each. rewrite split_line_eq by exact Hw.
    unfold mbind, result_bind.
    match goal with |- context [for_each lines _ ?o] =>
      destruct (IH o) as (more & E & Hs & Hn) end.
    rewrite E. eexists. split; [rewrite <- app_assoc; reflexivity|]. split.
    + rewrite rev_app_distr, concat_app, Hs.
      simpl rev at 2. rewrite rev_involutive, concat_app. simpl concat at 3.
      rewrite app_nil_r, shown_line by exact Hw.
      simpl rev. rewrite map_app, concat_app. simpl. rewrite app_nil_r.
      reflexivity.
    + rewrite length_app, Nat2Z.inj_add, Hn. simpl length.
      rewrite length_rev, length_map, length_seq.
      simpl map. rewrite LayoutProps.py_sum_cons.
      assert (0 <= Z.of_nat (length l) / w) by (apply Z.div_pos; lia). lia.
Qed.

(** Counting down by one to [stop]. *)
Lemma range_countdown stop : forall n fuel x,
  (n <= fuel)%nat -> x = stop + Z.of_nat n ->
  range_from fuel x stop (-1) = map (fun i => x - Z.of_nat i) (seq 0 n).
Proof.
  induction n as [|n IH]; intros fuel x Hf Hx.
  - destruct fuel; simpl; [reflexivity|].
    destruct (Z.gtb_spec x stop); [lia|]. reflexivity.
  - destruct fuel as [|fuel]; [lia|]. cbn [range_from].
    change (-1 >? 0) with false. cbv iota.
    destruct (Z.gtb_spec x stop); [|lia].
    simpl seq. simpl map. f_equal; [lia|].
    rewrite (IH fuel (x + -1)) by lia.
    rewrite <- seq_shift, map_map. apply map_ext. intros i. lia.
Qed.

Lemma zip_counted {A : Type} (g : nat -> Z) (sp : list A) : forall n s,
  zip (map g (seq s n)) sp
  = imap (fun i l => (g (s + i)%nat, l)) (take n sp).
Proof.
  induction sp as [|l sp IH]; intros n s.
  - rewrite take_nil. destruct n; reflexivity.
  - destruct n as [|n]; [reflexivity|]. simpl. rewrite Nat.add_0_r. f_equal.
    rewrite IH. apply imap_ext. intros i x _. simpl. f_equal. f_equal. lia.
Qed.

(** [render] draws entry [i] on row [height - 1 - i], padded with spaces to
    the width of the canvas, for the first [height] entries only. *)
Lemma Console_render_rows cv (sp : list line) :
  Console_render cv sp
  = imap (fun i l =>
            (height cv - 1 - Z.of_nat i,
             l ++ repeat Ascii.Space (Z.to_nat (width cv - Z.of_nat (length l)))))
         (take (Z.to_nat (height cv)) sp).
Proof.
  unfold Console_render, py_range.
  destruct (Z.le_gt_cases (height cv) 0) as [Hh|Hh].
  - replace (Z.to_nat (height cv)) with 0%nat by lia. rewrite take_0.
    destruct (Z.to_nat _); simpl; [reflexivity|].
    destruct (Z.gtb_spec (height cv - 1) (-1)); [lia|]. reflexivity.
  - rewrite (range_countdown (-1) (Z.to_nat (height cv))) by lia.
    rewrite zip_counted.
    match goal with |- map ?f ?l = _ => change (map f l) with (f <$> l) end.
    rewrite fmap_imap. apply imap_ext. intros i x _. simpl.
    f_equal.
Qed.

(** X15: [recalc] of a Console on a canvas of positive width returns and
    renews [_splitlines]: a line of length [n] takes [n / width + 1]
    entries, and the entries read from the last to the first are the lines
    from the oldest to the newest, each in full - except that a line whose
    length is a multiple of the width (an empty line too) comes twice, once
    whole and once in chunks.  [render] then draws entry [i], padded with
    spaces to the width, on row [height - 1 - i], and only the first
    [height] entries.  On a canvas of width 0 the [recalc] of a Console that
    holds a line raises ZeroDivisionError. *)
Theorem Console_recalc_render v cv minheight (lines old : list line) :
  vcls v = Console minheight lines old ->
  _canvas v = Some cv ->
  (0 < width cv ->
   exists out,
     recalc v = Ok (with_cls (Console minheight lines out) v)
     /\ Z.of_nat (length out)
        = py_sum (map (fun l => Z.of_nat (length l) / width cv + 1) lines)
     /\ concat (rev out)
        = concat (map (fun l => if Z.of_nat (length l) mod width cv =? 0
                                then l ++ l else l)
                    (rev lines))
     /\ Console_render cv out
        = imap (fun i l =>
                  (height cv - 1 - Z.of_nat i,
                   l ++ repeat Ascii.Space
                          (Z.to_nat (width cv - Z.of_nat (length l)))))
               (take (Z.to_nat (height cv)) out))
  /\ (width cv = 0 -> lines <> [] -> recalc v = Raise ZeroDivisionError).
Proof.
  intros Hk Hcv.
  assert (Hrun : recalc v
                 = sp ← _update_splitlines (Some cv) lines;
                   Ok (with_cls (Console minheight lines sp) v)).
  { unfold recalc. rewrite LayoutProps.assign_canvas_eq, Hk, Hcv. cbv zeta.
    replace (with_canvas (Some cv) v) with v
      by (destruct v; simpl in *; subst; reflexivity).
    reflexivity. }
  rewrite Hrun.
  change (_update_splitlines (Some cv) lines)
    with (for_each lines (split_line (width cv)) []).
  split.
  - intros Hw.
    destruct (update_loop (width cv) Hw lines []) as (more & E & Hs & Hn).
    exists more. rewrite E. simpl.
    repeat split; [exact Hn|exact Hs|apply Console_render_rows].
  - intros Hw Hne. destruct lines as [|l lines]; [congruence|].
    simpl. unfold split_line. rewrite Hw. reflexivity.
Qed.

Lemma Console_recalc_render_witness :
  let v := console_on (Canvas 3 2) 1 8
             [list_ascii_of_string "abcd"; list_ascii_of_string "xyz"] in
  exists out,
    recalc v = Ok (with_cls
                     (Console 8 [list_ascii_of_string "abcd";
                                 list_ascii_of_string "xyz"] out) v)
    /\ out = map list_ascii_of_string ["d"; "abc"; "xyz"; "xyz"]%string
    /\ Console_render (Canvas 3 2) out
       = [(1, list_ascii_of_string "d  "); (0, list_ascii_of_string "abc")].
Proof.
  intros v.
  destruct (Console_recalc_render v (Canvas 3 2) 8
              [list_ascii_of_string "abcd"; list_ascii_of_string "xyz"] []
              eq_refl eq_refl)
    as [Hpos _].
  destruct (Hpos ltac:(reflexivity)) as (out & E & _ & _ & Hr).
  exists out. split; [exact E|].
  assert (Hout : out = map list_ascii_of_string ["d"; "abc"; "xyz"; "xyz"]%string).
  { vm_compute in E. injection E as E. symmetry. exact E. }
  split; [exact Hout|]. rewrite Hr, Hout. reflexivity.
Defined.

End ConsoleProps.

(** ** Moving the focus *)

Module FocusMore.

Lemma py_get_nonneg {A : Type} (l : list A) i :
  0 <= i < Z.of_nat (length l) ->
  exists x, py_get l i = Ok x /\ l !! Z.to_nat i = Some x.
Proof.
  intros Hi. unfold py_get, py_index.
  destruct (Z.leb_spec 0 i); [|lia]. destruct (Z.ltb_spec i (Z.of_nat (length l))); [|lia].
  simpl. destruct (l !! Z.to_nat i) as [x|] eqn:Hx.
  - exists x. auto.
  - apply lookup_ge_None in Hx. lia.
Qed.

(** The loop of [focus_next] stops at the nearest child in its direction
    that passes the test, or runs off the list. *)
Lemma scan_spec cs c step :
  step = 1 \/ step = -1 ->
  forall fuel i,
    (step = 1 -> 0 <= i) ->
    (step = -1 -> i < Z.of_nat (length cs)) ->
    (Z.to_nat (if (step =? 1)%Z then (Z.of_nat (length cs) - i)%Z else (i + 1)%Z)
       < fuel)%nat ->
    (exists j x,
        focus_scan fuel cs c step i = Ok (Some (j, x))
        /\ cs !! j = Some x /\ eligible c x = true
        /\ 0 <= step * (Z.of_nat j - i)
        /\ forall m y, cs !! m = Some y ->
             0 <= step * (Z.of_nat m - i) ->
             0 < step * (Z.of_nat j - Z.of_nat m) ->
             eligible c y = false)
    \/ (focus_scan fuel cs c step i = Ok None
        /\ forall m y, cs !! m = Some y ->
             0 <= step * (Z.of_nat m - i) -> eligible c y = false).
Proof.
  intros Hstep. induction fuel as [|k IH]; intros i H1 H2 Hf; [lia|].
  cbn [focus_scan].
  destruct (Z.leb_spec 0 i) as [Hlo|Hlo];
    destruct (Z.ltb_spec i (Z.of_nat (length cs))) as [Hhi|Hhi]; simpl andb; cbv iota.
  - destruct (py_get_nonneg cs i (conj Hlo Hhi)) as (x & -> & Hx).
    unfold mbind, result_bind.
    destruct (eligible c x) eqn:Hel.
    + left. exists (Z.to_nat i), x. split; [reflexivity|]. split; [exact Hx|].
      split; [exact Hel|]. split; [destruct Hstep as [-> | ->]; lia|].
      intros m y _ Hm1 Hm2. destruct Hstep as [-> | ->]; lia.
    + destruct (IH (i + step)) as [(j & y & E & Hj & Hy & Hpos & Hbetween)|[E Hnone]].
      * intros ->. lia.
      * intros ->. lia.
      * destruct Hstep as [-> | ->]; simpl in *; lia.
      * left. exists j, y. split; [exact E|]. split; [exact Hj|].
        split; [exact Hy|]. split; [destruct Hstep as [-> | ->]; lia|].
        intros m z Hm Hm1 Hm2.
        destruct (decide (m = Z.to_nat i)) as [->|Hne].
        -- rewrite Hx in Hm. injection Hm as <-. exact Hel.
        -- apply (Hbetween m z Hm); [|exact Hm2].
           destruct Hstep as [-> | ->]; lia.
      * right. split; [exact E|]. intros m z Hm Hm1.
        destruct (decide (m = Z.to_nat i)) as [->|Hne].
        -- rewrite Hx in Hm. injection Hm as <-. exact Hel.
        -- apply (Hnone m z Hm). destruct Hstep as [-> | ->]; lia.
  - right. split; [reflexivity|]. intros m y Hm Hm1.
    apply lookup_lt_Some in Hm. destruct Hstep as [-> | ->]; lia.
  - right. split; [reflexivity|]. intros m y Hm Hm1.
    apply lookup_lt_Some in Hm. destruct Hstep as [-> | ->]; lia.
  - right. split; [reflexivity|]. intros m y Hm Hm1.
    apply lookup_lt_Some in Hm. destruct Hstep as [-> | ->]; lia.
Qed.

Lemma focused_child_index_from_spec cs : forall k i c,
  _focused_child_index_from k cs = Some (i, c) ->
  (k <= i)%nat /\ cs !! (i - k)%nat = Some c /\ _focused c = true.
Proof.
  induction cs as [|x cs IH]; intros k i c; simpl; [discriminate|].
  destruct (_focused x) eqn:Hx.
  - intros [= <- <-]. rewrite Nat.sub_diag. auto.
  - intros H. apply IH in H as (Hle & Hl & Hf).
    split; [lia|]. split; [|exact Hf].
    replace (i - k)%nat with (S (i - S k)) by lia. exact Hl.
Qed.

(** The index the search of [focus_next] starts from: that of the focused
    child, or 0. *)
Lemma start_in_range cs :
  cs <> [] ->
  0 <= match _focused_child_index cs with
       | Some (i, _) => Z.of_nat i
       | None => 0
       end < Z.of_nat (length cs).
Proof.
  intros Hne. destruct (_focused_child_index cs) as [[i c]|] eqn:Hic.
  - apply focused_child_index_from_spec in Hic as (_ & Hl & _).
    apply lookup_lt_Some in Hl. lia.
  - destruct cs; [contradiction|]. simpl. lia.
Qed.

Lemma focus_next_cases fuel id step s v :
  find_view id (root s) = Some v ->
  is_container v = true ->
  children v <> [] ->
  step = 1 \/ step = -1 ->
  let ic := _focused_child_index (children v) in
  let start := match ic with Some (i, _) => Z.of_nat i | None => 0 end in
  (exists j x,
      children v !! j = Some x
      /\ eligible (snd <$> ic) x = true
      /\ 0 < step * (Z.of_nat j - start)
      /\ (forall m y, children v !! m = Some y ->
            0 < step * (Z.of_nat m - start) ->
            0 < step * (Z.of_nat j - Z.of_nat m) ->
            eligible (snd <$> ic) y = false)
      /\ focus_next fuel id step s
         = (s' ← set_focused fuel (vid x) true s; Ok (Some true, s')))
  \/ ((forall m y, children v !! m = Some y ->
         0 < step * (Z.of_nat m - start) ->
         eligible (snd <$> ic) y = false)
      /\ focus_next fuel id step s = Ok (Some false, s)).
Proof.
  intros Hv Hc Hne Hstep ic start.
  pose proof (start_in_range (children v) Hne) as Hstart. fold ic start in Hstart.
  unfold focus_next. rewrite Hv, Hc.
  destruct (Nat.eqb_spec (length (children v)) 0) as [Hz|_].
  { destruct (children v); [contradiction|discriminate]. }
  fold ic. fold start.
  destruct (scan_spec (children v) (snd <$> ic) step Hstep
              (S (length (children v))) (start + step))
    as [(j & x & E & Hj & Hx & Hpos & Hbetween)|[E Hnone]].
  - intros ->. lia.
  - intros ->. lia.
  - destruct Hstep as [-> | ->]; simpl; lia.
  - left. exists j, x. split; [exact Hj|]. split; [exact Hx|].
    split; [destruct Hstep as [-> | ->]; lia|]. split.
    + intros m y Hm Hm1 Hm2. apply (Hbetween m y Hm); [|exact Hm2].
      destruct Hstep as [-> | ->]; lia.
    + rewrite E. reflexivity.
  - right. split.
    + intros m y Hm Hm1. apply (Hnone m y Hm).
      destruct Hstep as [-> | ->]; lia.
    + rewrite E. reflexivity.
Qed.

(** X17: at the start of the list the focus does not move back: when no
    child is focused, or the first child is the focused one, [focus_prev]
    returns False and changes nothing.  And when nothing is focused
    [focus_next] looks at the second child first: if only the first child
    could take the focus, it returns False as well. *)
Theorem focus_prev_at_start fuel id s v :
  find_view id (root s) = Some v ->
  is_container v = true ->
  children v <> [] ->
  (forall i c, _focused_child_index (children v) = Some (i, c) -> i = 0%nat) ->
  focus_prev fuel id s = Ok (Some false, s)
  /\ (_focused_child_index (children v) = None ->
      (forall m y, children v !! S m = Some y -> eligible None y = false) ->
      focus_next fuel id 1 s = Ok (Some false, s)).
Proof.
  intros Hv Hc Hne Hfirst.
  assert (Hstart : match _focused_child_index (children v) with
                   | Some (i, _) => Z.of_nat i
                   | None => 0
                   end = 0).
  { destruct (_focused_child_index (children v)) as [[i c]|] eqn:Hic; [|reflexivity].
    rewrite (Hfirst i c eq_refl). reflexivity. }
  split.
  - unfold focus_prev.
    destruct (focus_next_cases fuel id (-1) s v Hv Hc Hne (or_intror eq_refl))
      as [(j & x & _ & _ & Hpos & _)|[_ E]]; [|exact E].
    rewrite Hstart in Hpos. lia.
  - intros Hnone Hrest.
    destruct (focus_next_cases fuel id 1 s v Hv Hc Hne (or_introl eq_refl))
      as [(j & x & Hj & Hx & Hpos & _)|[_ E]]; [|exact E].
    rewrite Hstart in Hpos. rewrite Hnone in Hx. simpl in Hx.
    destruct j as [|m]; [lia|]. rewrite (Hrest m x Hj) in Hx. discriminate.
Qed.

Lemma focus_prev_at_start_witness :
  focus_prev 5 0 three_buttons = Ok (Some false, three_buttons).
Proof.
  apply (focus_prev_at_start 5 0 three_buttons (root three_buttons)).
  - reflexivity.
  - reflexivity.
  - discriminate.
  - intros i c H. vm_compute in H. discriminate.
Defined.


(** *** The focus among the children of a flat container *)

Lemma with_children_eta v : with_children (children v) v = v.
Proof. destruct v; reflexivity. Qed.

Lemma with_focused_eta f v : _focused v = f -> with_focused f v = v.
Proof. destruct v; simpl. intros ->. reflexivity. Qed.

Lemma find_leaf id x :
  children x = [] ->
  find_view id x = if (vid x =? id)%nat then Some x else None.
Proof. intros Hx. rewrite TreeProps.find_view_eq, Hx. reflexivity. Qed.

Lemma find_among_in cs x :
  leaves cs -> NoDup (map vid cs) -> x ∈ cs -> find_among (vid x) cs = Some x.
Proof.
  induction cs as [|y cs IH]; intros Hl Hnd Hin; [inversion Hin|].
  apply Forall_cons in Hl as [[_ Hy] Hl]. simpl in Hnd.
  apply NoDup_cons in Hnd as [Hny Hnd]. simpl.
  rewrite (find_leaf _ y Hy).
  apply elem_of_cons in Hin as [->|Hin].
  - rewrite Nat.eqb_refl. reflexivity.
  - destruct (Nat.eqb_spec (vid y) (vid x)) as [Heq|_]; [|auto].
    exfalso. apply Hny. rewrite Heq. apply list_elem_of_fmap. eauto.
Qed.

Lemma find_child r0 cs x :
  leaves cs -> NoDup (vid r0 :: map vid cs) -> x ∈ cs ->
  find_view (vid x) (with_children cs r0) = Some x.
Proof.
  intros Hl Hnd Hin. apply NoDup_cons in Hnd as [Hr Hnd].
  rewrite TreeProps.find_view_eq. change (vid (with_children cs r0)) with (vid r0).
  destruct (Nat.eqb_spec (vid r0) (vid x)) as [Heq|_].
  - exfalso. apply Hr. rewrite Heq. apply list_elem_of_fmap. eauto.
  - apply find_among_in; assumption.
Qed.

Lemma find_self r0 cs :
  find_view (vid r0) (with_children cs r0) = Some (with_children cs r0).
Proof.
  rewrite TreeProps.find_view_eq. change (vid (with_children cs r0)) with (vid r0).
  rewrite Nat.eqb_refl. reflexivity.
Qed.

Lemma modify_leaf id f x :
  children x = [] ->
  modify id f x = if (vid x =? id)%nat then f x else x.
Proof.
  intros Hx. rewrite TreeProps.modify_eq, Hx. simpl.
  rewrite <- Hx at 1. rewrite with_children_eta. reflexivity.
Qed.

Lemma modify_child id f r0 cs :
  leaves cs -> vid r0 <> id ->
  modify id f (with_children cs r0)
  = with_children (map (fun x => if (vid x =? id)%nat then f x else x) cs) r0.
Proof.
  intros Hl Hne. rewrite TreeProps.modify_eq.
  change (vid (with_children cs r0)) with (vid r0).
  destruct (Nat.eqb_spec (vid r0) id) as [|_]; [contradiction|].
  change (children (with_children cs r0)) with cs.
  change (with_children ?a (with_children cs r0)) with (with_children a r0).
  f_equal. apply Forall_fmap_ext_1. eapply Forall_impl; [exact Hl|].
  intros x [_ Hx]. apply modify_leaf, Hx.
Qed.

Lemma modify_self f r0 cs :
  modify (vid r0) f (with_children cs r0) = f (with_children cs r0).
Proof.
  rewrite TreeProps.modify_eq. change (vid (with_children cs r0)) with (vid r0).
  rewrite Nat.eqb_refl. reflexivity.
Qed.

Lemma parent_of_eq id v :
  parent_of id v =
  if existsb (fun c => (vid c =? id)%nat) (children v) then Some (vid v)
  else (fix among (cs : list view) : option nat :=
          match cs with
          | [] => None
          | c :: cs' =>
              match parent_of id c with
              | Some p => Some p
              | None => among cs'
              end
          end) (children v).
Proof. destruct v; reflexivity. Qed.

Lemma parent_of_child r0 cs x :
  x ∈ cs -> parent_of (vid x) (with_children cs r0) = Some (vid r0).
Proof.
  intros Hin. rewrite parent_of_eq.
  change (children (with_children cs r0)) with cs.
  replace (existsb (fun c => (vid c =? vid x)%nat) cs) with true; [reflexivity|].
  symmetry. apply existsb_exists. exists x. split.
  - apply list_elem_of_In, Hin.
  - apply Nat.eqb_refl.
Qed.

Lemma parent_of_root r0 cs :
  leaves cs -> NoDup (vid r0 :: map vid cs) ->
  parent_of (vid r0) (with_children cs r0) = None.
Proof.
  intros Hl Hnd. apply NoDup_cons in Hnd as [Hr _]. rewrite parent_of_eq.
  change (children (with_children cs r0)) with cs.
  replace (existsb (fun c => (vid c =? vid r0)%nat) cs) with false.
  - induction Hl as [|c cs [_ Hc] _ IH]; [reflexivity|].
    rewrite parent_of_eq, Hc. simpl. apply IH.
    intros Hin. apply Hr. simpl. right. exact Hin.
  - symmetry. apply not_true_is_false. intros H.
    apply existsb_exists in H as (c & Hc & He). apply Nat.eqb_eq in He.
    apply Hr. rewrite <- He. apply list_elem_of_fmap. exists c.
    split; [reflexivity|]. apply list_elem_of_In, Hc.
Qed.

Lemma leaf_class x :
  is_container x = false ->
  (exists sz, vcls x = View sz) \/ (exists sz, vcls x = Widget sz)
  \/ (exists m ls sp, vcls x = Console m ls sp).
Proof.
  unfold is_container. destruct (vcls x); try discriminate; eauto 6.
Qed.

Lemma leaves_map (h : view -> view) cs :
  (forall x, vcls (h x) = vcls x /\ children (h x) = children x) ->
  leaves cs -> leaves (map h cs).
Proof.
  intros Hh Hl. apply Forall_map. eapply Forall_impl; [exact Hl|].
  intros x [H1 H2]. simpl. destruct (Hh x) as [Hk Hc].
  unfold is_container in *. rewrite Hk, Hc. auto.
Qed.

Lemma vid_map (h : view -> view) cs :
  (forall x, vid (h x) = vid x) -> map vid (map h cs) = map vid cs.
Proof. intros Hh. rewrite map_map. apply map_ext. exact Hh. Qed.

(** [x.focused = False] for a focused leaf child [x]. *)
Lemma unfocus_leaf n r0 cs x s :
  root s = with_children cs r0 ->
  leaves cs -> NoDup (vid r0 :: map vid cs) -> x ∈ cs ->
  _focused x = true ->
  exists s',
    set_focused (S (S n)) (vid x) false s = Ok s'
    /\ root s'
       = with_children
           (map (fun y => if (vid y =? vid x)%nat then with_focused false y else y) cs)
           r0.
Proof.
  intros Hroot Hl Hnd Hin Hf.
  assert (Hne : vid r0 <> vid x).
  { apply NoDup_cons in Hnd as [Hr _]. intros Heq. apply Hr. rewrite Heq.
    apply list_elem_of_fmap. eauto. }
  cbn [set_focused]. rewrite Hroot, (find_child r0 cs x Hl Hnd Hin), Hf.
  simpl Bool.eqb. cbv iota. simpl andb. cbv iota.
  unfold modify_scene. rewrite Hroot, (modify_child _ _ r0 cs Hl Hne).
  set (cs' := map _ cs).
  assert (Hin' : with_focused false x ∈ cs').
  { unfold cs'. apply list_elem_of_fmap. exists x. rewrite Nat.eqb_refl. auto. }
  assert (Hl' : leaves cs').
  { unfold cs'. apply leaves_map; [|exact Hl].
    intros y. destruct (vid y =? vid x)%nat; auto. }
  assert (Hnd' : NoDup (vid r0 :: map vid cs')).
  { unfold cs'. rewrite vid_map; [exact Hnd|].
    intros y. destruct (vid y =? vid x)%nat; reflexivity. }
  cbn [onunfocus]. simpl root.
  change (vid x) with (vid (with_focused false x)).
  rewrite (find_child r0 cs' _ Hl' Hnd' Hin').
  assert (Hx : is_container x = false).
  { unfold leaves in Hl. rewrite Forall_forall in Hl. apply (Hl x Hin). }
  change (vcls (with_focused false x)) with (vcls x).
  destruct (leaf_class x Hx) as [[sz ->]|[[sz ->]|(m & ls & sp & ->)]]; eexists; split; reflexivity.
Qed.

(** The loop of [onchildfocused] over the children named [ids]. *)
Lemma unfocus_loop n r0 cid : forall ids cs s,
  root s = with_children cs r0 ->
  leaves cs -> NoDup (vid r0 :: map vid cs) ->
  (forall a, a ∈ ids -> a ∈ map vid cs) ->
  exists s',
    for_each ids
      (fun c s' =>
         match find_view c (root s') with
         | None => Stuck
         | Some cv =>
             if _focused cv && negb (c =? cid)%nat
             then set_focused (S (S n)) c false s'
             else Ok s'
         end) s = Ok s'
    /\ root s'
       = with_children
           (map (fun y => if existsb (Nat.eqb (vid y)) ids && negb (vid y =? cid)%nat
                          then with_focused false y else y) cs) r0.
Proof.
  induction ids as [|a ids IH]; intros cs s Hroot Hl Hnd Hsub.
  - exists s. split; [reflexivity|]. rewrite Hroot. f_equal.
    symmetry. simpl. apply map_id.
  - destruct (proj1 (list_elem_of_fmap _ _ _) (Hsub a ltac:(left)))
      as (x & Ha & Hin). subst a.
    cbn [for_each]. rewrite Hroot, (find_child r0 cs x Hl Hnd Hin).
    set (h := fun y => if (vid y =? vid x)%nat && _focused y && negb (vid x =? cid)%nat
                       then with_focused false y else y).
    assert (Hstep : exists s1,
      (if _focused x && negb (vid x =? cid)%nat
       then set_focused (S (S n)) (vid x) false s else Ok s) = Ok s1
      /\ root s1 = with_children (map h cs) r0).
    { destruct (_focused x) eqn:Hf; destruct (negb (vid x =? cid)%nat) eqn:Hc;
        simpl andb; cbv iota.
      - destruct (unfocus_leaf n r0 cs x s Hroot Hl Hnd Hin Hf) as (s1 & E & R).
        exists s1. split; [exact E|]. rewrite R. f_equal.
        apply Forall_fmap_ext_1. apply Forall_forall. intros y Hy. unfold h.
        rewrite ?Hc. destruct (Nat.eqb_spec (vid y) (vid x)) as [Heq|]; [|reflexivity].
        assert (y = x) as ->.
        { apply NoDup_cons in Hnd as [_ Hnd].
          destruct (proj1 (list_elem_of_lookup _ _) Hy) as [i Hi].
          destruct (proj1 (list_elem_of_lookup _ _) Hin) as [j Hj].
          assert (i = j) as ->.
          { eapply NoDup_lookup; [exact Hnd| |];
              rewrite list_lookup_fmap; [rewrite Hi|rewrite Hj]; simpl;
              [rewrite Heq|]; reflexivity. }
          congruence. }
        rewrite ?Hf. reflexivity.
      - exists s. split; [reflexivity|]. rewrite Hroot. f_equal.
        rewrite <- (map_id cs) at 1. apply map_ext. intros y. unfold h.
        rewrite ?Hc, ?andb_false_r. reflexivity.
      - exists s. split; [reflexivity|]. rewrite Hroot. f_equal.
        rewrite <- (map_id cs) at 1. apply Forall_fmap_ext_1. apply Forall_forall.
        intros y Hy. unfold h.
        destruct ((vid y =? vid x)%nat && _focused y && true) eqn:Hc'; [|reflexivity].
        symmetry. apply with_focused_eta.
        apply andb_true_iff in Hc' as [Hc' _]. apply andb_true_iff in Hc' as [He _].
        apply Nat.eqb_eq in He.
        assert (y = x) as ->; [|exact Hf].
        apply NoDup_cons in Hnd as [_ Hnd].
        destruct (proj1 (list_elem_of_lookup _ _) Hy) as [i Hi].
        destruct (proj1 (list_elem_of_lookup _ _) Hin) as [j Hj].
        assert (i = j) as ->.
        { eapply NoDup_lookup; [exact Hnd| |];
            rewrite list_lookup_fmap; [rewrite Hi|rewrite Hj]; simpl;
            [rewrite He|]; reflexivity. }
        congruence.
      - exists s. split; [reflexivity|]. rewrite Hroot. f_equal.
        rewrite <- (map_id cs) at 1. apply map_ext. intros y. unfold h.
        rewrite ?andb_false_r. reflexivity. }
    destruct Hstep as (s1 & E1 & R1). rewrite E1. unfold mbind, result_bind.
    assert (Hh : forall y, vid (h y) = vid y).
    { intros y. unfold h. destruct (_ && _ && _); reflexivity. }
    destruct (IH (map h cs) s1 R1) as (s2 & E2 & R2).
    + apply leaves_map; [|exact Hl]. intros y. unfold h.
      destruct (_ && _ && _); auto.
    + rewrite vid_map by exact Hh. exact Hnd.
    + intros a Ha. rewrite vid_map by exact Hh. apply Hsub. right. exact Ha.
    + exists s2. split; [exact E2|]. rewrite R2. f_equal.
      rewrite map_map. apply map_ext. intros y.
      rewrite Hh. cbn [existsb]. unfold h.
      destruct (Nat.eqb_spec (vid y) (vid x)) as [Heq|Hne]; simpl orb; simpl andb.
      * rewrite <- Heq.
        destruct (_focused y) eqn:Hf; destruct (negb (vid y =? cid)%nat) eqn:Hc;
          simpl andb; cbv iota; rewrite ?andb_true_r, ?andb_false_r;
          try reflexivity.
        -- destruct (existsb _ ids); reflexivity.
        -- destruct (existsb _ ids); [|symmetry; apply with_focused_eta, Hf].
           reflexivity.
      * reflexivity.
Qed.


Lemma focusable_leaf x : is_container x = false -> focusable x = _focusable x.
Proof. intros H. destruct x. simpl in *. unfold is_container in *. simpl in *.
  rewrite H. reflexivity. Qed.

(** [c.focused = True] for a leaf child [c] of a flat container that is
    focusable and not focused. *)
Lemma set_focused_leaf_child n s c :
  flat (root s) ->
  c ∈ children (root s) ->
  _focused c = false -> _focusable c = true ->
  exists s',
    set_focused (4 + n) (vid c) true s = Ok s'
    /\ root s'
       = with_focused true
           (with_children
              (map (fun x => with_focused (vid x =? vid c)%nat x)
                 (children (root s)))
              (root s)).
Proof.
  intros (Hcont & Hnd & Hl) Hin Hf Hfa.
  set (r0 := root s) in *. set (cs := children r0) in *.
  assert (Hroot : root s = with_children cs r0)
    by (symmetry; apply with_children_eta).
  assert (Hc : is_container c = false).
  { unfold leaves in Hl. rewrite Forall_forall in Hl. apply (Hl c Hin). }
  assert (Hne : vid r0 <> vid c).
  { apply NoDup_cons in Hnd as [Hr _]. intros Heq. apply Hr. rewrite Heq.
    apply list_elem_of_fmap. eauto. }
  change (4 + n)%nat with (S (S (S (S n)))). cbn [set_focused].
  rewrite Hroot, (find_child r0 cs c Hl Hnd Hin), Hf.
  simpl Bool.eqb. cbv iota. rewrite (focusable_leaf c Hc), Hfa.
  simpl andb. cbv iota.
  unfold modify_scene at 1. rewrite Hroot, (modify_child _ _ r0 cs Hl Hne).
  set (g := fun x => if (vid x =? vid c)%nat then with_focused true x else x).
  set (cs1 := map g cs).
  assert (Hg : forall y, vid (g y) = vid y).
  { intros y. unfold g. destruct (vid y =? vid c)%nat; reflexivity. }
  assert (Hin1 : with_focused true c ∈ cs1).
  { unfold cs1. apply list_elem_of_fmap. exists c. unfold g.
    rewrite Nat.eqb_refl. auto. }
  assert (Hl1 : leaves cs1).
  { unfold cs1. apply leaves_map; [|exact Hl].
    intros y. unfold g. destruct (vid y =? vid c)%nat; auto. }
  assert (Hnd1 : NoDup (vid r0 :: map vid cs1)).
  { unfold cs1. rewrite vid_map; [exact Hnd|exact Hg]. }
  assert (Hfocus : exists s2,
    onfocus (S (S (S n))) (vid c) (mkScene (with_children cs1 r0) (calls s)) = Ok s2
    /\ root s2 = with_children cs1 r0).
  { cbn [onfocus]. simpl root.
    change (vid c) with (vid (with_focused true c)).
    rewrite (find_child r0 cs1 _ Hl1 Hnd1 Hin1).
    change (vcls (with_focused true c)) with (vcls c).
    destruct (leaf_class c Hc) as [[sz ->]|[[sz ->]|(m & ls & sp & ->)]]; eexists; split; reflexivity. }
  destruct Hfocus as (s2 & E2 & R2). rewrite E2. unfold mbind at 1, result_bind at 1.
  rewrite R2. change (vid c) with (vid (with_focused true c)) at 1.
  rewrite (parent_of_child r0 cs1 _ Hin1).
  cbn [onchildfocused]. simpl root. rewrite R2, find_self.
  change (is_container (with_children cs1 r0)) with (is_container r0).
  fold r0 in Hcont. rewrite Hcont.
  change (children (with_children cs1 r0)) with cs1.
  destruct (unfocus_loop n r0 (vid c) (map vid cs1) cs1
              (called (OnChildFocused (vid r0) (vid c)) s2) R2 Hl1 Hnd1
              (fun a Ha => Ha))
    as (s3 & E3 & R3).
  rewrite E3. unfold mbind, result_bind.
  unfold modify_scene. rewrite R3, modify_self.
  simpl root.
  match goal with |- context [with_focused true (with_children (map ?h cs1) r0)] =>
    set (cs2 := map h cs1) end.
  change (with_focused true (with_children cs2 r0))
    with (with_children cs2 (with_focused true r0)).
  change (vid r0) with (vid (with_focused true r0)) at 1.
  rewrite parent_of_root.
  - eexists. split; [reflexivity|]. simpl root.
    change (with_children cs2 (with_focused true r0))
      with (with_focused true (with_children cs2 r0)).
    f_equal. f_equal. unfold cs2, cs1. rewrite map_map.
    apply Forall_fmap_ext_1. apply Forall_forall. intros x Hx.
    rewrite Hg.
    replace (existsb (Nat.eqb (vid x)) (map vid (map g cs))) with true.
    + unfold g. destruct (vid x =? vid c)%nat; reflexivity.
    + symmetry. apply existsb_exists. exists (vid x). split; [|apply Nat.eqb_refl].
      apply list_elem_of_In. rewrite vid_map by exact Hg.
      apply list_elem_of_fmap. eauto.
  - unfold cs2. apply leaves_map; [|exact Hl1].
    intros y. destruct (_ && _); auto.
  - change (vid (with_focused true r0)) with (vid r0).
    unfold cs2. rewrite vid_map; [exact Hnd1|].
    intros y. destruct (_ && _); reflexivity.
Qed.

(** X18: focus is exclusive among the children of a flat container.
    Focusing a focusable leaf child that was not focused returns; afterwards
    that child is the one focused child, whichever children were focused
    before, the container is focused, and nothing else in the tree has
    changed. *)
Theorem set_focused_exclusive n s c :
  flat (root s) ->
  c ∈ children (root s) ->
  _focused c = false -> _focusable c = true ->
  exists s',
    set_focused (4 + n) (vid c) true s = Ok s'
    /\ root s'
       = with_focused true
           (with_children
              (map (fun x => with_focused (vid x =? vid c)%nat x)
                 (children (root s)))
              (root s)).
Proof. apply set_focused_leaf_child. Qed.

Lemma set_focused_exclusive_witness :
  exists s',
    set_focused (4 + 0) (vid (button 2)) true three_buttons = Ok s'
    /\ map _focused (children (root s')) = [false; true; false]
    /\ _focused (root s') = true.
Proof.
  destruct (set_focused_exclusive 0 three_buttons (button 2))
    as (s' & E & R).
  - split; [reflexivity|]. split.
    + apply NoDup_ListNoDup. simpl.
      repeat (apply List.NoDup_cons; [simpl; lia|]). apply List.NoDup_nil.
    + repeat constructor.
  - simpl. right. left.
  - reflexivity.
  - reflexivity.
  - exists s'. split; [exact E|]. rewrite R. split; reflexivity.
Defined.


(** X16: in a flat container with a child, [focus_next] (step 1) and
    [focus_prev] (step -1) return, and they look for the nearest child after
    (before) the focused one - after the first child when none is focused,
    so that the first child is never chosen - that is focusable, displayed
    and, with a focused child, on its z-index.  When there is one they
    return True, and that child has been given the focus: if it was not
    focused it is now the one focused child and the container is focused,
    nothing else having changed; if it was focused already nothing has
    changed at all.  When there is none they return False and nothing has
    changed; they never wrap around. *)
Theorem focus_next_nearest n step s :
  flat (root s) ->
  children (root s) <> [] ->
  step = 1 \/ step = -1 ->
  let cs := children (root s) in
  let ic := _focused_child_index cs in
  let start := match ic with Some (i, _) => Z.of_nat i | None => 0 end in
  (exists j x s',
      cs !! j = Some x
      /\ eligible (snd <$> ic) x = true
      /\ 0 < step * (Z.of_nat j - start)
      /\ (forall m y, cs !! m = Some y ->
            0 < step * (Z.of_nat m - start) ->
            0 < step * (Z.of_nat j - Z.of_nat m) ->
            eligible (snd <$> ic) y = false)
      /\ focus_next (4 + n) (vid (root s)) step s = Ok (Some true, s')
      /\ (if _focused x then s' = s
          else root s'
               = with_focused true
                   (with_children
                      (map (fun y => with_focused (vid y =? vid x)%nat y) cs)
                      (root s))))
  \/ ((forall m y, cs !! m = Some y ->
         0 < step * (Z.of_nat m - start) ->
         eligible (snd <$> ic) y = false)
      /\ focus_next (4 + n) (vid (root s)) step s = Ok (Some false, s)).
Proof.
  intros Hflat Hne Hstep cs ic start.
  pose proof Hflat as (Hcont & Hnd & Hl).
  assert (Hroot : root s = with_children cs (root s))
    by (symmetry; apply with_children_eta).
  assert (Hself : find_view (vid (root s)) (root s) = Some (root s)).
  { rewrite Hroot at 2. rewrite find_self, <- Hroot. reflexivity. }
  destruct (focus_next_cases (4 + n) (vid (root s)) step s (root s)
              Hself Hcont Hne Hstep)
    as [(j & x & Hj & Hx & Hpos & Hnear & E)|[Hnone E]]; [|right; auto].
  left. fold cs ic in Hj, Hx, Hnear, Hpos. fold start in Hpos, Hnear.
  assert (Hin : x ∈ cs) by (apply list_elem_of_lookup; eauto).
  assert (Hleaf : is_container x = false).
  { unfold leaves in Hl. rewrite Forall_forall in Hl. apply (Hl x Hin). }
  assert (Hfa : _focusable x = true).
  { rewrite <- (focusable_leaf x Hleaf). unfold eligible in Hx.
    destruct (focusable x); [reflexivity|discriminate]. }
  destruct (_focused x) eqn:Hf.
  - exists j, x, s. split; [exact Hj|]. split; [exact Hx|].
    split; [exact Hpos|]. split; [exact Hnear|].
    rewrite Hf. split; [|reflexivity].
    rewrite E. change (4 + n)%nat with (S (S (S (S n)))). cbn [set_focused].
    rewrite Hroot, (find_child (root s) cs x Hl Hnd Hin), Hf. reflexivity.
  - destruct (set_focused_leaf_child n s x Hflat Hin Hf Hfa) as (s' & E' & R').
    exists j, x, s'. split; [exact Hj|]. split; [exact Hx|].
    split; [exact Hpos|]. split; [exact Hnear|].
    rewrite Hf. split; [|exact R'].
    rewrite E, E'. reflexivity.
Qed.

Lemma focus_next_nearest_witness :
  exists s',
    focus_next (4 + 0) 0 1 three_buttons = Ok (Some true, s')
    /\ map _focused (children (root s')) = [false; true; false]
    /\ _focused (root s') = true.
Proof.
  destruct (focus_next_nearest 0 1 three_buttons)
    as [(j & x & s' & _ & _ & _ & _ & E & _)|[_ E]].
  - split; [reflexivity|]. split.
    + apply NoDup_ListNoDup. simpl.
      repeat (apply List.NoDup_cons; [simpl; lia|]). apply List.NoDup_nil.
    + repeat constructor.
  - discriminate.
  - left. reflexivity.
  - exists s'. split; [exact E|].
    vm_compute in E. injection E as <-. split; reflexivity.
  - vm_compute in E. discriminate.
Defined.


(** *** Adding and removing children *)

Lemma list_remove_last c cs x :
  Forall (fun y => vid y <> c) cs -> vid x = c ->
  list_remove c (cs ++ [x]) = Some cs.
Proof.
  intros Hcs Hx. induction Hcs as [|y cs Hy _ IH]; simpl.
  - rewrite Hx, Nat.eqb_refl. reflexivity.
  - destruct (Nat.eqb_spec (vid y) c); [contradiction|]. rewrite IH. reflexivity.
Qed.

Lemma set_dirty_idem d : forall v,
  fst (set_dirty d (fst (set_dirty d v))) = fst (set_dirty d v).
Proof.
  apply LayoutProps.view_induction. intros v IH.
  destruct v as [id k z f fa vs hs dp dd cv sc cs]. simpl in IH.
  assert (Hcs : map fst (map (set_dirty d) (map fst (map (set_dirty d) cs)))
                = map fst (map (set_dirty d) cs)).
  { rewrite !map_map. apply Forall_fmap_ext_1.
    eapply Forall_impl; [exact IH|]. intros x Hx. simpl. exact Hx. }
  destruct k; simpl; try reflexivity; f_equal; exact Hcs.
Qed.

Lemma set_dirty_container d cs r0 :
  is_container r0 = true ->
  fst (set_dirty d (with_children cs r0))
  = with_children (map (fun x => fst (set_dirty d x)) cs)
      (fst (set_dirty d (with_children [] r0))).
Proof.
  intros Hc. rewrite !LayoutMore.set_dirty_eq.
  change (is_container (with_children ?a r0)) with (is_container r0).
  rewrite Hc. simpl. rewrite map_map. reflexivity.
Qed.

Lemma set_dirty_leaf d x :
  is_container x = false ->
  is_container (fst (set_dirty d x)) = false
  /\ children (fst (set_dirty d x)) = children x
  /\ vid (fst (set_dirty d x)) = vid x
  /\ _focused (fst (set_dirty d x)) = _focused x.
Proof.
  intros Hc. rewrite LayoutMore.set_dirty_eq, Hc. simpl.
  unfold is_container in *. simpl. auto.
Qed.

(** X25: adding a fresh, unfocused leaf to a flat container and removing it
    again gives back the tree, marked dirty: the children are the ones
    there were, in their order, and nothing but the dirty flags has
    changed.  In between, the new child is the last child. *)
Theorem add_then_remove_child fuel s c :
  flat (root s) ->
  vid c ∉ vid (root s) :: map vid (children (root s)) ->
  is_container c = false -> children c = [] -> _focused c = false ->
  exists s1 s2,
    add_child (vid (root s)) c s = Ok s1
    /\ children (root s1)
       = map (fun x => fst (set_dirty true x)) (children (root s) ++ [c])
    /\ remove_child (S fuel) (vid (root s)) (vid c) s1 = Ok s2
    /\ root s2 = fst (set_dirty true (root s)).
Proof.
  intros (Hcont & Hnd & Hl) Hfresh Hc Hcc Hf.
  set (r0 := root s) in *. set (cs := children r0) in *.
  assert (Hroot : root s = with_children cs r0)
    by (symmetry; apply with_children_eta).
  set (D := fun x => fst (set_dirty true x)).
  set (D0 := fst (set_dirty true (with_children [] r0))).
  assert (HD0 : vid D0 = vid r0 /\ is_container D0 = true).
  { unfold D0. rewrite LayoutMore.set_dirty_eq.
    change (is_container (with_children [] r0)) with (is_container r0).
    rewrite Hcont. simpl. split; [reflexivity|exact Hcont]. }
  destruct HD0 as [HD0v HD0c].
  (* add_child *)
  unfold add_child. rewrite Hroot, find_self.
  change (is_container (with_children cs r0)) with (is_container r0).
  rewrite Hcont. unfold modify_scene. rewrite Hroot, modify_self.
  change (with_children (children (with_children cs r0) ++ [c]) (with_children cs r0))
    with (with_children (cs ++ [c]) r0).
  unfold mark_dirty. simpl root. rewrite find_self, modify_self.
  fold (D (with_children (cs ++ [c]) r0)).
  assert (Htree : D (with_children (cs ++ [c]) r0)
                  = with_children (map D cs ++ [D c]) D0).
  { unfold D. rewrite set_dirty_container by exact Hcont.
    rewrite map_app. reflexivity. }
  rewrite Htree. eexists. eexists. split; [reflexivity|]. split.
  { simpl. rewrite map_app. reflexivity. }
  (* the tree after add_child *)
  set (cs1 := map D cs ++ [D c]).
  assert (HDl : forall x, is_container x = false /\ children x = [] ->
            is_container (D x) = false /\ children (D x) = []).
  { intros x [H1 H2]. destruct (set_dirty_leaf true x H1) as (A & B & _).
    unfold D. rewrite B. auto. }
  assert (HDv : forall x, vid (D x) = vid x).
  { intros x. unfold D. apply (LayoutProps.set_dirty_fields true x). }
  assert (Hl1 : leaves cs1).
  { unfold cs1, leaves. apply Forall_app. split.
    - apply Forall_map. eapply Forall_impl; [exact Hl|]. intros x Hx. apply HDl, Hx.
    - constructor; [|constructor]. apply HDl. auto. }
  assert (Hids : map vid cs1 = map vid cs ++ [vid c]).
  { unfold cs1. rewrite map_app, vid_map by exact HDv. simpl. rewrite HDv. reflexivity. }
  assert (Hnd1 : NoDup (vid D0 :: map vid cs1)).
  { rewrite HD0v, Hids. apply NoDup_cons in Hnd as [Hr Hnd].
    apply NoDup_cons. split.
    - intros Hin. apply elem_of_app in Hin as [Hin|Hin]; [contradiction|].
      apply list_elem_of_singleton in Hin. apply Hfresh. rewrite <- Hin. left.
    - apply NoDup_app. split; [exact Hnd|]. split.
      + intros x Hx Hx'. apply list_elem_of_singleton in Hx'. subst x.
        apply Hfresh. right. exact Hx.
      + apply NoDup_singleton. }
  assert (Hin1 : D c ∈ cs1).
  { unfold cs1. apply elem_of_app. right. left. }
  (* remove_child *)
  unfold remove_child. simpl root.
  rewrite <- (HDv c) at 1. rewrite (find_child D0 cs1 (D c) Hl1 Hnd1 Hin1).
  assert (HfD : _focused (D c) = false).
  { destruct (set_dirty_leaf true c Hc) as (_ & _ & _ & E). unfold D.
    rewrite E. exact Hf. }
  cbn [set_focused]. simpl root.
  rewrite <- (HDv c) at 1. rewrite (find_child D0 cs1 (D c) Hl1 Hnd1 Hin1), HfD.
  simpl Bool.eqb. cbv iota. unfold mbind at 1, result_bind at 1. simpl root.
  rewrite <- HD0v at 1. rewrite find_self.
  change (children (with_children cs1 D0)) with cs1. unfold cs1 at 1.
  rewrite (list_remove_last (vid c) (map D cs) (D c)).
  2:{ apply Forall_map. apply Forall_forall. intros x Hx. simpl. rewrite HDv.
      intros Heq. apply Hfresh. right. rewrite <- Heq.
      apply list_elem_of_fmap. eauto. }
  2:{ apply HDv. }
  rewrite ?HfD. unfold modify_scene. simpl root.
  rewrite <- HD0v at 1. rewrite modify_self.
  change (with_children (map D cs) (with_children cs1 D0))
    with (with_children (map D cs) D0).
  unfold mbind, result_bind. unfold mark_dirty. simpl root.
  rewrite <- HD0v at 1. rewrite find_self.
  rewrite <- HD0v at 1. rewrite modify_self.
  split; [reflexivity|]. cbn [root].
  assert (E : with_children (map D cs) D0 = D (with_children cs r0)).
  { unfold D. rewrite set_dirty_container by exact Hcont. reflexivity. }
  rewrite E.
  transitivity (D (with_children cs r0)); [unfold D; apply set_dirty_idem|].
  unfold D, cs. rewrite with_children_eta. reflexivity.
Qed.

Lemma add_then_remove_child_witness :
  exists s1 s2,
    add_child 0 (button 3) two_buttons = Ok s1
    /\ map vid (children (root s1)) = [1; 2; 3]%nat
    /\ remove_child 1 0 3 s1 = Ok s2
    /\ root s2 = fst (set_dirty true (root two_buttons)).
Proof.
  destruct (add_then_remove_child 0 two_buttons (button 3))
    as (s1 & s2 & E1 & C1 & E2 & R2).
  - split; [reflexivity|]. split.
    + apply NoDup_ListNoDup. simpl.
      repeat (apply List.NoDup_cons; [simpl; lia|]). apply List.NoDup_nil.
    + repeat constructor.
  - simpl. intros H.
    repeat (apply elem_of_cons in H as [H|H]; [discriminate|]). inversion H.
  - reflexivity.
  - reflexivity.
  - reflexivity.
  - exists s1, s2. split; [exact E1|]. split; [rewrite C1; reflexivity|].
    split; [exact E2|exact R2].
Defined.


(** *** Taking the focus away from a flat container *)

Lemma same_vid cs x y :
  NoDup (map vid cs) -> x ∈ cs -> y ∈ cs -> vid y = vid x -> y = x.
Proof.
  intros Hnd Hx Hy Heq.
  destruct (proj1 (list_elem_of_lookup _ _) Hy) as [i Hi].
  destruct (proj1 (list_elem_of_lookup _ _) Hx) as [j Hj].
  assert (i = j) as ->; [|congruence].
  eapply NoDup_lookup; [exact Hnd| |];
    rewrite list_lookup_fmap; [rewrite Hi|rewrite Hj]; simpl;
    [rewrite Heq|]; reflexivity.
Qed.

(** [x.focused = False] for a leaf child [x], focused or not. *)
Lemma unfocus_any n r0 cs x s :
  root s = with_children cs r0 ->
  leaves cs -> NoDup (vid r0 :: map vid cs) -> x ∈ cs ->
  exists s',
    set_focused (S (S n)) (vid x) false s = Ok s'
    /\ root s'
       = with_children
           (map (fun y => if (vid y =? vid x)%nat then with_focused false y else y) cs)
           r0.
Proof.
  intros Hroot Hl Hnd Hin. destruct (_focused x) eqn:Hf.
  - apply unfocus_leaf; assumption.
  - exists s. split.
    + cbn [set_focused]. rewrite Hroot, (find_child r0 cs x Hl Hnd Hin), Hf.
      reflexivity.
    + rewrite Hroot. f_equal. rewrite <- (map_id cs) at 1.
      apply Forall_fmap_ext_1. apply Forall_forall. intros y Hy.
      destruct (Nat.eqb_spec (vid y) (vid x)) as [Heq|]; [|reflexivity].
      apply NoDup_cons in Hnd as [_ Hnd].
      rewrite (same_vid cs x y Hnd Hin Hy Heq).
      symmetry. apply with_focused_eta, Hf.
Qed.

(** The loop of [ContainerView.onunfocus] over the children named [ids]. *)
Lemma unfocus_all n r0 : forall ids cs s,
  root s = with_children cs r0 ->
  leaves cs -> NoDup (vid r0 :: map vid cs) ->
  (forall a, a ∈ ids -> a ∈ map vid cs) ->
  exists s',
    for_each ids (fun c s' => set_focused (S (S n)) c false s') s = Ok s'
    /\ root s'
       = with_children
           (map (fun y => if existsb (Nat.eqb (vid y)) ids
                          then with_focused false y else y) cs) r0.
Proof.
  induction ids as [|a ids IH]; intros cs s Hroot Hl Hnd Hsub.
  - exists s. split; [reflexivity|]. rewrite Hroot. f_equal.
    symmetry. simpl. apply map_id.
  - destruct (proj1 (list_elem_of_fmap _ _ _) (Hsub a ltac:(left)))
      as (x & Ha & Hin). subst a.
    cbn [for_each].
    destruct (unfocus_any n r0 cs x s Hroot Hl Hnd Hin) as (s1 & E1 & R1).
    rewrite E1. unfold mbind, result_bind.
    set (h := fun y => if (vid y =? vid x)%nat then with_focused false y else y) in *.
    assert (Hh : forall y, vid (h y) = vid y).
    { intros y. unfold h. destruct (vid y =? vid x)%nat; reflexivity. }
    destruct (IH (map h cs) s1 R1) as (s2 & E2 & R2).
    + apply leaves_map; [|exact Hl]. intros y. unfold h.
      destruct (vid y =? vid x)%nat; auto.
    + rewrite vid_map by exact Hh. exact Hnd.
    + intros a Ha. rewrite vid_map by exact Hh. apply Hsub. right. exact Ha.
    + exists s2. split; [exact E2|]. rewrite R2. f_equal.
      rewrite map_map. apply map_ext. intros y.
      rewrite Hh. cbn [existsb]. unfold h.
      destruct (Nat.eqb_spec (vid y) (vid x)) as [Heq|Hne]; simpl orb.
      * destruct (existsb _ ids); [|reflexivity].
        destruct y; reflexivity.
      * reflexivity.
Qed.

(** X26: taking the focus away from a focused flat container takes it away
    from every child: the call returns, and afterwards neither the
    container nor any of its children is focused; nothing else in the tree
    has changed. *)
Theorem set_unfocused_cascade n s :
  flat (root s) ->
  _focused (root s) = true ->
  exists s',
    set_focused (4 + n) (vid (root s)) false s = Ok s'
    /\ root s'
       = with_focused false
           (with_children (map (with_focused false) (children (root s)))
              (root s)).
Proof.
  intros (Hcont & Hnd & Hl) Hf.
  set (r0 := root s) in *. set (cs := children r0) in *.
  assert (Hroot : root s = with_children cs r0)
    by (symmetry; apply with_children_eta).
  change (4 + n)%nat with (S (S (S (S n)))). cbn [set_focused].
  rewrite Hroot, find_self.
  change (_focused (with_children cs r0)) with (_focused r0). rewrite Hf.
  simpl Bool.eqb. cbv iota. simpl andb. cbv iota.
  unfold modify_scene. rewrite Hroot, modify_self.
  change (with_focused false (with_children cs r0))
    with (with_children cs (with_focused false r0)).
  set (r1 := with_focused false r0).
  assert (Hnd1 : NoDup (vid r1 :: map vid cs)) by exact Hnd.
  destruct (unfocus_all n r1 (map vid cs) cs
              (called (OnUnfocus (vid r1))
                 (mkScene (with_children cs r1) (calls s)))
              eq_refl Hl Hnd1 (fun a Ha => Ha))
    as (s2 & E2 & R2).
  assert (Hrun : onunfocus (S (S (S n))) (vid r0)
                   (mkScene (with_children cs r1) (calls s)) = Ok s2).
  { cbn [onunfocus]. simpl root. change (vid r0) with (vid r1).
    rewrite find_self.
    change (vcls (with_children cs r1)) with (vcls r0).
    change (children (with_children cs r1)) with cs.
    unfold is_container in Hcont.
    destruct (vcls r0); try discriminate; exact E2. }
  rewrite Hrun. eexists. split; [reflexivity|]. rewrite R2.
  change (with_focused false (with_children (map (with_focused false) cs) r0))
    with (with_children (map (with_focused false) cs) r1).
  f_equal. apply Forall_fmap_ext_1. apply Forall_forall. intros x Hx.
  replace (existsb (Nat.eqb (vid x)) (map vid cs)) with true; [reflexivity|].
  symmetry. apply existsb_exists. exists (vid x). split; [|apply Nat.eqb_refl].
  apply list_elem_of_In, list_elem_of_fmap. eauto.
Qed.

Lemma set_unfocused_cascade_witness :
  exists s',
    set_focused (4 + 0) 0 false all_focused = Ok s'
    /\ map _focused (children (root s')) = [false; false]
    /\ _focused (root s') = false.
Proof.
  destruct (set_unfocused_cascade 0 all_focused) as (s' & E & R).
  - split; [reflexivity|]. split.
    + apply NoDup_ListNoDup. simpl.
      repeat (apply List.NoDup_cons; [simpl; lia|]). apply List.NoDup_nil.
    + repeat constructor.
  - reflexivity.
  - exists s'. split; [exact E|]. rewrite R. split; reflexivity.
Defined.

End FocusMore.

(** ** Sizes and the layout pass *)

Module SizeProps.
Import LayoutProps.

Lemma fold_max_spec r : forall x,
  (fold_left Z.max r x = x \/ fold_left Z.max r x ∈ r)
  /\ x <= fold_left Z.max r x
  /\ Forall (fun y => y <= fold_left Z.max r x) r.
Proof.
  induction r as [|a r IH]; intros x; simpl.
  - split; [left; reflexivity|]. split; [lia|constructor].
  - destruct (IH (Z.max x a)) as (Hin & Hle & Hall).
    split; [|split].
    + destruct Hin as [Hin|Hin]; [|right; right; exact Hin].
      destruct (Z.max_spec x a) as [[_ Hm]|[_ Hm]]; rewrite Hm in *.
      * right. rewrite Hin. left.
      * left. exact Hin.
    + lia.
    + constructor; [lia|exact Hall].
Qed.

(** [max(l)] is an element of [l] that no element exceeds. *)
Lemma py_max_spec l :
  l <> [] -> py_max l ∈ l /\ Forall (fun y => y <= py_max l) l.
Proof.
  destruct l as [|x r]; [contradiction|]. intros _. unfold py_max.
  destruct (fold_max_spec r x) as (Hin & Hle & Hall). split.
  - destruct Hin as [->|Hin]; [left|right; exact Hin].
  - constructor; assumption.
Qed.

Lemma py_max_perm l l' : l ≡ₚ l' -> py_max l = py_max l'.
Proof.
  intros Hp. destruct l as [|x r].
  - apply Permutation_nil in Hp. subst. reflexivity.
  - assert (Hne : l' <> []).
    { intros ->. symmetry in Hp. apply Permutation_nil in Hp. discriminate. }
    destruct (py_max_spec (x :: r) ltac:(discriminate)) as [Hin Hall].
    destruct (py_max_spec l' Hne) as [Hin' Hall'].
    apply list_elem_of_In in Hin. apply (Permutation_in _ Hp) in Hin.
    apply list_elem_of_In in Hin'.
    apply (Permutation_in _ (Permutation_sym Hp)) in Hin'.
    apply list_elem_of_In in Hin. apply list_elem_of_In in Hin'.
    rewrite Forall_forall in Hall, Hall'.
    apply Z.le_antisymm; auto.
Qed.

Lemma py_sum_perm l l' : l ≡ₚ l' -> py_sum l = py_sum l'.
Proof.
  induction 1 as [|x l l' _ IH|x y l|l l' l'' _ IH1 _ IH2].
  - reflexivity.
  - rewrite !py_sum_cons, IH. reflexivity.
  - rewrite !py_sum_cons. lia.
  - congruence.
Qed.

Lemma size_eq v :
  size v =
  let ws := map (fun c => fst (size c)) (children v) in
  let hs := map (fun c => snd (size c)) (children v) in
  match vcls v with
  | View s | Widget s => s
  | Console minheight _ _ => (1, minheight)
  | ContainerView | Align _ _ =>
      match children v with
      | [] => (0, 0)
      | _ => (py_max ws, py_max hs)
      end
  | Box title =>
      let '(w, h) := match children v with
                     | [] => (0, 0)
                     | _ => (py_max ws, py_max hs)
                     end in
      let w := w + 4 in
      let h := h + 2 in
      match title with
      | Some t => if (0 <? Z.of_nat (String.length t))%Z
                  then (Z.max w (Z.of_nat (String.length t) + 4), h)
                  else (w, h)
      | None => (w, h)
      end
  | Vertical =>
      match children v with
      | [] => (0, 0)
      | _ => (py_max ws, py_sum hs)
      end
  | Horizontal =>
      match children v with
      | [] => (0, 0)
      | _ => (py_sum ws, py_max hs)
      end
  | Grid g => _size g
  end.
Proof. destruct v; reflexivity. Qed.

Lemma match_nil_perm {A B : Type} (l l' : list A) (a b : B) :
  l ≡ₚ l' ->
  match l with [] => a | _ :: _ => b end
  = match l' with [] => a | _ :: _ => b end.
Proof.
  intros Hp. destruct l, l'; try reflexivity.
  - apply Permutation_nil in Hp. discriminate.
  - symmetry in Hp. apply Permutation_nil in Hp. discriminate.
Qed.

(** The size of a view is a function of its class and of the sizes of its
    children, in any order. *)
Lemma size_by_children v v' :
  vcls v' = vcls v ->
  map size (children v') ≡ₚ map size (children v) ->
  size v' = size v.
Proof.
  intros Hk Hp. rewrite (size_eq v), (size_eq v'), Hk. cbv zeta.
  assert (Hw : map (fun c => fst (size c)) (children v')
               ≡ₚ map (fun c => fst (size c)) (children v)).
  { rewrite <- !(map_map size fst). apply Permutation_map, Hp. }
  assert (Hh : map (fun c => snd (size c)) (children v')
               ≡ₚ map (fun c => snd (size c)) (children v)).
  { rewrite <- !(map_map size snd). apply Permutation_map, Hp. }
  assert (Hn : forall (a b : Z * Z),
             match children v' with [] => a | _ :: _ => b end
             = match children v with [] => a | _ :: _ => b end).
  { intros a b.
    destruct (children v'), (children v); try reflexivity; simpl in Hp.
    - apply Permutation_nil in Hp. discriminate.
    - symmetry in Hp. apply Permutation_nil in Hp. discriminate. }
  rewrite (py_max_perm _ _ Hw), (py_max_perm _ _ Hh),
    (py_sum_perm _ _ Hw), (py_sum_perm _ _ Hh).
  destruct (vcls v); try reflexivity; rewrite Hn; reflexivity.
Qed.

Lemma size_set_dirty d : forall v, size (fst (set_dirty d v)) = size v.
Proof.
  apply view_induction. intros v IH.
  apply size_by_children; [apply (set_dirty_fields d v)|].
  destruct (is_container v) eqn:Hc.
  - rewrite children_set_dirty by exact Hc. rewrite map_map.
    apply eq_subrelation; [typeclasses eauto|].
    apply Forall_fmap_ext_1. exact IH.
  - replace (children (fst (set_dirty d v))) with (children v); [reflexivity|].
    destruct v as [? k ? ? ? ? ? ? ? ? ? ?]. unfold is_container in Hc.
    simpl in *. destruct k; try discriminate; reflexivity.
Qed.

(** The children after the loop of a stack are the children before it or
    what their canvas setters returned. *)
Lemma stack_loop_rel extent stretch sub perc kids : forall rem pos cs,
  stack_loop extent stretch sub perc kids rem pos = Ok cs ->
  Forall2 (fun (k : kid) c => c = fst k \/ exists cv, snd k cv = Ok c) kids cs.
Proof.
  induction kids as [|[c assign] kids IH]; intros rem pos cs; simpl.
  - intros H. apply Ok_inj in H. subst. constructor.
  - destruct (extent c =? 0).
    + destruct (stack_loop _ _ _ _ kids _ _) as [rest| |] eqn:Hrest;
        unfold mbind, result_bind; try discriminate.
      intros H. apply Ok_inj in H. subst. constructor; [left; reflexivity|].
      eapply IH, Hrest.
    + destruct (assign _) as [c'| |] eqn:Hc; unfold mbind at 1, result_bind at 1;
        try discriminate.
      destruct (stack_loop _ _ _ _ kids _ _) as [rest| |] eqn:Hrest;
        unfold mbind, result_bind; try discriminate.
      intros H. apply Ok_inj in H. subst. constructor; [right; eauto|].
      eapply IH, Hrest.
Qed.

Lemma sizes_of_rel (kids : list kid) cs :
  Forall (fun k : kid => forall cv c', snd k cv = Ok c' -> size c' = size (fst k)) kids ->
  Forall2 (fun (k : kid) c => c = fst k \/ exists cv, snd k cv = Ok c) kids cs ->
  map size cs = map (fun k : kid => size (fst k)) kids.
Proof.
  intros Hk Hrel. induction Hrel as [|k c kids cs Hc _ IH]; [reflexivity|].
  apply Forall_cons in Hk as [Hk1 Hk2]. simpl. f_equal; [|apply IH, Hk2].
  destruct Hc as [->|[cv Hc]]; [reflexivity|]. eapply Hk1, Hc.
Qed.

Lemma assign_all_rel cv (kids : list kid) cs :
  assign_all cv kids = Ok cs ->
  Forall2 (fun (k : kid) c => c = fst k \/ exists cv, snd k cv = Ok c) kids cs.
Proof.
  unfold assign_all. intros H.
  pose proof (collect_Forall2 (fun k : kid => snd k cv) kids cs H) as H2.
  eapply Forall2_impl; [exact H2|]. intros k c Hc. right. exists cv. exact Hc.
Qed.

(** The canvas setter, and with it the whole layout pass below a view,
    leaves the class and the size of the view as they were; of a Console it
    renews [_splitlines]. *)
Lemma assign_canvas_size : forall v cv v',
  assign_canvas cv v = Ok v' ->
  match vcls v with
  | Console m ls _ =>
      exists sp, _update_splitlines cv ls = Ok sp /\ vcls v' = Console m ls sp
  | k => vcls v' = k
  end /\ size v' = size v.
Proof.
  apply (view_induction (fun v => forall cv v',
           assign_canvas cv v = Ok v' ->
           match vcls v with
           | Console m ls _ =>
               exists sp, _update_splitlines cv ls = Ok sp
                          /\ vcls v' = Console m ls sp
           | k => vcls v' = k
           end /\ size v' = size v)).
  intros v IH cv v'. rewrite assign_canvas_eq. cbv zeta.
  set (kids := map (fun c => (c, fun cv' => assign_canvas cv' c)) (children v)).
  assert (Hkids : Forall (fun k : kid => forall cv c', snd k cv = Ok c' ->
                            size c' = size (fst k)) kids).
  { unfold kids. apply Forall_map. eapply Forall_impl; [exact IH|].
    intros c Hc cv0 c' Hrun. simpl in *. apply (Hc cv0 c' Hrun). }
  assert (Hmap : map (fun k : kid => size (fst k)) kids = map size (children v)).
  { unfold kids. rewrite map_map. reflexivity. }
  assert (Hdone : forall cs,
            Forall2 (fun (k : kid) c => c = fst k \/ exists cv, snd k cv = Ok c) kids cs ->
            vcls (with_children cs (with_canvas cv v)) = vcls v
            /\ size (with_children cs (with_canvas cv v)) = size v).
  { intros cs Hrel. split; [reflexivity|].
    apply size_by_children; [reflexivity|].
    change (children (with_children cs _)) with cs.
    rewrite (sizes_of_rel kids cs Hkids Hrel), Hmap. reflexivity. }
  destruct (vcls v) eqn:Hk.
  - intros H. apply Ok_inj in H. subst v'.
    split; [exact Hk|]. apply LayoutMore.size_with_canvas.
  - intros H. apply Ok_inj in H. subst v'.
    split; [exact Hk|]. apply LayoutMore.size_with_canvas.
  - unfold ContainerView_recalc. destruct (dirty _).
    + destruct (assign_all _ _) as [cs| |] eqn:Hall; unfold mbind, result_bind;
        try discriminate.
      intros H. apply Ok_inj in H. subst v'.
      destruct (set_dirty_fields false
                  (with_shouldclear true (with_children cs (with_canvas cv v))))
        as (_ & _ & Hcls).
      split; [rewrite Hcls; exact Hk|]. rewrite size_set_dirty.
      apply size_by_children; [reflexivity|].
      change (children (with_shouldclear true (with_children cs _))) with cs.
      apply assign_all_rel in Hall.
      rewrite (sizes_of_rel (sort_by_zindex kids) cs).
      * rewrite <- Hmap. apply Permutation_map, sort_by_zindex_perm.
      * rewrite sort_by_zindex_perm. exact Hkids.
      * exact Hall.
    + intros H. apply Ok_inj in H. subst v'.
      split; [exact Hk|]. apply LayoutMore.size_with_canvas.
  - unfold Align_recalc. destruct cv as [c|]; [|discriminate].
    destruct (assign_all _ _) as [cs| |] eqn:Hall; unfold mbind, result_bind;
      try discriminate.
    intros H. apply Ok_inj in H. subst v'.
    apply Hdone. eapply assign_all_rel, Hall.
  - unfold Box_recalc. destruct cv as [c|]; [|discriminate].
    destruct (assign_all _ _) as [cs| |] eqn:Hall; unfold mbind, result_bind;
      try discriminate.
    intros H. apply Ok_inj in H. subst v'.
    apply Hdone. eapply assign_all_rel, Hall.
  - unfold Vertical_recalc. destruct cv as [c|]; [|discriminate].
    destruct (stack_loop _ _ _ _ _ _ _) as [cs| |] eqn:Hloop;
      unfold mbind, result_bind; try discriminate.
    intros H. apply Ok_inj in H. subst v'.
    eapply Hdone, stack_loop_rel, Hloop.
  - unfold Horizontal_recalc. destruct cv as [c|]; [|discriminate].
    destruct (stack_loop _ _ _ _ _ _ _) as [cs| |] eqn:Hloop;
      unfold mbind, result_bind; try discriminate.
    intros H. apply Ok_inj in H. subst v'.
    eapply Hdone, stack_loop_rel, Hloop.
  - unfold Grid_recalc.
    destruct (for_each _ _ _) as [st| |]; unfold mbind, result_bind;
      try discriminate.
    intros H. apply Ok_inj in H. subst v'.
    split; [exact Hk|]. rewrite !size_eq. simpl vcls. rewrite Hk. reflexivity.
  - destruct (_update_splitlines _ _) as [sp| |] eqn:Hsp;
      unfold mbind, result_bind; try discriminate.
    intros H. apply Ok_inj in H. subst v'.
    split; [exists sp; split; reflexivity|].
    rewrite !size_eq. simpl vcls. rewrite Hk. reflexivity.
Qed.


(** X19: the layout pass never changes what a view asks for: when the
    canvas setter (and so [recalc]) returns, it hands back the view under
    the same identity, with the canvas it was given and with the size it
    had, whatever it does to the views below, and of the same class with
    the same attributes, except that a Console has had its [_splitlines]
    renewed for the new canvas.  The setter returns on every tree that holds
    neither a Grid nor a Console with a line. *)
Theorem recalc_keeps_size v :
  (forall cv v', assign_canvas cv v = Ok v' ->
     size v' = size v /\ vid v' = vid v /\ _canvas v' = cv
     /\ match vcls v with
        | Console m ls _ =>
            exists sp, _update_splitlines cv ls = Ok sp
                       /\ vcls v' = Console m ls sp
        | k => vcls v' = k
        end)
  /\ (plain v = true ->
      forall cv, exists v', assign_canvas (Some cv) v = Ok v').
Proof.
  split.
  - intros cv v' H. destruct (assign_canvas_size v cv v' H) as [Hk Hs].
    destruct (assign_canvas_fields cv v v' H) as [Hc Hi]. auto.
  - apply assign_canvas_total.
Qed.

Lemma py_sum_nonneg l : Forall (fun y => 0 <= y) l -> 0 <= py_sum l.
Proof.
  induction 1 as [|y l Hy _ IH]; [reflexivity|]. rewrite py_sum_cons. lia.
Qed.

Lemma py_sum_covers l x :
  Forall (fun y => 0 <= y) l -> x ∈ l -> x <= py_sum l.
Proof.
  induction 1 as [|y l Hy Hl IH]; intros Hin; [inversion Hin|].
  rewrite py_sum_cons. pose proof (py_sum_nonneg l Hl).
  apply elem_of_cons in Hin as [->|Hin]; [lia|]. specialize (IH Hin). lia.
Qed.

Lemma py_max_covers l x : x ∈ l -> x <= py_max l.
Proof.
  intros Hin. assert (Hne : l <> []) by (intros ->; inversion Hin).
  destruct (py_max_spec l Hne) as [_ Hall]. rewrite Forall_forall in Hall. auto.
Qed.

(** X20: the minimum size of a container covers every child.  A
    ContainerView and an Align are at least as wide and as high as each
    child, a Box by its border more (4 columns and 2 rows); a Vertical is at
    least as wide as each child, and as high when no child has a negative
    height; a Horizontal likewise with the axes exchanged. *)
Theorem size_covers_children v c :
  c ∈ children v ->
  match vcls v with
  | ContainerView | Align _ _ =>
      fst (size c) <= fst (size v) /\ snd (size c) <= snd (size v)
  | Box _ =>
      fst (size c) + 4 <= fst (size v) /\ snd (size c) + 2 <= snd (size v)
  | Vertical =>
      fst (size c) <= fst (size v)
      /\ (Forall (fun x => 0 <= snd (size x)) (children v) ->
          snd (size c) <= snd (size v))
  | Horizontal =>
      snd (size c) <= snd (size v)
      /\ (Forall (fun x => 0 <= fst (size x)) (children v) ->
          fst (size c) <= fst (size v))
  | _ => True
  end.
Proof.
  intros Hin. rewrite (size_eq v). cbv zeta.
  assert (Hw : fst (size c) ∈ map (fun c => fst (size c)) (children v))
    by (apply list_elem_of_fmap; eauto).
  assert (Hh : snd (size c) ∈ map (fun c => snd (size c)) (children v))
    by (apply list_elem_of_fmap; eauto).
  apply py_max_covers in Hw as Hmw. apply py_max_covers in Hh as Hmh.
  assert (Hsum : forall f : view -> Z,
            Forall (fun x => 0 <= f x) (children v) ->
            f c <= py_sum (map f (children v))).
  { intros f Hp. apply py_sum_covers.
    - apply Forall_fmap. exact Hp.
    - apply list_elem_of_fmap. eauto. }
  destruct (children v) as [|c0 cs] eqn:Hcs; [inversion Hin|].
  destruct (vcls v) as [| | | | t | | | |]; try exact I; cbn [fst snd].
  - split; assumption.
  - split; assumption.
  - destruct t as [t|]; [destruct (0 <? Z.of_nat (String.length t))|];
      cbn [fst snd]; lia.
  - split; [assumption|]. intros Hpos.
    apply (Hsum (fun x => snd (size x)) Hpos).
  - split; [assumption|]. intros Hpos.
    apply (Hsum (fun x => fst (size x)) Hpos).
Qed.

Lemma size_covers_children_witness :
  fst (size (button 2)) <= fst (size (root two_buttons))
  /\ snd (size (button 2)) <= snd (size (root two_buttons)).
Proof.
  apply (size_covers_children (root two_buttons) (button 2)).
  right. left.
Defined.

(** The size of a Box exceeds that of each child by the border. *)
Lemma Box_size_covers v title c :
  vcls v = Box title -> c ∈ children v ->
  fst (size c) + 4 <= fst (size v) /\ snd (size c) + 2 <= snd (size v).
Proof.
  intros Hk Hin. rewrite (size_eq v), Hk. cbv zeta.
  assert (Hw : fst (size c) ∈ map (fun c => fst (size c)) (children v))
    by (apply list_elem_of_fmap; eauto).
  assert (Hh : snd (size c) ∈ map (fun c => snd (size c)) (children v))
    by (apply list_elem_of_fmap; eauto).
  apply py_max_covers in Hw. apply py_max_covers in Hh.
  destruct (children v) as [|c0 cs] eqn:Hcs; [inversion Hin|].
  destruct title as [t|]; [destruct (0 <? Z.of_nat (String.length t))|];
    cbn [fst snd]; lia.
Qed.

(** X21: a Box that is given at least its minimum size has room for its
    children inside the border: every child gets the canvas that leaves two
    columns on either side and one row above and below, and that canvas is
    at least as wide and as high as the child asks for.  The pass returns
    when the tree below the Box holds neither a Grid nor a Console with a
    line. *)
Theorem Box_recalc_fits v cv title :
  vcls v = Box title ->
  _canvas v = Some cv ->
  fst (size v) <= width cv ->
  snd (size v) <= height cv ->
  (forall v', recalc v = Ok v' ->
     Forall (fun c =>
               exists k, _canvas c = Some k
                 /\ k = SubCanvas cv 2 1 (width cv - 4) (height cv - 2)
                 /\ fst (size c) <= width k /\ snd (size c) <= height k)
            (children v'))
  /\ (plain v = true -> exists v', recalc v = Ok v').
Proof.
  intros Hk Hcv Hw Hh. split;
    [|intros Hfree; unfold recalc; rewrite Hcv;
      apply assign_canvas_total, Hfree].
  intros v'. unfold recalc. rewrite assign_canvas_eq, Hk, Hcv. cbv zeta.
  unfold Box_recalc, assign_all. rewrite map_map. simpl.
  set (subc := SubCanvas cv 2 1 (width cv - 4) (height cv - 2)).
  destruct (collect _) as [cs| |] eqn:Hcol; unfold mbind, result_bind;
    try discriminate.
  intros H. apply Ok_inj in H. subst v'. simpl children.
  apply collect_Forall2 in Hcol.
  change (children (with_canvas (Some cv) v)) with (children v) in Hcol.
  assert (Hall : Forall (fun c => fst (size c) + 4 <= width cv
                                  /\ snd (size c) + 2 <= height cv) (children v)).
  { apply Forall_forall. intros c Hc.
    pose proof (Box_size_covers v title c Hk Hc). lia. }
  induction Hcol as [|c c' l l' Hrun _ IH]; [constructor|].
  apply Forall_cons in Hall as [[Hcw Hch] Hall].
  constructor; [|apply IH, Hall].
  destruct (assign_canvas_size c _ c' Hrun) as [_ Hs].
  destruct (assign_canvas_fields _ c c' Hrun) as [Hc _].
  exists subc. split; [exact Hc|]. split; [reflexivity|]. rewrite Hs.
  unfold subc. simpl. unfold clamp. lia.
Qed.

Lemma Box_recalc_fits_witness :
  exists v',
    recalc boxed_label = Ok v'
    /\ Forall (fun c =>
                 exists k, _canvas c = Some k
                   /\ k = SubCanvas (Canvas 20 5) 2 1
                            (width (Canvas 20 5) - 4) (height (Canvas 20 5) - 2)
                   /\ fst (size c) <= width k /\ snd (size c) <= height k)
         (children v').
Proof.
  eexists. split; [vm_compute; reflexivity|].
  apply (proj1 (Box_recalc_fits boxed_label (Canvas 20 5) None eq_refl eq_refl
                  ltac:(vm_compute; discriminate) ltac:(vm_compute; discriminate)));
    reflexivity.
Defined.

End SizeProps.

(** ** Decade *)

Module DecadeProps.
Import Value Decade.

Lemma number_spec (a : attrs) st o z :
  widgets st !! self a = Some o -> _value o = VInt z -> number (a, st) = Ok z.
Proof.
  intros Ho Hv. unfold number, value_of. simpl. rewrite Ho, Hv. reflexivity.
Qed.

Lemma delta_spec (a : attrs) :
  0 <= _cursor a -> decimals a <= 0 ->
  _delta a = Ok (10 ^ (_cursor a - decimals a))
  /\ 0 < 10 ^ (_cursor a - decimals a).
Proof.
  intros Hc Hd. unfold _delta.
  destruct (Z.leb_spec 0 (_cursor a - decimals a)); [|lia].
  split; [reflexivity|]. apply Z.pow_pos_nonneg; lia.
Qed.

(** The setter on a store that holds an integer for the decade. *)
Lemma set_number_spec fuel z' (a : attrs) st o z :
  widgets st !! self a = Some o -> cls o = ValueWidget -> _value o = VInt z ->
  exists st' o',
    set_number fuel z' (a, st) = Ok (a, st')
    /\ widgets st' !! self a = Some o'
    /\ cls o' = ValueWidget /\ _value o' = VInt z'.
Proof.
  intros Ho Hc Hv. assert (Hlt := lookup_lt_Some _ _ _ Ho).
  unfold set_number, set_value, set_value_with. simpl. rewrite Ho, Hv. simpl.
  destruct (Z.eqb_spec z z') as [->|Hne].
  - exists st, o. auto.
  - unfold fire_value. rewrite Hc. unfold mbind, result_bind.
    eexists _, _. split; [reflexivity|]. simpl.
    rewrite list_lookup_insert_eq by exact Hlt. auto.
Qed.

(** One key keeps the decade in range. *)
Lemma decade_step fuel k t :
  in_range t -> exists t', handle fuel k t = Ok t' /\ in_range t'.
Proof.
  intros (o & z & Ho & Hc & Hv & Hz & Hcur & Hdec).
  destruct t as [[w n dc c mx mn] st]. simpl in Ho, Hz, Hcur, Hdec.
  destruct k; unfold handle.
  - unfold _onright. simpl. destruct (Z.gtb_spec c 0).
    + eexists. split; [reflexivity|]. exists o, z. simpl.
      repeat split; auto; lia.
    + eexists. split; [reflexivity|]. exists o, z. simpl.
      repeat split; auto; lia.
  - unfold _onleft. simpl. destruct (Z.ltb_spec c (n - 1)).
    + eexists. split; [reflexivity|]. exists o, z. simpl.
      repeat split; auto; lia.
    + eexists. split; [reflexivity|]. exists o, z. simpl.
      repeat split; auto; lia.
  - unfold _add. erewrite number_spec; [|exact Ho|exact Hv].
    unfold mbind at 1, result_bind at 1. cbn [fst].
    destruct (delta_spec (mkAttrs w n dc c mx mn)) as [Hd Hpos]; [simpl; lia..|].
    rewrite Hd. unfold mbind, result_bind. simpl in Hpos. simpl.
    destruct (Z.leb_spec (z + 10 ^ (c - dc)) mx).
    + destruct (set_number_spec fuel (z + 10 ^ (c - dc))
                  (mkAttrs w n dc c mx mn) st o z Ho Hc Hv)
        as (st' & o' & E & Ho' & Hc' & Hv').
      rewrite E. eexists. split; [reflexivity|]. exists o'. eexists.
      simpl. repeat split; eauto; lia.
    + destruct (set_number_spec fuel mx
                  (mkAttrs w n dc c mx mn) st o z Ho Hc Hv)
        as (st' & o' & E & Ho' & Hc' & Hv').
      rewrite E. eexists. split; [reflexivity|]. exists o'. eexists.
      simpl. repeat split; eauto; lia.
  - unfold _sub. erewrite number_spec; [|exact Ho|exact Hv].
    unfold mbind at 1, result_bind at 1. cbn [fst].
    destruct (delta_spec (mkAttrs w n dc c mx mn)) as [Hd Hpos]; [simpl; lia..|].
    rewrite Hd. unfold mbind, result_bind. simpl in Hpos. simpl.
    destruct (Z.geb_spec (z - 10 ^ (c - dc)) mn).
    + destruct (set_number_spec fuel (z - 10 ^ (c - dc))
                  (mkAttrs w n dc c mx mn) st o z Ho Hc Hv)
        as (st' & o' & E & Ho' & Hc' & Hv').
      rewrite E. eexists. split; [reflexivity|]. exists o'. eexists.
      simpl. repeat split; eauto; lia.
    + destruct (set_number_spec fuel mn
                  (mkAttrs w n dc c mx mn) st o z Ho Hc Hv)
        as (st' & o' & E & Ho' & Hc' & Hv').
      rewrite E. eexists. split; [reflexivity|]. exists o'. eexists.
      simpl. repeat split; eauto; lia.
Qed.

(** X22: whatever keys are pressed, a decade without decimals that holds an
    integer between [min] and [max] keeps doing so, and its cursor stays on
    one of its digits; every handler returns. *)
Theorem keys_keep_in_range fuel ks : forall t,
  in_range t ->
  exists t', for_each ks (handle fuel) t = Ok t' /\ in_range t'.
Proof.
  induction ks as [|k ks IH]; intros t Hin.
  - exists t. split; [reflexivity|exact Hin].
  - destruct (decade_step fuel k t Hin) as (t1 & E1 & H1).
    destruct (IH t1 H1) as (t2 & E2 & H2).
    exists t2. simpl. rewrite E1. split; [exact E2|exact H2].
Qed.

Lemma keys_keep_in_range_witness :
  exists t',
    for_each [Left; Left; Left; Plus; Plus; Plus; Plus; Plus; Plus; Plus;
              Plus; Plus; Plus] (handle 0) three_digits = Ok t'
    /\ in_range t'.
Proof.
  apply (keys_keep_in_range 0).
  eexists _, _. repeat split; try reflexivity; vm_compute; discriminate.
Defined.

(** X23: on a decade without decimals that holds an integer between [min]
    and [max], with its cursor on one of its digits, [+] adds the power of
    ten under the cursor, or stops at [max] when that would pass it; and [-]
    after a [+] that did not stop at [max] gives the value back. *)
Theorem add_then_sub fuel t z d :
  in_range t ->
  number t = Ok z ->
  _delta (fst t) = Ok d ->
  exists t1,
    _add fuel t = Ok t1
    /\ number t1 = Ok (Z.min (z + d) (max (fst t)))
    /\ (z + d <= max (fst t) ->
        exists t2, _sub fuel t1 = Ok t2 /\ number t2 = Ok z).
Proof.
  intros (o & z0 & Ho & Hc & Hv & Hz & Hcur & Hdec) Hnum Hdelta.
  destruct t as [[w n dc c mx mn] st]. simpl in Ho, Hz, Hcur, Hdec.
  erewrite number_spec in Hnum; [|exact Ho|exact Hv].
  injection Hnum as ->.
  destruct (delta_spec (mkAttrs w n dc c mx mn)) as [Hd Hpos]; [simpl; lia..|].
  simpl fst in Hdelta. rewrite Hd in Hdelta. injection Hdelta as <-.
  simpl in Hpos.
  unfold _add. erewrite number_spec; [|exact Ho|exact Hv].
  unfold mbind at 1, result_bind at 1. cbn [fst]. rewrite Hd.
  unfold mbind, result_bind. simpl.
  destruct (Z.leb_spec (z + 10 ^ (c - dc)) mx) as [Hle|Hgt].
  - destruct (set_number_spec fuel (z + 10 ^ (c - dc))
                (mkAttrs w n dc c mx mn) st o z Ho Hc Hv)
      as (st1 & o1 & E1 & Ho1 & Hc1 & Hv1).
    rewrite E1. eexists. split; [reflexivity|]. split.
    + erewrite number_spec; [|exact Ho1|exact Hv1]. f_equal. lia.
    + intros _. unfold _sub. erewrite number_spec; [|exact Ho1|exact Hv1].
      unfold mbind at 1, result_bind at 1. cbn [fst]. rewrite Hd.
      unfold mbind, result_bind. simpl.
      replace (z + 10 ^ (c - dc) - 10 ^ (c - dc)) with z by lia.
      destruct (Z.geb_spec z mn); [|lia].
      destruct (set_number_spec fuel z (mkAttrs w n dc c mx mn) st1 o1 _
                  Ho1 Hc1 Hv1) as (st2 & o2 & E2 & Ho2 & Hc2 & Hv2).
      rewrite E2. eexists. split; [reflexivity|].
      eapply number_spec; [exact Ho2|exact Hv2].
  - destruct (set_number_spec fuel mx
                (mkAttrs w n dc c mx mn) st o z Ho Hc Hv)
      as (st1 & o1 & E1 & Ho1 & Hc1 & Hv1).
    rewrite E1. eexists. split; [reflexivity|]. split.
    + erewrite number_spec; [|exact Ho1|exact Hv1]. f_equal. lia.
    + intros Hle. lia.
Qed.

Lemma add_then_sub_witness :
  exists t1,
    _add 0 three_digits = Ok t1
    /\ number t1 = Ok 1
    /\ exists t2, _sub 0 t1 = Ok t2 /\ number t2 = Ok 0.
Proof.
  destruct (add_then_sub 0 three_digits 0 1) as (t1 & E & N & R).
  - eexists _, _. repeat split; try reflexivity; vm_compute; discriminate.
  - reflexivity.
  - reflexivity.
  - exists t1. split; [exact E|]. split; [exact N|]. apply R.
    vm_compute. discriminate.
Defined.

End DecadeProps.
